(** * LibreSSL: word primitives of bn_internal.h, the X.509 name
    constraints of x509_constraints.c and the security levels of
    ssl_seclevel.c, as a shallow embedding.

    Part I embeds the single-word primitives of [bn_internal.h]
    ([bn_addw], [bn_subw], [bn_umul_hilo], ...) over [Z] with the
    wrap-around of [BN_ULONG] written out.  Part II embeds
    [x509_constraints.c]: validators, the mailbox parser, the URI host
    extractor, the matcher, the check and the chain walk; its
    continuation embeds the default security callback of
    [ssl_seclevel.c]. *)

From Stdlib Require Import ZArith List Bool Ascii String Lia Arith.
Import ListNotations.

(* ===================================================================== *)
(** * Part I: bn_internal.h *)
(* ===================================================================== *)

Module Bn.
Local Open Scope Z_scope.

Section Words.

(** [BN_BITS4] is half the width of a [BN_ULONG] (16 or 32 in bn.h, which
    is not part of the sources at hand, hence a parameter); [BN_LLONG]
    says whether the build has a double-width [BN_ULLONG]. *)
Variable BN_BITS4 : Z.
Variable BN_LLONG : bool.

Definition BN_BITS2 : Z := 2 * BN_BITS4.
Definition BN_MASK2 : Z := Z.ones BN_BITS2.
Definition BN_MASK2l : Z := Z.ones BN_BITS4.

(** Conversion to [BN_ULONG] and to [BN_ULLONG]: keep the low bits. *)
Definition ulong (x : Z) : Z := Z.land x BN_MASK2.
Definition ullong (x : Z) : Z := Z.land x (Z.ones (2 * BN_BITS2)).

(** The C operators on [BN_ULONG] operands. *)
Definition w_add (a b : Z) : Z := ulong (a + b).
Definition w_sub (a b : Z) : Z := ulong (a - b).
Definition w_mul (a b : Z) : Z := ulong (a * b).
Definition w_not (a : Z) : Z := ulong (Z.lnot a).
Definition w_shl (a n : Z) : Z := ulong (Z.shiftl a n).
Definition w_shr (a n : Z) : Z := Z.shiftr a n.

(** A value of type [BN_ULONG]. *)
Definition word (a : Z) : Prop := 0 <= a < 2 ^ BN_BITS2.

(** The top bit of a word, as a number: what [>> (BN_BITS2 - 1)] leaves. *)
Definition top (a : Z) : Z := Z.b2z (Z.testbit a (BN_BITS2 - 1)).

(** [bn_addw], with [BN_LLONG]: the sum is formed in a [BN_ULLONG]. *)
Definition bn_addw_llong (a b : Z) : Z * Z :=
  let r := ullong (ullong a + ullong b) in
  (ulong (Z.shiftr r BN_BITS2), ulong (Z.land r BN_MASK2)).

(** [bn_addw], without [BN_LLONG]: the carry is the top bit of
    [((a | b) & ~r0) | (a & b)]. *)
Definition bn_addw_ulong (a b : Z) : Z * Z :=
  let c1 := Z.lor a b in
  let c2 := Z.land a b in
  let r0 := w_add a b in
  let r1 := w_shr (Z.lor (Z.land c1 (w_not r0)) c2) (BN_BITS2 - 1) in
  (r1, r0).

Definition bn_addw (a b : Z) : Z * Z :=
  if BN_LLONG then bn_addw_llong a b else bn_addw_ulong a b.

Definition bn_addw_addw (a b c : Z) : Z * Z :=
  let '(r1, r0) := bn_addw a b in
  let '(carry, r0) := bn_addw r0 c in
  let r1 := w_add r1 carry in
  (r1, r0).

(** [bn_subw] returns (borrow, r0). *)
Definition bn_subw (a b : Z) : Z * Z :=
  let r0 := w_sub a b in
  let borrow :=
    w_shr (Z.land (Z.lor r0 (Z.land b (w_not a))) (Z.lor b (w_not a)))
          (BN_BITS2 - 1) in
  (borrow, r0).

Definition bn_subw_subw (a b c : Z) : Z * Z :=
  let '(b1, r0) := bn_subw a b in
  let '(b2, r0) := bn_subw r0 c in
  (w_add b1 b2, r0).

(** [bn_umul_hilo] returns (h, l); with [BN_LLONG] the product is formed
    in a [BN_ULLONG]. *)
Definition bn_umul_hilo_llong (a b : Z) : Z * Z :=
  let r := ullong (ullong a * ullong b) in
  (ulong (Z.shiftr r BN_BITS2), ulong (Z.land r BN_MASK2)).

(** Without [BN_LLONG]: four half-word products, the two middle ones
    partitioned across h:l with the carry computed as in [bn_addw]. *)
Definition bn_umul_hilo_ulong (a b : Z) : Z * Z :=
  let ah := w_shr a BN_BITS4 in
  let al := Z.land a BN_MASK2l in
  let bh := w_shr b BN_BITS4 in
  let bl := Z.land b BN_MASK2l in
  let h := w_mul ah bh in
  let l := w_mul al bl in
  (* (ah * bl) << BN_BITS4 *)
  let x := w_mul ah bl in
  let h := w_add h (w_shr x BN_BITS4) in
  let x := w_shl x BN_BITS4 in
  let c1 := Z.lor l x in
  let c2 := Z.land l x in
  let l := w_add l x in
  let h := w_add h (w_shr (Z.lor (Z.land c1 (w_not l)) c2) (BN_BITS2 - 1)) in
  (* (bh * al) << BN_BITS4 *)
  let x := w_mul bh al in
  let h := w_add h (w_shr x BN_BITS4) in
  let x := w_shl x BN_BITS4 in
  let c1 := Z.lor l x in
  let c2 := Z.land l x in
  let l := w_add l x in
  let h := w_add h (w_shr (Z.lor (Z.land c1 (w_not l)) c2) (BN_BITS2 - 1)) in
  (h, l).

Definition bn_umul_hilo (a b : Z) : Z * Z :=
  if BN_LLONG then bn_umul_hilo_llong a b else bn_umul_hilo_ulong a b.

Definition bn_umul_lo (a b : Z) : Z := w_mul a b.

Definition bn_umul_hi (a b : Z) : Z := fst (bn_umul_hilo a b).

Definition bn_mulw_addw (a b c : Z) : Z * Z :=
  let '(r1, r0) := bn_umul_hilo a b in
  let '(carry, r0) := bn_addw r0 c in
  let r1 := w_add r1 carry in
  (r1, r0).

Definition bn_mulw_addw_addw (a b c d : Z) : Z * Z :=
  let '(r1, r0) := bn_mulw_addw a b c in
  let '(carry, r0) := bn_addw r0 d in
  let r1 := w_add r1 carry in
  (r1, r0).

(** The constant-time tests: [bn_ct_ne_zero] returns 1 when [w] is not
    zero and 0 otherwise, through the top bit of [w | ~(w - 1)]. *)
Definition bn_ct_ne_zero (w : Z) : Z :=
  w_shr (Z.lor w (w_not (w_sub w 1))) (BN_BITS2 - 1).

Definition bn_ct_ne_zero_mask (w : Z) : Z := ulong (0 - bn_ct_ne_zero w).

Definition bn_ct_eq_zero (w : Z) : Z := 1 - bn_ct_ne_zero w.

Definition bn_ct_eq_zero_mask (w : Z) : Z := ulong (0 - bn_ct_eq_zero w).

(** The accumulator based [bn_umul_hilo] (the branch after [#if 1 ...
    #else]): four half-word accumulators, masked after each addition. *)
Definition bn_umul_hilo_acc (a b : Z) : Z * Z :=
  let ah := w_shr a BN_BITS4 in
  let bh := w_shr b BN_BITS4 in
  let al := Z.land a BN_MASK2l in
  let bl := Z.land b BN_MASK2l in
  let h := w_mul ah bh in
  let l := w_mul al bl in
  let acc0 := Z.land l BN_MASK2l in
  let acc1 := w_shr l BN_BITS4 in
  let acc2 := Z.land h BN_MASK2l in
  let acc3 := w_shr h BN_BITS4 in
  (* (ah * bl) << BN_BITS4 *)
  let x := w_mul ah bl in
  let acc1 := w_add acc1 (Z.land x BN_MASK2l) in
  let acc2 := w_add acc2 (w_add (w_shr acc1 BN_BITS4) (w_shr x BN_BITS4)) in
  let acc1 := Z.land acc1 BN_MASK2l in
  let acc3 := w_add acc3 (w_shr acc2 BN_BITS4) in
  let acc2 := Z.land acc2 BN_MASK2l in
  (* (bh * al) << BN_BITS4 *)
  let x := w_mul bh al in
  let acc1 := w_add acc1 (Z.land x BN_MASK2l) in
  let acc2 := w_add acc2 (w_add (w_shr acc1 BN_BITS4) (w_shr x BN_BITS4)) in
  let acc1 := Z.land acc1 BN_MASK2l in
  let acc3 := w_add acc3 (w_shr acc2 BN_BITS4) in
  let acc2 := Z.land acc2 BN_MASK2l in
  (Z.lor (w_shl acc3 BN_BITS4) acc2, Z.lor (w_shl acc1 BN_BITS4) acc0).

(** [bn_mulw_addtw] returns (r2, r1, r0). *)
Definition bn_mulw_addtw (a b c2 c1 c0 : Z) : Z * Z * Z :=
  let '(x1, x0) := bn_umul_hilo a b in
  let '(carry, r0) := bn_addw c0 x0 in
  let x1 := w_add x1 carry in
  let '(carry, r1) := bn_addw c1 x1 in
  let r2 := w_add c2 carry in
  (r2, r1, r0).

End Words.

(** The largest 64-bit word, for the evaluated cases. *)
Definition max64 : Z := 18446744073709551615.

End Bn.

(* ===================================================================== *)
(** * Part II: x509_constraints.c *)
(* ===================================================================== *)

Module X509.

(** ** Bytes, characters and the libc string functions the file uses *)

(** A [uint8_t] (and a [char]) is an [ascii]; a buffer is the list of the
    bytes it holds, read as NUL past its end (the terminator of the
    ASN.1 strings the callers pass). *)
Definition NUL : ascii := ascii_of_nat 0.
Definition HT : ascii := ascii_of_nat 9.
Definition LF : ascii := ascii_of_nat 10.
Definition CR : ascii := ascii_of_nat 13.
Definition DQUOTE : ascii := ascii_of_nat 34.
Definition BACKSLASH : ascii := ascii_of_nat 92.

Definition byte_at (p : list ascii) (i : nat) : ascii := nth i p NUL.

Definition code (c : ascii) : nat := nat_of_ascii c.

Definition in_range (lo hi c : ascii) : bool :=
  (code lo <=? code c) && (code c <=? code hi).

Definition isascii (c : ascii) : bool := code c <? 128.
Definition isdigit (c : ascii) : bool := in_range "0" "9" c.
Definition isalnum (c : ascii) : bool :=
  in_range "0" "9" c || in_range "a" "z" c || in_range "A" "Z" c.

(** The case folding of strncasecmp: 'A'..'Z' to 'a'..'z', every other
    byte unchanged. *)
Definition tolower (c : ascii) : ascii :=
  if in_range "A" "Z" c then ascii_of_nat (code c + 32) else c.

(** The C string that starts at [p]: the bytes before the first NUL. *)
Fixpoint cstr (p : list ascii) : list ascii :=
  match p with
  | [] => []
  | c :: p' => if (c =? NUL)%char then [] else c :: cstr p'
  end.

Definition strlen (s : list ascii) : nat := List.length (cstr s).
Definition strdup (s : list ascii) : list ascii := cstr s.
Definition strndup (s : list ascii) (n : nat) : list ascii := cstr (firstn n s).

(** [strcmp]: the difference of the first two bytes that differ, 0 when
    both strings end together. *)
Fixpoint strcmp (s1 s2 : list ascii) : Z :=
  let c1 := hd NUL s1 in
  let c2 := hd NUL s2 in
  if negb (c1 =? c2)%char then (Z.of_nat (code c1) - Z.of_nat (code c2))%Z
  else
    match s1 with
    | [] => 0%Z
    | c :: s1' => if (c =? NUL)%char then 0%Z else strcmp s1' (tl s2)
    end.

(** [strncasecmp]: as [strcmp] on the folded bytes, over at most [n]. *)
Fixpoint strncasecmp (s1 s2 : list ascii) (n : nat) : Z :=
  match n with
  | O => 0%Z
  | S n' =>
    let c1 := hd NUL s1 in
    let c2 := hd NUL s2 in
    if negb (tolower c1 =? tolower c2)%char
    then (Z.of_nat (code (tolower c1)) - Z.of_nat (code (tolower c2)))%Z
    else if (c1 =? NUL)%char then 0%Z
    else strncasecmp (tl s1) (tl s2) n'
  end.

(** [memcmp] over [n] bytes. *)
Fixpoint memcmp (p q : list ascii) (n : nat) : Z :=
  match n with
  | O => 0%Z
  | S n' =>
    let c1 := hd NUL p in
    let c2 := hd NUL q in
    if negb (c1 =? c2)%char then (Z.of_nat (code c1) - Z.of_nat (code c2))%Z
    else memcmp (tl p) (tl q) n'
  end.

(** [memchr (p, c, n) != NULL]. *)
Definition memchr_found (p : list ascii) (c : ascii) (n : nat) : bool :=
  existsb (fun x => (x =? c)%char) (firstn n p).

(** [memcpy (dst, src, n)] into an array. *)
Definition memcpy (dst src : list ascii) (n : nat) : list ascii :=
  firstn n src ++ skipn n dst.

(** ** Constants of the headers *)

(** RFC 2821 section 4.5.3.1 *)
Definition LOCAL_PART_MAX_LEN : nat := 64.
Definition DOMAIN_PART_MAX_LEN : nat := 255.

(** The GeneralName choices of x509v3.h (the tags of RFC 5280); 0 is
    also the type of a name that was only allocated. *)
Definition GEN_OTHERNAME : Z := 0.
Definition GEN_EMAIL : Z := 1.
Definition GEN_DNS : Z := 2.
Definition GEN_X400 : Z := 3.
Definition GEN_DIRNAME : Z := 4.
Definition GEN_EDIPARTY : Z := 5.
Definition GEN_URI : Z := 6.
Definition GEN_IPADD : Z := 7.
Definition GEN_RID : Z := 8.

(** Address families of sys/socket.h. *)
Definition AF_INET : Z := 2.
Definition AF_INET6 : Z := 24.

(** The verification error codes of x509_vfy.h the file assigns, kept
    symbolic; [X509_V_OK] stands for a caller's untouched cell. *)
Inductive verify_error : Type :=
| X509_V_OK
| X509_V_ERR_UNSPECIFIED
| X509_V_ERR_OUT_OF_MEM
| X509_V_ERR_PERMITTED_VIOLATION
| X509_V_ERR_EXCLUDED_VIOLATION
| X509_V_ERR_SUBTREE_MINMAX
| X509_V_ERR_UNSUPPORTED_CONSTRAINT_SYNTAX
| X509_V_ERR_UNSUPPORTED_NAME_SYNTAX.

(** ** struct x509_constraints_name and struct x509_constraints_names *)

(** [name] and [local] are C strings or NULL; [address] is the 32 byte
    array. *)
Record x509_constraints_name : Type := mk_name {
  type : Z;
  af : Z;
  name : option (list ascii);
  local : option (list ascii);
  der : list ascii;
  der_len : nat;
  address : list ascii
}.

(** [x509_constraints_name_new]: calloc, all fields zero. *)
Definition x509_constraints_name_new : x509_constraints_name :=
  {| type := 0; af := 0; name := None; local := None;
     der := []; der_len := 0; address := repeat NUL 32 |}.

(** The growable array of names: the list of its [names_count] entries. *)
Definition x509_constraints_names : Type := list x509_constraints_name.

Definition x509_constraints_names_new : x509_constraints_names := [].

Definition x509_constraints_names_add
    (names : x509_constraints_names) (nm : x509_constraints_name)
    : x509_constraints_names :=
  names ++ [nm].

(** ** The decoded certificate, as far as the file reads it

    The ASN.1 structures come from headers that are not part of the
    sources at hand; they are kept to the fields that are read here. *)

Record ASN1_STRING : Type := mk_asn1_string {
  length_ : nat;
  data : list ascii
}.

Record X509_NAME_ENTRY : Type := mk_name_entry {
  object : Z;                        (* the NID of the attribute type *)
  value : option ASN1_STRING
}.

(** [canon_enc] and [canon_enclen] are the canonical encoding as it
    stands once [i2d_X509_NAME] has run, [i2d_ret] what that call
    returns. *)
Record X509_NAME : Type := mk_x509_name {
  entries : list X509_NAME_ENTRY;
  modified : bool;
  i2d_ret : Z;
  canon_enc : option (list ascii);
  canon_enclen : nat
}.

(** The union of a GENERAL_NAME with its [type] tag. *)
Inductive GENERAL_NAME : Type :=
| dNSName (aname : ASN1_STRING)
| rfc822Name (aname : ASN1_STRING)
| uniformResourceIdentifier (aname : ASN1_STRING)
| directoryName (dname : X509_NAME)
| iPAddress (ip : ASN1_STRING)
| otherGeneralName (gen_type : Z).

Record GENERAL_SUBTREE : Type := mk_subtree {
  base : GENERAL_NAME;
  minimum : option Z;
  maximum : option Z
}.

Record NAME_CONSTRAINTS : Type := mk_nc {
  permittedSubtrees : list GENERAL_SUBTREE;
  excludedSubtrees : list GENERAL_SUBTREE
}.

Record X509 : Type := mk_x509 {
  altname : list GENERAL_NAME;
  subject_name : X509_NAME;
  nc : option NAME_CONSTRAINTS
}.

Definition NID_commonName : Z := 13.
Definition NID_pkcs9_emailAddress : Z := 48.

(** [X509_NAME_get_index_by_NID (name, nid, lastpos)] of x509name.c:
    the index of the first entry after [lastpos] whose type is [nid],
    or -1. *)
Fixpoint index_by_NID_from (es : list X509_NAME_ENTRY) (nid : Z)
    (idx start : Z) : Z :=
  match es with
  | [] => (-1)%Z
  | e :: es' =>
    if (start <=? idx)%Z && (object e =? nid)%Z then idx
    else index_by_NID_from es' nid (idx + 1)%Z start
  end.

Definition X509_NAME_get_index_by_NID (nm : X509_NAME) (nid lastpos : Z)
    : Z :=
  let lastpos := if (lastpos <? 0)%Z then (-1)%Z else lastpos in
  index_by_NID_from (entries nm) nid 0 (lastpos + 1)%Z.

Definition X509_NAME_get_entry (nm : X509_NAME) (loc : Z)
    : option X509_NAME_ENTRY :=
  if (loc <? 0)%Z then None else nth_error (entries nm) (Z.to_nat loc).

(** The calls [x509_constraints_chain] makes, at chain index [i]; a
    record of what a run did, next to its result. *)
Inductive chain_call : Type :=
| call_extract_names (i : nat)
| call_extract_constraints (i : nat)
| call_check (i : nat).

Record chain_result : Type := mk_chain_result {
  ret : bool;
  error : verify_error;
  depth : Z;
  calls : list chain_call
}.

Section Libc.

(** The ceilings of x509_internal.h. *)
Variable X509_VERIFY_MAX_CHAIN_NAMES : nat.
Variable X509_VERIFY_MAX_CHAIN_CONSTRAINTS : nat.

(** [inet_pton (af, src, dst)] of libc, by its return value on the C
    string [src]. *)
Variable inet_pton : Z -> list ascii -> Z.

(** ** Validators *)

(** The loop of [x509_constraints_valid_domain_internal], at index [i]
    with [fuel] iterations left; [c] is the previous byte on entry. *)
Fixpoint valid_domain_loop (name : list ascii) (len : nat)
    (fuel i : nat) (c : ascii) (component : nat) : bool :=
  match fuel with
  | O => true
  | S fuel' =>
    let prev := c in
    let c := byte_at name i in
    let first := (i =? 0) in
    (* Everything has to be ASCII, with no NUL byte *)
    if negb (isascii c) || (c =? NUL)%char then false
    (* It must be alphanumeric, a '-', '.', '_' or '*' *)
    else if negb (isalnum c) && negb (c =? "-")%char && negb (c =? ".")%char
            && negb (c =? "_")%char && negb (c =? "*")%char then false
    (* '*' can only be the first thing. *)
    else if (c =? "*")%char && negb first then false
    (* '-' must not start a component or be at the end. *)
    else if (c =? "-")%char && ((component =? 0) || (i =? len - 1)) then false
    (* '.' must not be at the end; first overall or inside only. *)
    else if (c =? ".")%char
            && (((component =? 0) && negb first) || (i =? len - 1)) then false
    else if (c =? ".")%char then
      (* Components can not end with a dash. *)
      if (prev =? "-")%char then false
      else valid_domain_loop name len fuel' (S i) c 0
    (* Components must be 63 chars or less. *)
    else if 63 <? component + 1 then false
    else valid_domain_loop name len fuel' (S i) c (component + 1)
  end.

Definition x509_constraints_valid_domain_internal
    (name : list ascii) (len : nat) : bool :=
  if DOMAIN_PART_MAX_LEN <? len then false
  else valid_domain_loop name len len 0 NUL 0.

Definition x509_constraints_valid_domain (name : list ascii) (len : nat)
    : bool :=
  if len =? 0 then false
  else if (byte_at name 0 =? "*")%char then false
  else if (len <? 3) && (byte_at name 0 =? ".")%char then false
  else x509_constraints_valid_domain_internal name len.

(** [inet_pton] reads the C string at [name], whatever [len] is. *)
Definition x509_constraints_valid_host (name : list ascii) (len : nat)
    : bool :=
  if len =? 0 then false
  else if (byte_at name 0 =? "*")%char then false
  else if (byte_at name 0 =? ".")%char then false
  else if (inet_pton AF_INET (cstr name) =? 1)%Z then false
  else if (inet_pton AF_INET6 (cstr name) =? 1)%Z then false
  else x509_constraints_valid_domain_internal name len.

Definition x509_constraints_valid_sandns (name : list ascii) (len : nat)
    : bool :=
  if len =? 0 then false
  else if (byte_at name 0 =? ".")%char then false
  else if (len <? 4) && (byte_at name 0 =? "*")%char then false
  else if (4 <=? len) && (byte_at name 0 =? "*")%char
          && negb (byte_at name 1 =? ".")%char then false
  else x509_constraints_valid_domain_internal name len.

Definition local_part_ok (c : ascii) : bool :=
  in_range "0" "9" c || in_range "a" "z" c || in_range "A" "Z" c
  || (c =? "!")%char || (c =? "#")%char || (c =? "$")%char
  || (c =? "%")%char || (c =? "&")%char || (c =? "'")%char
  || (c =? "*")%char || (c =? "+")%char || (c =? "-")%char
  || (c =? "/")%char || (c =? "=")%char || (c =? "?")%char
  || (c =? "^")%char || (c =? "_")%char || (c =? "`")%char
  || (c =? "{")%char || (c =? "|")%char || (c =? "}")%char
  || (c =? "~")%char || (c =? ".")%char.

Definition x509_constraints_valid_domain_constraint
    (constraint : list ascii) (len : nat) : bool :=
  if len =? 0 then true
  else if (byte_at constraint 0 =? "*")%char then false
  else if (len <? 3) && (byte_at constraint 0 =? ".")%char then false
  else x509_constraints_valid_domain_internal constraint len.

(** ** The mailbox parser *)

(** The locals of [x509_constraints_parse_mailbox] that live across
    iterations; [working] holds the [wi] bytes written so far into the
    zeroed array. *)
Record mailbox_state : Type := mk_mailbox {
  candidate_local : option (list ascii);
  candidate_domain : option (list ascii);
  working : list ascii;
  accept : bool;
  quoted : bool
}.

Definition mailbox_init : mailbox_state :=
  {| candidate_local := None; candidate_domain := None; working := [];
     accept := false; quoted := false |}.

(** The for loop, at index [i] with [fuel] iterations left.  [None] is
    [goto bad]; [Some st] is the state when the loop is left, by its
    condition or by [break]. *)
Fixpoint mailbox_loop (candidate : list ascii) (len : nat)
    (fuel i : nat) (st : mailbox_state) : option mailbox_state :=
  match fuel with
  | O => Some st
  | S fuel' =>
    let c := byte_at candidate i in
    let wi := List.length (working st) in
    (* non ascii, cr, lf, or nul is never allowed *)
    if negb (isascii c) || (c =? CR)%char || (c =? LF)%char
       || (c =? NUL)%char then None
    else
      (* local part is quoted part *)
      let quoted1 :=
        if (i =? 0) && (c =? DQUOTE)%char then true else quoted st in
      (* can not start with a . *)
      if (i =? 0) && (c =? ".")%char then None
      else if DOMAIN_PART_MAX_LEN <? wi then None
      else if accept st then
        mailbox_loop candidate len fuel' (S i)
          {| candidate_local := candidate_local st;
             candidate_domain := candidate_domain st;
             working := working st ++ [c];
             accept := false; quoted := quoted1 |}
      else
        match candidate_local st with
        | Some _ =>
          (* We are looking for the domain part *)
          if DOMAIN_PART_MAX_LEN <? wi then None
          else
            let working1 := working st ++ [c] in
            if i =? len - 1 then
              if List.length working1 =? 0 then None
              else
                match candidate_domain st with
                | Some _ => None
                | None =>
                  mailbox_loop candidate len fuel' (S i)
                    {| candidate_local := candidate_local st;
                       candidate_domain := Some (strdup working1);
                       working := working1;
                       accept := false; quoted := quoted1 |}
                end
            else
              mailbox_loop candidate len fuel' (S i)
                {| candidate_local := candidate_local st;
                   candidate_domain := candidate_domain st;
                   working := working1;
                   accept := false; quoted := quoted1 |}
        | None =>
          (* We are looking for the local part *)
          if LOCAL_PART_MAX_LEN <? wi then
            Some {| candidate_local := candidate_local st;
                    candidate_domain := candidate_domain st;
                    working := working st;
                    accept := false; quoted := quoted1 |}
          else if quoted1 then
            if (c =? BACKSLASH)%char then
              mailbox_loop candidate len fuel' (S i)
                {| candidate_local := None;
                   candidate_domain := candidate_domain st;
                   working := working st;
                   accept := true; quoted := quoted1 |}
            else if (c =? DQUOTE)%char && negb (i =? 0)
                    && ((i + 1 =? len)
                        || negb (byte_at candidate (i + 1) =? "@")%char)
            then None
            else
              (* end the quoted part. @ must be next *)
              let quoted2 :=
                if (c =? DQUOTE)%char && negb (i =? 0) then false
                else quoted1 in
              if (c =? HT)%char then None
              else
                mailbox_loop candidate len fuel' (S i)
                  {| candidate_local := None;
                     candidate_domain := candidate_domain st;
                     working := working st ++ [c];
                     accept := false; quoted := quoted2 |}
          else if (c =? "@")%char then
            if wi =? 0 then None
            else
              mailbox_loop candidate len fuel' (S i)
                {| candidate_local := Some (strdup (working st));
                   candidate_domain := candidate_domain st;
                   working := [];
                   accept := false; quoted := quoted1 |}
          else if (c =? BACKSLASH)%char
                  && ((i + 1 =? len)
                      || negb (local_part_ok (byte_at candidate (i + 1))))
          then None
          else
            let accept1 := (c =? BACKSLASH)%char in
            if negb (local_part_ok c) then None
            else
              mailbox_loop candidate len fuel' (S i)
                {| candidate_local := None;
                   candidate_domain := candidate_domain st;
                   working := working st ++ [c];
                   accept := accept1; quoted := quoted1 |}
        end
  end.

(** The local and domain parts [x509_constraints_parse_mailbox] accepts. *)
Definition mailbox_parts (candidate : list ascii) (len : nat)
    : option (list ascii * list ascii) :=
  (* It can't be bigger than the local part, domain part and the '@' *)
  if LOCAL_PART_MAX_LEN + DOMAIN_PART_MAX_LEN + 1 <? len then None
  else
    match mailbox_loop candidate len len 0 mailbox_init with
    | None => None
    | Some st =>
      match candidate_local st, candidate_domain st with
      | Some l, Some d =>
        if x509_constraints_valid_host d (strlen d) then Some (l, d)
        else None
      | _, _ => None
      end
    end.

(** [x509_constraints_parse_mailbox (candidate, len, name)]: the return
    value and the record behind [name] afterwards.  [candidate] may be
    NULL. *)
Definition x509_constraints_parse_mailbox
    (candidate : option (list ascii)) (len : nat)
    (nm : x509_constraints_name) : bool * x509_constraints_name :=
  match candidate with
  | None => (false, nm)
  | Some candidate =>
    match mailbox_parts candidate len with
    | Some (l, d) =>
      (true,
       {| type := GEN_EMAIL; af := af nm; name := Some d; local := Some l;
          der := der nm; der_len := der_len nm; address := address nm |})
    | None => (false, nm)
    end
  end.

(** ** The URI host extractor *)

(** The first loop of [x509_constraints_uri_host]: the offset of the
    authority, after the first "//"; [None] when the function returns 0
    (a byte that is not ASCII, or no "//"). *)
Fixpoint find_authority (uri : list ascii) (fuel i : nat) : option nat :=
  match fuel with
  | O => None
  | S fuel' =>
    if negb (isascii (byte_at uri i)) then None
    else if (byte_at uri i =? "/")%char && (byte_at uri (i + 1) =? "/")%char
    then Some (i + 2)
    else find_authority uri fuel' (S i)
  end.

(** The second loop: [None] when it returns 0, else ([hostlen], [host])
    when it is left, [host] being an offset into [uri] or NULL. *)
Fixpoint scan_authority (uri : list ascii) (fuel i : nat)
    (hostlen : nat) (host : option nat) : option (nat * option nat) :=
  match fuel with
  | O => Some (hostlen, host)
  | S fuel' =>
    let c := byte_at uri i in
    if negb (isascii c) then None
    (* it has a userinfo part *)
    else if (c =? "@")%char then
      match host with
      | Some _ => Some (0, host)        (* it can only have one *)
      | None => scan_authority uri fuel' (S i) 0 (Some (i + 1))
      end
    (* did we find the end? *)
    else if (c =? ":")%char || (c =? "/")%char || (c =? "?")%char
            || (c =? "#")%char then Some (hostlen, host)
    else scan_authority uri fuel' (S i) (S hostlen) host
  end.

(** [x509_constraints_uri_host (uri, len, &hostpart)]: [None] when it
    returns 0, [Some h] when it returns 1 with [*hostpart = h]. *)
Definition x509_constraints_uri_host (uri : list ascii) (len : nat)
    : option (list ascii) :=
  if len <? 3 then None
  else
    match find_authority uri (len - 1) 0 with
    | None => None
    | Some authority =>
      match scan_authority uri (len - authority) authority 0 None with
      | None => None
      | Some (hostlen, host) =>
        if hostlen =? 0 then None
        else
          let host := match host with Some h => h | None => authority end in
          if negb (x509_constraints_valid_host (skipn host uri) hostlen)
          then None
          else Some (strndup (skipn host uri) hostlen)
      end
    end.

(** ** Matching *)

Definition x509_constraints_sandns (sandns : list ascii) (dlen : nat)
    (constraint : list ascii) (len : nat) : bool :=
  if len =? 0 then true     (* an empty constraint matches everything *)
  else if dlen <? len then false
  else (strncasecmp (skipn (dlen - len) sandns) constraint len =? 0)%Z.

Definition x509_constraints_domain (domain : list ascii) (dlen : nat)
    (constraint : list ascii) (len : nat) : bool :=
  if len =? 0 then true     (* an empty constraint matches everything *)
  else if (byte_at constraint 0 =? ".")%char then
    (* match the end of the domain *)
    if dlen <? len then false
    else (strncasecmp (skipn (dlen - len) domain) constraint len =? 0)%Z
  else if (byte_at domain 0 =? ".")%char then
    (* match the end of the constraint *)
    if len <? dlen then false
    else (strncasecmp (skipn (len - dlen) constraint) domain dlen =? 0)%Z
  (* otherwise we must exactly match the constraint *)
  else if negb (dlen =? len) then false
  else (strncasecmp domain constraint len =? 0)%Z.


Definition byte_and (a b : ascii) : ascii :=
  ascii_of_N (N.land (N_of_ascii a) (N_of_ascii b)).

Fixpoint ipaddr_loop (address mask constraint : list ascii)
    (fuel i : nat) : bool :=
  match fuel with
  | O => true
  | S fuel' =>
    if negb (byte_and (byte_at address i) (byte_at mask i)
             =? byte_and (byte_at constraint i) (byte_at mask i))%char
    then false
    else ipaddr_loop address mask constraint fuel' (S i)
  end.

Definition x509_constraints_ipaddr (address : list ascii) (alen : nat)
    (constraint : list ascii) (len : nat) : bool :=
  if negb (alen * 2 =? len) then false
  else ipaddr_loop address (skipn alen constraint) constraint alen 0.

Definition x509_constraints_dirname (dirname : list ascii) (dlen : nat)
    (constraint : list ascii) (len : nat) : bool :=
  if negb (len =? dlen) then false
  else (memcmp constraint dirname len =? 0)%Z.

(** [x509_constraints_match (name, constraint)]; [None] when the call
    reads through a NULL [name] or [local]. *)
Definition x509_constraints_match
    (nm constraint : x509_constraints_name) : option bool :=
  if negb (type nm =? type constraint)%Z then Some false
  else if (type nm =? GEN_DNS)%Z then
    match name nm, name constraint with
    | Some n, Some c =>
      Some (x509_constraints_sandns n (strlen n) c (strlen c))
    | _, _ => None
    end
  else if (type nm =? GEN_URI)%Z then
    match name nm, name constraint with
    | Some n, Some c =>
      Some (x509_constraints_domain n (strlen n) c (strlen c))
    | _, _ => None
    end
  else if (type nm =? GEN_IPADD)%Z then
    let nlen := if (af nm =? AF_INET)%Z then 4 else 16 in
    let clen := if (af nm =? AF_INET)%Z then 8 else 32 in
    if negb (af nm =? AF_INET)%Z && negb (af nm =? AF_INET6)%Z
    then Some false
    else if negb (af constraint =? AF_INET)%Z
            && negb (af constraint =? AF_INET6)%Z then Some false
    else if negb (af nm =? af constraint)%Z then Some false
    else Some (x509_constraints_ipaddr (address nm) nlen
                 (address constraint) clen)
  else if (type nm =? GEN_EMAIL)%Z then
    match local constraint with
    | Some cl =>
      (* mailbox local and domain parts must exactly match *)
      match local nm with
      | None => None
      | Some nl =>
        if (strcmp nl cl =? 0)%Z then
          match name nm, name constraint with
          | Some n, Some c => Some (strcmp n c =? 0)%Z
          | _, _ => None
          end
        else Some false
      end
    | None =>
      (* otherwise match the constraint to the domain part *)
      match name nm, name constraint with
      | Some n, Some c =>
        Some (x509_constraints_domain n (strlen n) c (strlen c))
      | _, _ => None
      end
    end
  else if (type nm =? GEN_DIRNAME)%Z then
    Some (x509_constraints_dirname (der nm) (der_len nm)
            (der constraint) (der_len constraint))
  else Some false.

(** ** The check *)

(** The loop over the excluded constraints: [Some true] when one
    matches. *)
Fixpoint check_excluded (nm : x509_constraints_name)
    (excluded : x509_constraints_names) : option bool :=
  match excluded with
  | [] => Some false
  | e :: rest =>
    match x509_constraints_match nm e with
    | None => None
    | Some true => Some true
    | Some false => check_excluded nm rest
    end
  end.

(** The loop over the permitted constraints, left at the first match:
    ([permitted_seen], [permitted_matched]). *)
Fixpoint check_permitted (nm : x509_constraints_name)
    (permitted : x509_constraints_names) (permitted_seen : nat)
    : option (nat * nat) :=
  match permitted with
  | [] => Some (permitted_seen, 0)
  | p :: rest =>
    let seen :=
      if (type p =? type nm)%Z then S permitted_seen else permitted_seen in
    match x509_constraints_match nm p with
    | None => None
    | Some true => Some (seen, 1)
    | Some false => check_permitted nm rest seen
    end
  end.

(** [x509_constraints_check]: the return value and [*error] afterwards. *)
Fixpoint x509_constraints_check (names permitted excluded :
    x509_constraints_names) (error : verify_error)
    : option (bool * verify_error) :=
  match names with
  | [] => Some (true, error)
  | nm :: rest =>
    match check_excluded nm excluded with
    | None => None
    | Some true => Some (false, X509_V_ERR_EXCLUDED_VIOLATION)
    | Some false =>
      match check_permitted nm permitted 0 with
      | None => None
      | Some (permitted_seen, permitted_matched) =>
        if negb (permitted_seen =? 0) && (permitted_matched =? 0)
        then Some (false, X509_V_ERR_PERMITTED_VIOLATION)
        else x509_constraints_check rest permitted excluded error
      end
    end
  end.

(** ** Extraction of names and constraints *)

(** [x509_constraints_general_to_bytes]: the returned type, [*bytes]
    and [*len]. *)
Definition x509_constraints_general_to_bytes (gn : GENERAL_NAME)
    : Z * option (list ascii) * nat :=
  match gn with
  | dNSName aname => (GEN_DNS, Some (data aname), strlen (data aname))
  | rfc822Name aname => (GEN_EMAIL, Some (data aname), strlen (data aname))
  | uniformResourceIdentifier aname =>
    (GEN_URI, Some (data aname), strlen (data aname))
  | directoryName dname =>
    if negb (modified dname) || (0 <=? i2d_ret dname)%Z
    then (GEN_DIRNAME, canon_enc dname, canon_enclen dname)
    else (0%Z, None, 0)
  | iPAddress ip => (GEN_IPADD, Some (data ip), length_ ip)
  | otherGeneralName _ => (0%Z, None, 0)
  end.

(** The buffer behind a pointer that is not NULL. *)
Definition buffer (bytes : option (list ascii)) : list ascii :=
  match bytes with Some b => b | None => [] end.

Definition with_type (nm : x509_constraints_name) (t : Z)
    : x509_constraints_name :=
  {| type := t; af := af nm; name := name nm; local := local nm;
     der := der nm; der_len := der_len nm; address := address nm |}.

(** The body of the loop over the alternative names for one entry:
    [inl e] is [goto err] with [*error = e]; [inr None] is the ignored
    entry; [inr (Some v)] is the name that is added. *)
Definition extract_altname (gn : GENERAL_NAME)
    : verify_error + option x509_constraints_name :=
  let vname := x509_constraints_name_new in
  let '(name_type, bytes, len) := x509_constraints_general_to_bytes gn in
  if (name_type =? GEN_DNS)%Z then
    if negb (x509_constraints_valid_sandns (buffer bytes) len)
    then inl X509_V_ERR_UNSUPPORTED_NAME_SYNTAX
    else inr (Some {| type := GEN_DNS; af := 0;
                      name := Some (strdup (buffer bytes)); local := None;
                      der := []; der_len := 0; address := address vname |})
  else if (name_type =? GEN_EMAIL)%Z then
    match x509_constraints_parse_mailbox bytes len vname with
    | (false, _) => inl X509_V_ERR_UNSUPPORTED_NAME_SYNTAX
    | (true, vname) => inr (Some (with_type vname GEN_EMAIL))
    end
  else if (name_type =? GEN_URI)%Z then
    match x509_constraints_uri_host (buffer bytes) len with
    | None => inl X509_V_ERR_UNSUPPORTED_NAME_SYNTAX
    | Some hostpart =>
      inr (Some {| type := GEN_URI; af := 0; name := Some hostpart;
                   local := None; der := []; der_len := 0;
                   address := address vname |})
    end
  else if (name_type =? GEN_DIRNAME)%Z then
    match bytes with
    | None => inl X509_V_ERR_OUT_OF_MEM
    | Some b =>
      if len =? 0 then inl X509_V_ERR_UNSUPPORTED_NAME_SYNTAX
      else inr (Some {| type := GEN_DIRNAME; af := 0; name := None;
                        local := None; der := firstn len b; der_len := len;
                        address := address vname |})
    end
  else if (name_type =? GEN_IPADD)%Z then
    let af1 := if len =? 4 then AF_INET else 0%Z in
    let af2 := if len =? 16 then AF_INET6 else af1 in
    if negb (af2 =? AF_INET)%Z && negb (af2 =? AF_INET6)%Z
    then inl X509_V_ERR_UNSUPPORTED_NAME_SYNTAX
    else inr (Some {| type := GEN_IPADD; af := af2; name := None;
                      local := None; der := []; der_len := 0;
                      address := memcpy (address vname) (buffer bytes) len |})
  else inr None.

(** The while loop over [cert->altname]: on success the names, and
    [include_cn] and [include_email] as the loop leaves them. *)
Fixpoint extract_altnames (altnames : list GENERAL_NAME)
    (names : x509_constraints_names) (include_cn include_email : bool)
    : verify_error * x509_constraints_names
      + x509_constraints_names * bool * bool :=
  match altnames with
  | [] => inr (names, include_cn, include_email)
  | gn :: rest =>
    match extract_altname gn with
    | inl e => inl (e, names)
    | inr None => extract_altnames rest names include_cn include_email
    | inr (Some vname) =>
      let include_cn :=
        if (type vname =? GEN_DNS)%Z then false else include_cn in
      let include_email :=
        if (type vname =? GEN_EMAIL)%Z then false else include_email in
      extract_altnames rest (x509_constraints_names_add names vname)
        include_cn include_email
    end
  end.

(** The loop over the subject's emailAddress attributes, entered with
    [include_email] set: the names and the last value of [i] (-1), or
    the error. *)
Fixpoint extract_subject_emails (fuel : nat) (subject : X509_NAME)
    (i : Z) (names : x509_constraints_names)
    : verify_error * x509_constraints_names + x509_constraints_names * Z :=
  match fuel with
  | O => inr (names, i)
  | S fuel' =>
    let i := X509_NAME_get_index_by_NID subject NID_pkcs9_emailAddress i in
    if (i <? 0)%Z then inr (names, i)
    else
      match X509_NAME_get_entry subject i with
      | None => inl (X509_V_ERR_OUT_OF_MEM, names)
      | Some email =>
        match value email with
        | None => inl (X509_V_ERR_OUT_OF_MEM, names)
        | Some aname =>
          match x509_constraints_parse_mailbox (Some (data aname))
                  (length_ aname) x509_constraints_name_new with
          | (false, _) => inl (X509_V_ERR_UNSUPPORTED_NAME_SYNTAX, names)
          | (true, vname) =>
            extract_subject_emails fuel' subject i
              (x509_constraints_names_add names (with_type vname GEN_EMAIL))
          end
        end
      end
  end.

(** The loop over the subject's commonName attributes, entered with
    [include_cn] set. *)
Fixpoint extract_subject_cns (fuel : nat) (subject : X509_NAME)
    (i : Z) (names : x509_constraints_names)
    : verify_error * x509_constraints_names + x509_constraints_names :=
  match fuel with
  | O => inr names
  | S fuel' =>
    let i := X509_NAME_get_index_by_NID subject NID_commonName i in
    if (i <? 0)%Z then inr names
    else
      match X509_NAME_get_entry subject i with
      | None => inl (X509_V_ERR_OUT_OF_MEM, names)
      | Some cn =>
        match value cn with
        | None => inl (X509_V_ERR_OUT_OF_MEM, names)
        | Some aname =>
          if negb (x509_constraints_valid_host (data aname) (length_ aname))
          then extract_subject_cns fuel' subject i names
          else
            extract_subject_cns fuel' subject i
              (x509_constraints_names_add names
                 {| type := GEN_DNS; af := 0;
                    name := Some (strndup (data aname) (length_ aname));
                    local := None; der := []; der_len := 0;
                    address := address x509_constraints_name_new |})
        end
      end
  end.

(** [x509_constraints_extract_names (names, cert, is_leaf, &error)]: the
    return value, the names and [*error] afterwards.  Both subject loops
    start from the [i] the loop before them left; each iteration moves
    [i] forward, so one more than the number of entries is fuel enough. *)
Definition x509_constraints_extract_names (names : x509_constraints_names)
    (cert : X509) (is_leaf : bool) (error : verify_error)
    : bool * x509_constraints_names * verify_error :=
  match extract_altnames (altname cert) names is_leaf is_leaf with
  | inl (e, names) => (false, names, e)
  | inr (names, include_cn, include_email) =>
    let i := Z.of_nat (List.length (altname cert) + 1) in
    let subject := subject_name cert in
    let fuel := S (List.length (entries subject)) in
    if 0 <? List.length (entries subject) then
      if modified subject && (i2d_ret subject <? 0)%Z
      then (false, names, X509_V_ERR_OUT_OF_MEM)
      else
        let vname :=
          {| type := GEN_DIRNAME; af := 0; name := None; local := None;
             der := firstn (canon_enclen subject) (buffer (canon_enc subject));
             der_len := canon_enclen subject;
             address := address x509_constraints_name_new |} in
        let names := x509_constraints_names_add names vname in
        let emails :=
          if include_email then extract_subject_emails fuel subject i names
          else inr (names, i) in
        match emails with
        | inl (e, names) => (false, names, e)
        | inr (names, i) =>
          let cns :=
            if include_cn then extract_subject_cns fuel subject i names
            else inr names in
          match cns with
          | inl (e, names) => (false, names, e)
          | inr names => (true, names, error)
          end
        end
    else (true, names, error)
  end.

(** [x509_constraints_validate (constraint, name, &error)]: the return
    value, the record behind [name] and [*error] afterwards. *)
Definition x509_constraints_validate (constraint : GENERAL_NAME)
    (nm : x509_constraints_name) (error : verify_error)
    : bool * x509_constraints_name * verify_error :=
  let err := (false, nm, X509_V_ERR_UNSUPPORTED_CONSTRAINT_SYNTAX) in
  let '(name_type, bytes, len) :=
    x509_constraints_general_to_bytes constraint in
  if (name_type =? GEN_DIRNAME)%Z then
    match bytes with
    | None => (false, nm, X509_V_ERR_OUT_OF_MEM)
    | Some b =>
      if len =? 0 then err
      else (true,
            {| type := GEN_DIRNAME; af := af nm; name := name nm;
               local := local nm; der := firstn len b; der_len := len;
               address := address nm |}, error)
    end
  else if (name_type =? GEN_DNS)%Z then
    if negb (x509_constraints_valid_domain_constraint (buffer bytes) len)
    then err
    else (true,
          {| type := GEN_DNS; af := af nm;
             name := Some (strdup (buffer bytes)); local := local nm;
             der := der nm; der_len := der_len nm;
             address := address nm |}, error)
  else if (name_type =? GEN_EMAIL)%Z then
    if memchr_found (buffer bytes) "@" len then
      match x509_constraints_parse_mailbox bytes len nm with
      | (false, _) => err
      | (true, nm) => (true, with_type nm GEN_EMAIL, error)
      end
    else if negb (x509_constraints_valid_domain_constraint (buffer bytes) len)
    then err
    else (true,
          {| type := GEN_EMAIL; af := af nm;
             name := Some (strdup (buffer bytes)); local := local nm;
             der := der nm; der_len := der_len nm;
             address := address nm |}, error)
  else if (name_type =? GEN_IPADD)%Z then
    (* Constraints are ip then mask *)
    if (len =? 8) || (len =? 32) then
      (true,
       {| type := GEN_IPADD;
          af := if len =? 8 then AF_INET else AF_INET6;
          name := name nm; local := local nm;
          der := der nm; der_len := der_len nm;
          address := memcpy (address nm) (buffer bytes) len |}, error)
    else err
  else if (name_type =? GEN_URI)%Z then
    if negb (x509_constraints_valid_domain_constraint (buffer bytes) len)
    then err
    else (true,
          {| type := GEN_URI; af := af nm;
             name := Some (strdup (buffer bytes)); local := local nm;
             der := der nm; der_len := der_len nm;
             address := address nm |}, error)
  else (true, nm, error).

(** One of the two loops of [x509_constraints_extract_constraints]. *)
Fixpoint extract_subtrees (subtrees : list GENERAL_SUBTREE)
    (names : x509_constraints_names) (error : verify_error)
    : bool * x509_constraints_names * verify_error :=
  match subtrees with
  | [] => (true, names, error)
  | subtree :: rest =>
    match minimum subtree, maximum subtree with
    | None, None =>
      match x509_constraints_validate (base subtree)
              x509_constraints_name_new error with
      | (false, _, e) => (false, names, e)
      | (true, vname, e) =>
        if (type vname =? 0)%Z then extract_subtrees rest names e
        else extract_subtrees rest (x509_constraints_names_add names vname) e
      end
    | _, _ => (false, names, X509_V_ERR_SUBTREE_MINMAX)
    end
  end.

(** [x509_constraints_extract_constraints]: the return value, the
    permitted and excluded names and [*error] afterwards. *)
Definition x509_constraints_extract_constraints (cert : X509)
    (permitted excluded : x509_constraints_names) (error : verify_error)
    : bool * x509_constraints_names * x509_constraints_names * verify_error :=
  match nc cert with
  | None => (true, permitted, excluded, error)
  | Some nc =>
    match extract_subtrees (permittedSubtrees nc) permitted error with
    | (false, permitted, e) => (false, permitted, excluded, e)
    | (true, permitted, e) =>
      match extract_subtrees (excludedSubtrees nc) excluded e with
      | (false, excluded, e) => (false, permitted, excluded, e)
      | (true, excluded, e) => (true, permitted, excluded, e)
      end
    end
  end.

(** ** The chain walk *)

(** The exit through the label [err]. *)
Definition chain_err (verify_err : verify_error) (i : nat)
    (log : list chain_call) : option chain_result :=
  Some {| ret := false; error := verify_err; depth := Z.of_nat i;
          calls := log |}.

(** The for loop of [x509_constraints_chain] from index [i] on, over
    the certificates that are left; [None] when the check reads through
    a NULL pointer. *)
Fixpoint chain_loop (certs : list (option X509)) (i : nat)
    (names : x509_constraints_names) (constraints_count : nat)
    (verify_err : verify_error) (error : verify_error) (depth : Z)
    (log : list chain_call) : option chain_result :=
  match certs with
  | [] => Some {| ret := true; error := error; depth := depth; calls := log |}
  | None :: _ => chain_err verify_err i log
  | Some cert :: rest =>
    let after_constraints :=
      match nc cert with
      | None => Some (inr (constraints_count, verify_err, log))
      | Some _ =>
        let log := log ++ [call_extract_constraints i] in
        match x509_constraints_extract_constraints cert
                x509_constraints_names_new x509_constraints_names_new
                verify_err with
        | (false, _, _, e) => Some (inl (e, log))
        | (true, permitted, excluded, e) =>
          let constraints_count :=
            constraints_count + List.length permitted
            + List.length excluded in
          if X509_VERIFY_MAX_CHAIN_CONSTRAINTS <? constraints_count
          then Some (inl (X509_V_ERR_OUT_OF_MEM, log))
          else
            let log := log ++ [call_check i] in
            match x509_constraints_check names permitted excluded e with
            | None => None
            | Some (false, e) => Some (inl (e, log))
            | Some (true, e) => Some (inr (constraints_count, e, log))
            end
        end
      end in
    match after_constraints with
    | None => None
    | Some (inl (e, log)) => chain_err e i log
    | Some (inr (constraints_count, verify_err, log)) =>
      let log := log ++ [call_extract_names i] in
      match x509_constraints_extract_names names cert false verify_err with
      | (false, _, e) => chain_err e i log
      | (true, names, e) =>
        if X509_VERIFY_MAX_CHAIN_NAMES <? List.length names
        then chain_err X509_V_ERR_OUT_OF_MEM i log
        else chain_loop rest (S i) names constraints_count e error depth log
      end
    end
  end.

(** [x509_constraints_chain (chain, &error, &depth)]: [chain] may be
    NULL and may hold NULL entries; [error] and [depth] are the cells
    as the caller set them. *)
Definition x509_constraints_chain (chain : option (list (option X509)))
    (error : verify_error) (depth : Z) : option chain_result :=
  let verify_err := X509_V_ERR_UNSPECIFIED in
  match chain with
  | None => chain_err verify_err 0 []
  | Some certs =>
    let chain_length := List.length certs in
    if chain_length =? 0 then chain_err verify_err 0 []
    else if chain_length =? 1
    then Some {| ret := true; error := error; depth := depth; calls := [] |}
    else
      match certs with
      | [] | None :: _ => chain_err verify_err 0 []
      | Some cert :: rest =>
        let log := [call_extract_names 0] in
        match x509_constraints_extract_names x509_constraints_names_new
                cert true verify_err with
        | (false, _, e) => chain_err e 0 log
        | (true, names, e) => chain_loop rest 1 names 0 e error depth log
        end
      end
  end.

End Libc.

(** ** A model of inet_pton *)

Definition xdigit_val (c : ascii) : option nat :=
  if in_range "0" "9" c then Some (code c - 48)
  else if in_range "a" "f" c then Some (code c - 87)
  else if in_range "A" "F" c then Some (code c - 55)
  else None.

(** Dotted quad: four decimal octets, each at most 255. *)
Fixpoint inet_pton4_loop (src : list ascii) (saw_digit : bool)
    (octets cur : nat) : bool :=
  match src with
  | [] => negb (octets <? 4)
  | ch :: src' =>
    if isdigit ch then
      let new := cur * 10 + (code ch - 48) in
      if 255 <? new then false
      else if saw_digit then inet_pton4_loop src' true octets new
      else if 4 <? octets + 1 then false
      else inet_pton4_loop src' true (octets + 1) new
    else if (ch =? ".")%char && saw_digit then
      if octets =? 4 then false else inet_pton4_loop src' false octets 0
    else false
  end.

Definition inet_pton4 (src : list ascii) : bool :=
  inet_pton4_loop src false 0 0.

(** What is left to do once the text is consumed: [tp] bytes are
    written, [colonp] marks a "::". *)
Definition inet_pton6_finish (tp : nat) (colonp : option nat)
    (saw_xdigit : bool) : bool :=
  if saw_xdigit && (16 <? tp + 2) then false
  else
    let tp := if saw_xdigit then tp + 2 else tp in
    match colonp with
    | Some _ => negb (tp =? 16)
    | None => tp =? 16
    end.

(** Colon separated groups of up to four hex digits, one "::" at most,
    a dotted quad allowed as the tail. *)
Fixpoint inet_pton6_loop (src curtok : list ascii) (tp : nat)
    (colonp : option nat) (saw_xdigit : bool) (count_xdigit val : nat)
    : bool :=
  match src with
  | [] => inet_pton6_finish tp colonp saw_xdigit
  | ch :: src' =>
    match xdigit_val ch with
    | Some d =>
      if 4 <=? count_xdigit then false
      else
        let val := val * 16 + d in
        if 16 * 16 * 16 * 16 <=? val then false
        else inet_pton6_loop src' curtok tp colonp true (S count_xdigit) val
    | None =>
      if (ch =? ":")%char then
        if negb saw_xdigit then
          match colonp with
          | Some _ => false
          | None => inet_pton6_loop src' src' tp (Some tp) false
                      count_xdigit val
          end
        else
          match src' with
          | [] => false
          | _ :: _ =>
            if 16 <? tp + 2 then false
            else inet_pton6_loop src' src' (tp + 2) colonp false 0 0
          end
      else if (ch =? ".")%char && (tp + 4 <=? 16) && inet_pton4 curtok
      then inet_pton6_finish (tp + 4) colonp false
      else false
    end
  end.

Definition inet_pton6 (src : list ascii) : bool :=
  match src with
  | ch :: src' =>
    if (ch =? ":")%char then
      (* Leading :: requires some special handling. *)
      match src' with
      | ch' :: _ =>
        if (ch' =? ":")%char then inet_pton6_loop src' src' 0 None false 0 0
        else false
      | [] => false
      end
    else inet_pton6_loop src src 0 None false 0 0
  | [] => inet_pton6_loop src src 0 None false 0 0
  end.

(** Modelled from the spec: inet_pton is libc's and not part of the
    sources; the spec only says that a host is rejected when it "parses
    as a literal IPv4 or IPv6 address".  This model accepts the textual
    forms of inet_pton(3) and serves the evaluated examples; the general
    theorems hold for every [inet_pton]. *)
Definition inet_pton_model (af : Z) (src : list ascii) : Z :=
  if (af =? AF_INET)%Z then (if inet_pton4 src then 1 else 0)%Z
  else if (af =? AF_INET6)%Z then (if inet_pton6 src then 1 else 0)%Z
  else (-1)%Z.

(** ** Vocabulary of the statements *)

(** A byte string given as text. *)
Definition bytes (s : string) : list ascii := list_ascii_of_string s.

(** Equality up to the case of ASCII letters. *)
Definition ci_eq (s t : list ascii) : Prop := map tolower s = map tolower t.

(** The content of a C string: no NUL among its characters. *)
Definition no_nul (s : list ascii) : Prop := Forall (fun c => c <> NUL) s.

(** The bytes that end the host in a URI. *)
Definition uri_terminator (c : ascii) : bool :=
  (c =? ":")%char || (c =? "/")%char || (c =? "?")%char || (c =? "#")%char.

(** The bytes that end the authority in a URI (RFC 3986, as the comment
    above [x509_constraints_uri_host] has it). *)
Definition authority_end (c : ascii) : bool :=
  (c =? "/")%char || (c =? "?")%char || (c =? "#")%char.

(** A byte the scan for the host steps over: not '@', not an end. *)
Definition host_char (c : ascii) : bool :=
  negb (c =? "@")%char && negb (uri_terminator c).

(** A byte of the userinfo or of the host, as the scan accepts it. *)
Definition scanned (c : ascii) : Prop :=
  isascii c = true /\ host_char c = true.

(** The text after the host: nothing, or it starts with an end byte. *)
Definition host_ends (tail : list ascii) : Prop :=
  tail = [] \/ exists t tl, tail = t :: tl /\ uri_terminator t = true.

Fixpoint take_until (stop : ascii -> bool) (s : list ascii) : list ascii :=
  match s with
  | [] => []
  | c :: s' => if stop c then [] else c :: take_until stop s'
  end.

(** What follows the first "//". *)
Fixpoint after_slashes (uri : list ascii) : option (list ascii) :=
  match uri with
  | c1 :: ((c2 :: rest) as uri') =>
    if (c1 =? "/")%char && (c2 =? "/")%char then Some rest
    else after_slashes uri'
  | _ => None
  end.

(** The authority of a URI: what follows the first "//", up to the next
    '/', '?' or '#' or to the end. *)
Definition authority_of (rest : list ascii) : list ascii :=
  take_until authority_end rest.

Definition uri_authority (uri : list ascii) : option (list ascii) :=
  match after_slashes uri with
  | Some rest => Some (authority_of rest)
  | None => None
  end.

(** [split_at c s]: the text before and the text after the first [c]. *)
Fixpoint split_at (c : ascii) (s : list ascii)
    : option (list ascii * list ascii) :=
  match s with
  | [] => None
  | x :: s' =>
    if (x =? c)%char then Some ([], s')
    else
      match split_at c s' with
      | Some (a, b) => Some (x :: a, b)
      | None => None
      end
  end.

(** The optional userinfo of an authority, with its '@'. *)
Definition userinfo_prefix (authority : list ascii) : list ascii :=
  match split_at "@" authority with
  | Some (u, _) => u ++ ["@"%char]
  | None => []
  end.

(** The host of an authority: what follows the userinfo, up to the
    first ':', '/', '?' or '#' or to the end. *)
Definition host_substring (authority : list ascii) : list ascii :=
  take_until uri_terminator
    match split_at "@" authority with
    | Some (_, r) => r
    | None => authority
    end.

(** No '@' follows the first ':' of an authority. *)
Definition no_at_behind_colon (authority : list ascii) : Prop :=
  match split_at ":" authority with
  | Some (_, b) => ~ In "@"%char b
  | None => True
  end.

Definition count_char (c : ascii) (s : list ascii) : nat :=
  List.length (filter (fun x => (x =? c)%char) s).

(** [matches nm c]: the matcher returns 1. *)
Definition matches (nm c : x509_constraints_name) : Prop :=
  x509_constraints_match nm c = Some true.

(** The rule of the check for one name: no excluded entry matches, and
    if a permitted entry of the name's type exists, one matches. *)
Definition name_passes (permitted excluded : x509_constraints_names)
    (nm : x509_constraints_name) : Prop :=
  (forall x, In x excluded -> ~ matches nm x) /\
  ((exists p, In p permitted /\ type p = type nm) ->
   exists p, In p permitted /\ matches nm p).

(** The pointers the matcher reads are set: a name of a string type has
    its [name], an email name its [local] too; a constraint of a string
    type has its [name]. *)
Definition string_type (t : Z) : bool :=
  (t =? GEN_DNS)%Z || (t =? GEN_URI)%Z || (t =? GEN_EMAIL)%Z.

Definition name_set (nm : x509_constraints_name) : Prop :=
  (string_type (type nm) = true -> name nm <> None) /\
  (type nm = GEN_EMAIL -> local nm <> None).

Definition constraint_set (c : x509_constraints_name) : Prop :=
  string_type (type c) = true -> name c <> None.

(** Names for the examples. *)
Definition dns_name (s : string) : x509_constraints_name :=
  {| type := GEN_DNS; af := 0; name := Some (bytes s); local := None;
     der := []; der_len := 0; address := repeat NUL 32 |}.

Definition email_name (l d : string) : x509_constraints_name :=
  {| type := GEN_EMAIL; af := 0; name := Some (bytes d);
     local := Some (bytes l);
     der := []; der_len := 0; address := repeat NUL 32 |}.

(** Certificates for the examples: a subject without attributes, the
    given alternative names and name constraints. *)
Definition ia5 (s : string) : ASN1_STRING :=
  {| length_ := List.length (bytes s); data := bytes s |}.

Definition empty_subject : X509_NAME :=
  {| entries := []; modified := false; i2d_ret := 0; canon_enc := None;
     canon_enclen := 0 |}.

Definition cert_with (alt : list GENERAL_NAME) (c : option NAME_CONSTRAINTS)
    : X509 :=
  {| altname := alt; subject_name := empty_subject; nc := c |}.

Definition subtree_of (gn : GENERAL_NAME) : GENERAL_SUBTREE :=
  {| base := gn; minimum := None; maximum := None |}.

(** ** Vocabulary of the further statements *)

(** The bytes of a domain: alphanumeric, '-', '.', '_' or '*'. *)
Definition domain_char (c : ascii) : bool :=
  isalnum c || (c =? "-")%char || (c =? ".")%char || (c =? "_")%char
  || (c =? "*")%char.

(** The shape of a domain of [len] bytes at [name]: 255 bytes at most;
    every byte a domain byte; a '*' only as the first byte; a '-' not
    first, not last and not behind a '.'; a '.' not last and behind
    neither a '.' nor a '-'; a '.' among any 64 bytes in a row, so that
    no component is longer than 63 bytes. *)
Definition domain_shape (name : list ascii) (len : nat) : Prop :=
  len <= 255 /\
  (forall j, j < len ->
     domain_char (byte_at name j) = true /\
     (byte_at name j = "*"%char -> j = 0) /\
     (byte_at name j = "-"%char ->
      0 < j /\ j <> len - 1 /\ byte_at name (j - 1) <> "."%char) /\
     (byte_at name j = "."%char ->
      j <> len - 1 /\
      (0 < j -> byte_at name (j - 1) <> "."%char
                /\ byte_at name (j - 1) <> "-"%char))) /\
  (forall k, k + 64 <= len ->
     exists j, k <= j < k + 64 /\ byte_at name j = "."%char).

(** A subtree without [minimum] and [maximum]. *)
Definition no_minmax (s : GENERAL_SUBTREE) : Prop :=
  minimum s = None /\ maximum s = None.

(** The names [x509_constraints_chain] has collected once it has gone
    over [certs], the first of them as the leaf if [is_leaf] is set. *)
Fixpoint chain_names (inet_pton : Z -> list ascii -> Z)
    (certs : list (option X509)) (is_leaf : bool)
    (names : x509_constraints_names) : x509_constraints_names :=
  match certs with
  | Some cert :: rest =>
    chain_names inet_pton rest false
      (snd (fst (x509_constraints_extract_names inet_pton names cert is_leaf
                   X509_V_ERR_UNSPECIFIED)))
  | _ => names
  end.

(** Address and directory names for the examples, by the values of
    their bytes. *)
Definition ip_name (family : Z) (addr : list nat) : x509_constraints_name :=
  {| type := GEN_IPADD; af := family; name := None; local := None;
     der := []; der_len := 0; address := map ascii_of_nat addr |}.

Definition dir_name (enc : list nat) : x509_constraints_name :=
  {| type := GEN_DIRNAME; af := 0; name := None; local := None;
     der := map ascii_of_nat enc; der_len := List.length enc;
     address := repeat NUL 32 |}.

(** The examples: the address 10.1.2.3 and the network 10.0.0.0 with
    mask 255.0.0.0; a leaf for "www.example.com" and a CA with the given
    permitted and excluded subtrees. *)
Definition example_address : x509_constraints_name :=
  ip_name AF_INET [10; 1; 2; 3].

Definition example_network : x509_constraints_name :=
  ip_name AF_INET [10; 0; 0; 0; 255; 0; 0; 0].

Definition example_leaf : X509 :=
  cert_with [dNSName (ia5 "www.example.com")] None.

Definition example_ca (permitted excluded : list GENERAL_NAME) : X509 :=
  cert_with [] (Some {| permittedSubtrees := map subtree_of permitted;
                        excludedSubtrees := map subtree_of excluded |}).

(** A constraint of type [t] that holds a domain only. *)
Definition domain_constraint (t : Z) (s : string) : x509_constraints_name :=
  {| type := t; af := 0; name := Some (bytes s); local := None;
     der := []; der_len := 0; address := repeat NUL 32 |}.

End X509.

(* ===================================================================== *)
(** * Part II, continued: ssl_seclevel.c *)
(* ===================================================================== *)

Module Seclevel.
Local Open Scope Z_scope.

(** The fields of an [SSL_CIPHER] that the file reads. *)
Record SSL_CIPHER : Type := mk_cipher {
  algorithm_mkey : Z;
  algorithm_auth : Z;
  algorithm_enc : Z;
  algorithm_ssl : Z
}.

Section Ssl.

(** Constants of ssl_locl.h, ssl.h and tls1.h, and [ssl_tls_version] of
    ssl_versions.c; they are not part of the sources at hand. *)
Variable SSL_aNULL SSL_RC4 SSL_kDHE SSL_kECDHE SSL_TLSV1_3 : Z.
Variable TLS1_VERSION TLS1_1_VERSION TLS1_2_VERSION : Z.
Variable SSL_SECOP_CIPHER_SUPPORTED SSL_SECOP_CIPHER_SHARED
         SSL_SECOP_CIPHER_CHECK SSL_SECOP_VERSION SSL_SECOP_COMPRESSION
         SSL_SECOP_TICKET SSL_SECOP_TMP_DH : Z.
Variable ssl_tls_version : Z -> Z.

(** An [SSL_CTX *] or [SSL *] is NULL or points to an object, given by
    the security level that [SSL_CTX_get_security_level] or
    [SSL_get_security_level] reads from it.  An output pointer is NULL or
    points to a cell, given by its value.  [None] as a result is a read
    through a NULL pointer. *)

(** [ssl_security_normalize_level]: the return value and [*out_level]. *)
Definition ssl_security_normalize_level (ctx ssl : option Z)
    : option (Z * Z) :=
  match (match ctx with Some l => Some l | None => ssl end) with
  | None => None
  | Some security_level =>
    let security_level := if security_level <? 0 then 0 else security_level in
    let security_level := if 5 <? security_level then 5 else security_level in
    Some (1, security_level)
  end.

(** [ssl_security_level_to_minimum_bits]: the return value and
    [*out_minimum_bits] afterwards. *)
Definition ssl_security_level_to_minimum_bits (security_level : Z)
    (out_minimum_bits : Z) : Z * Z :=
  if security_level <? 0 then (0, out_minimum_bits)
  else if security_level =? 0 then (1, 0)
  else if security_level =? 1 then (1, 80)
  else if security_level =? 2 then (1, 112)
  else if security_level =? 3 then (1, 128)
  else if security_level =? 4 then (1, 192)
  else if 5 <=? security_level then (1, 256)
  else (1, out_minimum_bits).

(** [ssl_security_level_and_minimum_bits]: the return value and the two
    cells afterwards. *)
Definition ssl_security_level_and_minimum_bits (ctx ssl : option Z)
    (out_level out_minimum_bits : option Z)
    : option (Z * option Z * option Z) :=
  match ssl_security_normalize_level ctx ssl with
  | None => None
  | Some (r, security_level) =>
    if r =? 0 then Some (0, out_level, out_minimum_bits)
    else
      let '(r, minimum_bits) :=
        ssl_security_level_to_minimum_bits security_level 0 in
      if r =? 0 then Some (0, out_level, out_minimum_bits)
      else
        Some (1,
              match out_level with
              | Some _ => Some security_level
              | None => None
              end,
              match out_minimum_bits with
              | Some _ => Some minimum_bits
              | None => None
              end)
  end.

(** The value of a local that was passed by address. *)
Definition cell (c : option Z) : Z :=
  match c with Some v => v | None => 0 end.

Definition of_bool (b : bool) : Z := if b then 1 else 0.

(** [ssl_security_secop_cipher]; [arg] may be NULL.  The two locals are
    written before they are read. *)
Definition ssl_security_secop_cipher (ctx ssl : option Z) (bits : Z)
    (arg : option SSL_CIPHER) : option Z :=
  match ssl_security_level_and_minimum_bits ctx ssl (Some 0) (Some 0) with
  | None => None
  | Some (r, security_level, minimum_bits) =>
    let security_level := cell security_level in
    let minimum_bits := cell minimum_bits in
    if r =? 0 then Some 0
    else if security_level <=? 0 then Some 1
    else if bits <? minimum_bits then Some 0
    else
      match arg with
      | None => None
      | Some cipher =>
        (* No unauthenticated ciphersuites. *)
        if negb (Z.land (algorithm_auth cipher) SSL_aNULL =? 0) then Some 0
        else if security_level <=? 1 then Some 1
        else if algorithm_enc cipher =? SSL_RC4 then Some 0
        else if security_level <=? 2 then Some 1
        (* Security level >= 3 requires a cipher with forward secrecy. *)
        else if (Z.land (algorithm_mkey cipher) (Z.lor SSL_kDHE SSL_kECDHE)
                 =? 0)
                && negb (algorithm_ssl cipher =? SSL_TLSV1_3) then Some 0
        else Some 1
      end
  end.

Definition ssl_security_secop_version (ctx ssl : option Z) (version : Z)
    : option Z :=
  match ssl_security_level_and_minimum_bits ctx ssl (Some 0) None with
  | None => None
  | Some (r, security_level, _) =>
    let security_level := cell security_level in
    if r =? 0 then Some 0
    else
      let min_version := TLS1_2_VERSION in
      let min_version :=
        if security_level <? 4 then TLS1_1_VERSION else min_version in
      let min_version :=
        if security_level <? 3 then TLS1_VERSION else min_version in
      Some (of_bool (min_version <=? ssl_tls_version version))
  end.

Definition ssl_security_secop_compression (ctx ssl : option Z) : option Z :=
  Some 0.

Definition ssl_security_secop_tickets (ctx ssl : option Z) : option Z :=
  match ssl_security_level_and_minimum_bits ctx ssl (Some 0) None with
  | None => None
  | Some (r, security_level, _) =>
    if r =? 0 then Some 0
    else Some (of_bool (cell security_level <? 3))
  end.

Definition ssl_security_secop_tmp_dh (ctx ssl : option Z) (bits : Z)
    : option Z :=
  match ssl_security_level_and_minimum_bits ctx ssl (Some 0) (Some 0) with
  | None => None
  | Some (r, security_level, minimum_bits) =>
    if r =? 0 then Some 0
    (* Disallow DHE keys weaker than 1024 bits even at security level 0. *)
    else if (cell security_level <=? 0) && (bits <? 80) then Some 0
    else Some (of_bool (cell minimum_bits <=? bits))
  end.

Definition ssl_security_secop_default (ctx ssl : option Z) (bits : Z)
    : option Z :=
  match ssl_security_level_and_minimum_bits ctx ssl None (Some 0) with
  | None => None
  | Some (r, _, minimum_bits) =>
    if r =? 0 then Some 0
    else Some (of_bool (cell minimum_bits <=? bits))
  end.

(** [ssl_security_default_cb]; [ex_data] is not read. *)
Definition ssl_security_default_cb (ssl ctx : option Z) (op bits version : Z)
    (cipher : option SSL_CIPHER) : option Z :=
  if (op =? SSL_SECOP_CIPHER_SUPPORTED) || (op =? SSL_SECOP_CIPHER_SHARED)
     || (op =? SSL_SECOP_CIPHER_CHECK)
  then ssl_security_secop_cipher ctx ssl bits cipher
  else if op =? SSL_SECOP_VERSION
  then ssl_security_secop_version ctx ssl version
  else if op =? SSL_SECOP_COMPRESSION
  then ssl_security_secop_compression ctx ssl
  else if op =? SSL_SECOP_TICKET then ssl_security_secop_tickets ctx ssl
  else if op =? SSL_SECOP_TMP_DH then ssl_security_secop_tmp_dh ctx ssl bits
  else ssl_security_secop_default ctx ssl bits.

(** [ssl_security_dummy_cb]. *)
Definition ssl_security_dummy_cb (ssl ctx : option Z) (op bits version : Z)
    (cipher : option SSL_CIPHER) : option Z :=
  Some 1.

End Ssl.

(** ** Vocabulary of the statements *)

(** The level the callbacks work with: between 0 and 5. *)
Definition clamp_level (l : Z) : Z := Z.max 0 (Z.min 5 l).

(** The bits of security a level asks for. *)
Definition level_bits (level : Z) : Z :=
  match level with
  | 0 => 0 | 1 => 80 | 2 => 112 | 3 => 128 | 4 => 192 | _ => 256
  end.

(** A cipher for the examples, by the bits of its four fields. *)
Definition example_cipher : SSL_CIPHER :=
  {| algorithm_mkey := 128; algorithm_auth := 1; algorithm_enc := 64;
     algorithm_ssl := 4 |}.

End Seclevel.
(* ===================================================================== *)
(** * Part III: properties of the word primitives *)
(* ===================================================================== *)

Module BnFacts.
Import Bn.
Local Open Scope Z_scope.

Section WordFacts.

Variable BN_BITS4 : Z.
Hypothesis BN_BITS4_pos : 0 < BN_BITS4.

#[local] Abbreviation W := (BN_BITS2 BN_BITS4).
#[local] Abbreviation word := (word BN_BITS4).
#[local] Abbreviation ulong := (ulong BN_BITS4).
#[local] Abbreviation top := (top BN_BITS4).

Lemma W_pos : 1 < W.
Proof. unfold BN_BITS2; lia. Qed.

Lemma ulong_mod x : ulong x = x mod 2 ^ W.
Proof.
  unfold Bn.ulong, BN_MASK2. apply Z.land_ones. pose proof W_pos; lia.
Qed.

Lemma pow_W_pos : 0 < 2 ^ W.
Proof. apply Z.pow_pos_nonneg; pose proof W_pos; lia. Qed.

Lemma pow_W_half : 2 ^ W = 2 * 2 ^ (W - 1).
Proof.
  rewrite <- Z.pow_succ_r by (pose proof W_pos; lia).
  f_equal; lia.
Qed.

Lemma pow_W_four : 4 <= 2 ^ W.
Proof.
  rewrite pow_W_half.
  assert (1 < 2 ^ (W - 1)); [|lia].
  apply Z.pow_gt_1; pose proof W_pos; lia.
Qed.

Lemma pow_W_square : 2 ^ W = 2 ^ BN_BITS4 * 2 ^ BN_BITS4.
Proof. unfold BN_BITS2. rewrite <- Z.pow_add_r by lia. f_equal; lia. Qed.

Lemma word_ulong x : word (ulong x).
Proof. rewrite ulong_mod. apply Z.mod_pos_bound, pow_W_pos. Qed.

Lemma ulong_word a : word a -> ulong a = a.
Proof. intros Ha. rewrite ulong_mod. apply Z.mod_small, Ha. Qed.

Lemma word_land_r a b : word b -> word (Z.land a b).
Proof.
  intros Hb. rewrite <- (ulong_word b Hb). unfold Bn.ulong.
  rewrite Z.land_assoc. apply word_ulong.
Qed.

Lemma word_land_l a b : word a -> word (Z.land a b).
Proof. rewrite Z.land_comm. apply word_land_r. Qed.

Lemma word_lor a b : word a -> word b -> word (Z.lor a b).
Proof.
  intros Ha Hb. rewrite <- (ulong_word a Ha), <- (ulong_word b Hb).
  unfold Bn.ulong. rewrite <- Z.land_lor_distr_l. apply word_ulong.
Qed.

Lemma top_div a : word a -> top a = a / 2 ^ (W - 1).
Proof.
  intros [H0 H1]. unfold Bn.top.
  rewrite Z.testbit_spec' by (pose proof W_pos; lia).
  apply Z.mod_small. split.
  - apply Z.div_pos; [lia|]. apply Z.pow_pos_nonneg; pose proof W_pos; lia.
  - apply Z.div_lt_upper_bound.
    + apply Z.pow_pos_nonneg; pose proof W_pos; lia.
    + rewrite pow_W_half in H1. lia.
Qed.

Lemma shr_top a : word a -> w_shr a (W - 1) = top a.
Proof.
  intros Ha. unfold w_shr. rewrite Z.shiftr_div_pow2 by (pose proof W_pos; lia).
  symmetry. now apply top_div.
Qed.

Lemma word_split a :
  word a -> exists lo, a = 2 ^ (W - 1) * top a + lo /\ 0 <= lo < 2 ^ (W - 1).
Proof.
  intros Ha. exists (a mod 2 ^ (W - 1)). rewrite (top_div a Ha). split.
  - apply Z.div_mod. apply Z.pow_nonzero; pose proof W_pos; lia.
  - apply Z.mod_pos_bound. apply Z.pow_pos_nonneg; pose proof W_pos; lia.
Qed.

Lemma top_not a : top (w_not BN_BITS4 a) = 1 - top a.
Proof.
  unfold Bn.top, w_not, Bn.ulong, BN_MASK2.
  rewrite Z.land_spec, Z.lnot_spec by (pose proof W_pos; lia).
  rewrite Z.ones_spec_low by (pose proof W_pos; lia).
  destruct (Z.testbit a (W - 1)); reflexivity.
Qed.

Lemma top_lor a b : top (Z.lor a b) = Z.max (top a) (top b).
Proof.
  unfold Bn.top. rewrite Z.lor_spec.
  destruct (Z.testbit a (W - 1)), (Z.testbit b (W - 1)); reflexivity.
Qed.

Lemma top_land a b : top (Z.land a b) = Z.min (top a) (top b).
Proof.
  unfold Bn.top. rewrite Z.land_spec.
  destruct (Z.testbit a (W - 1)), (Z.testbit b (W - 1)); reflexivity.
Qed.

Lemma top_01 a : top a = 0 \/ top a = 1.
Proof. unfold Bn.top. destruct (Z.testbit a (W - 1)); auto. Qed.

(** The carry of [bn_addw] computed from top bits is the true carry. *)
Lemma carry_bits a b :
  word a -> word b ->
  w_shr (Z.lor (Z.land (Z.lor a b) (w_not BN_BITS4 (w_add BN_BITS4 a b)))
               (Z.land a b)) (W - 1)
  = (a + b) / 2 ^ W.
Proof.
  intros Ha Hb.
  rewrite shr_top by (apply word_lor; [apply word_land_l, word_lor|apply word_land_l]; assumption).
  rewrite top_lor, !top_land, top_lor, top_not.
  unfold w_add. fold ulong.
  pose proof (word_ulong (a + b)) as Hr.
  destruct (word_split a Ha) as (al & Ea & Hal).
  destruct (word_split b Hb) as (bl & Eb & Hbl).
  destruct (word_split _ Hr) as (rl & Er & Hrl).
  rewrite ulong_mod in Er.
  pose proof (Z.div_mod (a + b) (2 ^ W) ltac:(pose proof pow_W_pos; lia)) as Hdm.
  rewrite <- ulong_mod in Er, Hdm.
  set (q := (a + b) / 2 ^ W) in *.
  assert (Hq : q = 0 \/ q = 1).
  { unfold word in *. 
    assert (0 <= q < 2); [|lia]. split.
    - apply Z.div_pos; [lia | apply pow_W_pos].
    - apply Z.div_lt_upper_bound; [apply pow_W_pos | lia]. }
  rewrite pow_W_half in Hdm.
  destruct (top_01 a) as [Ta|Ta], (top_01 b) as [Tb|Tb],
    (top_01 (ulong (a + b))) as [Tr|Tr], Hq as [Hq|Hq];
    rewrite ?Ta, ?Tb, ?Tr, ?Hq in *; simpl; lia.
Qed.


(** The borrow of [bn_subw] computed from top bits is the true borrow. *)
Lemma borrow_bits a b :
  word a -> word b ->
  w_shr (Z.land (Z.lor (w_sub BN_BITS4 a b) (Z.land b (w_not BN_BITS4 a)))
                (Z.lor b (w_not BN_BITS4 a))) (W - 1)
  = - ((a - b) / 2 ^ W).
Proof.
  intros Ha Hb.
  rewrite shr_top
    by (apply word_land_l, word_lor;
        [apply word_ulong | apply word_land_l; assumption]).
  rewrite top_land, !top_lor, top_land, top_not.
  unfold w_sub. fold ulong.
  pose proof (word_ulong (a - b)) as Hr.
  destruct (word_split a Ha) as (al & Ea & Hal).
  destruct (word_split b Hb) as (bl & Eb & Hbl).
  destruct (word_split _ Hr) as (rl & Er & Hrl).
  pose proof (Z.div_mod (a - b) (2 ^ W) ltac:(pose proof pow_W_pos; lia)) as Hdm.
  rewrite <- ulong_mod in Hdm.
  set (q := (a - b) / 2 ^ W) in *.
  assert (Hq : q = 0 \/ q = -1).
  { unfold word in *.
    assert (-1 <= q < 1); [|lia]. split.
    - apply Z.div_le_lower_bound; [apply pow_W_pos | lia].
    - apply Z.div_lt_upper_bound; [apply pow_W_pos | lia]. }
  rewrite pow_W_half in Hdm.
  destruct (top_01 a) as [Ta|Ta], (top_01 b) as [Tb|Tb],
    (top_01 (ulong (a - b))) as [Tr|Tr], Hq as [Hq|Hq];
    rewrite ?Ta, ?Tb, ?Tr, ?Hq in *; simpl; lia.
Qed.

Lemma ullong_small x : 0 <= x < 2 ^ W * 2 ^ W -> ullong BN_BITS4 x = x.
Proof.
  intros Hx. unfold ullong. rewrite Z.land_ones by (pose proof W_pos; lia).
  apply Z.mod_small.
  replace (2 * W) with (W + W) by lia.
  rewrite Z.pow_add_r by (pose proof W_pos; lia). exact Hx.
Qed.

Lemma word_ullong a : word a -> ullong BN_BITS4 a = a.
Proof.
  intros [H0 H1]. apply ullong_small. pose proof pow_W_pos. nia.
Qed.

(** Splitting a double word into (high, low), as both [BN_LLONG]
    variants do. *)
Lemma hilo_split r :
  0 <= r < 2 ^ W * 2 ^ W ->
  (ulong (Z.shiftr r W), ulong (Z.land r (BN_MASK2 BN_BITS4)))
  = (r / 2 ^ W, r mod 2 ^ W).
Proof.
  intros Hr. pose proof pow_W_pos as HW.
  rewrite Z.shiftr_div_pow2 by (pose proof W_pos; lia).
  f_equal.
  - apply ulong_word. split.
    + apply Z.div_pos; lia.
    + apply Z.div_lt_upper_bound; lia.
  - fold (ulong r). rewrite (ulong_word (ulong r)) by apply word_ulong.
    apply ulong_mod.
Qed.

#[local] Abbreviation B := (2 ^ BN_BITS4).

Lemma B_pos : 0 < B.
Proof. apply Z.pow_pos_nonneg; lia. Qed.

Lemma half_hi a : word a -> w_shr a BN_BITS4 = a / B /\ 0 <= a / B < B.
Proof.
  intros [H0 H1]. pose proof B_pos. rewrite pow_W_square in H1.
  unfold w_shr. rewrite Z.shiftr_div_pow2 by lia. split; [reflexivity|]. split.
  - apply Z.div_pos; lia.
  - apply Z.div_lt_upper_bound; lia.
Qed.

Lemma half_lo a : Z.land a (BN_MASK2l BN_BITS4) = a mod B /\ 0 <= a mod B < B.
Proof.
  unfold BN_MASK2l. rewrite Z.land_ones by lia. split; [reflexivity|].
  apply Z.mod_pos_bound, B_pos.
Qed.

Lemma w_mul_half x y :
  0 <= x < B -> 0 <= y < B -> w_mul BN_BITS4 x y = x * y /\ word (x * y).
Proof.
  intros Hx Hy.
  assert (Hw : word (x * y)) by (unfold Bn.word; rewrite pow_W_square; nia).
  split; [apply ulong_word, Hw | exact Hw].
Qed.

Lemma w_add_add x y z :
  w_add BN_BITS4 (ulong (x + y)) z = ulong (x + y + z).
Proof.
  unfold w_add. rewrite !ulong_mod.
  apply Z.add_mod_idemp_l. pose proof pow_W_pos; lia.
Qed.

(** One "partition (x << BN_BITS4) across h:l with carry" step of
    [bn_umul_hilo]. *)
Lemma partition_step h l x :
  word l -> word x ->
  let x' := w_shl BN_BITS4 x BN_BITS4 in
  let l' := w_add BN_BITS4 l x' in
  let c := w_shr (Z.lor (Z.land (Z.lor l x') (w_not BN_BITS4 l')) (Z.land l x'))
                 (W - 1) in
  exists k,
    w_add BN_BITS4 (w_add BN_BITS4 (ulong h) (w_shr x BN_BITS4)) c
      = ulong (h + k)
    /\ 0 <= k /\ word l' /\ k * 2 ^ W + l' = l + x * B.
Proof.
  intros Hl Hx x' l' c. pose proof B_pos as HB. pose proof pow_W_pos as HW.
  assert (Ex' : x' = (x mod B) * B).
  { unfold x', w_shl. rewrite Z.shiftl_mul_pow2 by lia.
    rewrite ulong_mod, pow_W_square.
    apply Z.mul_mod_distr_r; lia. }
  assert (Hx' : word x').
  { unfold x', w_shl. apply word_ulong. }
  assert (Ec : c = (l + x') / 2 ^ W).
  { unfold c, l'. now apply carry_bits. }
  destruct (half_hi x Hx) as [Exh Hxh].
  exists (x / B + (l + x') / 2 ^ W). split; [|split; [|split]].
  - rewrite Ec, Exh.
    replace (w_add BN_BITS4 (ulong h) (x / B)) with (ulong (h + x / B)).
    + rewrite w_add_add. f_equal. lia.
    + unfold w_add. rewrite !ulong_mod. symmetry.
      apply Z.add_mod_idemp_l. lia.
  - assert (0 <= (l + x') / 2 ^ W); [|lia].
    apply Z.div_pos; [|lia]. unfold Bn.word in *; lia.
  - apply word_ulong.
  - unfold l', w_add. rewrite ulong_mod.
    pose proof (Z.div_mod (l + x') (2 ^ W) ltac:(lia)) as Hdm.
    pose proof (Z.div_mod x B ltac:(lia)) as Hxdm.
    rewrite Ex' in *. rewrite pow_W_square in *.
    set (q := (l + x mod B * B) / (B * B)) in *.
    set (r := (l + x mod B * B) mod (B * B)) in *.
    set (xq := x / B) in *. set (xr := x mod B) in *.
    nia.
Qed.

Lemma bn_umul_hilo_ulong_spec a b :
  word a -> word b ->
  bn_umul_hilo_ulong BN_BITS4 a b = (a * b / 2 ^ W, (a * b) mod 2 ^ W).
Proof.
  intros Ha Hb. pose proof B_pos as HB. pose proof pow_W_pos as HW.
  unfold bn_umul_hilo_ulong.
  destruct (half_hi a Ha) as [-> Hah]. destruct (half_hi b Hb) as [-> Hbh].
  destruct (half_lo a) as [-> Hal]. destruct (half_lo b) as [-> Hbl].
  destruct (w_mul_half _ _ Hah Hbh) as [-> Hhh].
  destruct (w_mul_half _ _ Hal Hbl) as [-> Hll].
  destruct (w_mul_half _ _ Hah Hbl) as [-> Hhl].
  destruct (w_mul_half _ _ Hbh Hal) as [-> Hlh].
  rewrite <- (ulong_word (a / B * (b / B)) Hhh) at 1.
  destruct (partition_step (a / B * (b / B)) (a mod B * (b mod B))
              (a / B * (b mod B)) Hll Hhl) as (k1 & -> & Hk1 & Hl1 & E1).
  set (l1 := w_add BN_BITS4 (a mod B * (b mod B))
               (w_shl BN_BITS4 (a / B * (b mod B)) BN_BITS4)) in *.
  destruct (partition_step (a / B * (b / B) + k1) l1
              (b / B * (a mod B)) Hl1 Hlh) as (k2 & -> & Hk2 & Hl2 & E2).
  set (l2 := w_add BN_BITS4 l1 (w_shl BN_BITS4 (b / B * (a mod B)) BN_BITS4)) in *.
  pose proof (Z.div_mod a B ltac:(lia)) as Ea.
  pose proof (Z.div_mod b B ltac:(lia)) as Eb.
  set (T := a / B * (b / B) + k1 + k2).
  assert (ET : a * b = 2 ^ W * T + l2).
  { unfold T. rewrite pow_W_square in *.
    set (ah := a / B) in *. set (al := a mod B) in *.
    set (bh := b / B) in *. set (bl := b mod B) in *.
    rewrite Ea, Eb. nia. }
  assert (HT : word T).
  { unfold Bn.word in *. split; [unfold T; nia|]. nia. }
  rewrite (ulong_word T HT).
  f_equal.
  - apply (Z.div_unique_pos _ _ T l2); [exact Hl2 | exact ET].
  - apply (Z.mod_unique_pos _ _ T l2); [exact Hl2 | exact ET].
Qed.

Section Flag.
Variable BN_LLONG : bool.

#[local] Abbreviation bn_addw := (bn_addw BN_BITS4 BN_LLONG).
#[local] Abbreviation bn_umul_hilo := (bn_umul_hilo BN_BITS4 BN_LLONG).

Lemma bn_addw_spec a b :
  word a -> word b ->
  bn_addw a b = ((a + b) / 2 ^ W, (a + b) mod 2 ^ W).
Proof.
  intros Ha Hb. unfold Bn.bn_addw. destruct BN_LLONG.
  - unfold bn_addw_llong.
    rewrite (word_ullong a), (word_ullong b) by assumption.
    assert (Hs : 0 <= a + b < 2 ^ W * 2 ^ W)
      by (unfold Bn.word in *; pose proof pow_W_pos; nia).
    rewrite (ullong_small _ Hs). now apply hilo_split.
  - unfold bn_addw_ulong. rewrite carry_bits by assumption.
    unfold w_add. now rewrite ulong_mod.
Qed.

Lemma bn_subw_spec a b :
  word a -> word b ->
  bn_subw BN_BITS4 a b = (- ((a - b) / 2 ^ W), (a - b) mod 2 ^ W).
Proof.
  intros Ha Hb. unfold bn_subw. rewrite borrow_bits by assumption.
  unfold w_sub. now rewrite ulong_mod.
Qed.

(** The carry of [bn_addw] and the borrow of [bn_subw] are one bit. *)
Lemma bn_addw_carry_bit a b :
  word a -> word b -> fst (bn_addw a b) = 0 \/ fst (bn_addw a b) = 1.
Proof.
  intros Ha Hb. rewrite bn_addw_spec by assumption. cbn [fst].
  pose proof pow_W_pos as HW.
  assert (0 <= (a + b) / 2 ^ W < 2); [|lia]. split.
  - apply Z.div_pos; unfold Bn.word in *; lia.
  - apply Z.div_lt_upper_bound; unfold Bn.word in *; lia.
Qed.

Lemma bn_subw_borrow_bit a b :
  word a -> word b ->
  fst (bn_subw BN_BITS4 a b) = 0 \/ fst (bn_subw BN_BITS4 a b) = 1.
Proof.
  intros Ha Hb. rewrite bn_subw_spec by assumption. cbn [fst].
  pose proof pow_W_pos as HW.
  assert (-1 <= (a - b) / 2 ^ W < 1); [|lia]. split.
  - apply Z.div_le_lower_bound; unfold Bn.word in *; lia.
  - apply Z.div_lt_upper_bound; unfold Bn.word in *; lia.
Qed.

Lemma bn_umul_hilo_spec a b :
  word a -> word b ->
  bn_umul_hilo a b = (a * b / 2 ^ W, (a * b) mod 2 ^ W).
Proof.
  intros Ha Hb. unfold Bn.bn_umul_hilo. destruct BN_LLONG.
  - unfold bn_umul_hilo_llong.
    rewrite (word_ullong a), (word_ullong b) by assumption.
    assert (Hs : 0 <= a * b < 2 ^ W * 2 ^ W)
      by (unfold Bn.word in *; pose proof pow_W_pos; nia).
    rewrite (ullong_small _ Hs). now apply hilo_split.
  - now apply bn_umul_hilo_ulong_spec.
Qed.

#[local] Abbreviation bn_addw_addw := (bn_addw_addw BN_BITS4 BN_LLONG).
#[local] Abbreviation bn_subw_subw := (bn_subw_subw BN_BITS4).
#[local] Abbreviation bn_mulw_addw := (bn_mulw_addw BN_BITS4 BN_LLONG).
#[local] Abbreviation bn_mulw_addw_addw :=
  (bn_mulw_addw_addw BN_BITS4 BN_LLONG).

Lemma word_mod n : word (n mod 2 ^ W).
Proof. apply Z.mod_pos_bound, pow_W_pos. Qed.

(** Adding a word to the low half of a double word (h:l) and the carry
    to the high half, as [bn_mulw_addw] and [bn_mulw_addw_addw] do. *)
Lemma accumulate n c :
  0 <= n -> word c -> n + c < 2 ^ W * 2 ^ W ->
  (let '(carry, r0) := bn_addw (n mod 2 ^ W) c in
   (w_add BN_BITS4 (n / 2 ^ W) carry, r0))
  = ((n + c) / 2 ^ W, (n + c) mod 2 ^ W).
Proof.
  intros Hn Hc Hlt. pose proof pow_W_pos as HW.
  rewrite bn_addw_spec by (apply word_mod || assumption).
  pose proof (Z.div_mod n (2 ^ W) ltac:(lia)) as En.
  pose proof (word_mod n) as Hl.
  pose proof (Z.div_mod (n mod 2 ^ W + c) (2 ^ W) ltac:(lia)) as Es.
  pose proof (word_mod (n mod 2 ^ W + c)) as Hr.
  set (h := n / 2 ^ W) in *. set (l := n mod 2 ^ W) in *.
  set (q := (l + c) / 2 ^ W) in *. set (r := (l + c) mod 2 ^ W) in *.
  assert (Hq : 0 <= q) by (apply Z.div_pos; unfold Bn.word in *; lia).
  assert (Hh : 0 <= h) by (apply Z.div_pos; lia).
  assert (E : n + c = 2 ^ W * (h + q) + r) by lia.
  assert (Hhq : word (h + q)) by (unfold Bn.word in *; split; nia).
  unfold w_add. rewrite (ulong_word _ Hhq). f_equal.
  - apply (Z.div_unique_pos _ _ (h + q) r); [exact Hr | exact E].
  - apply (Z.mod_unique_pos _ _ (h + q) r); [exact Hr | exact E].
Qed.

Lemma bn_mulw_addw_spec a b c :
  word a -> word b -> word c ->
  bn_mulw_addw a b c = ((a * b + c) / 2 ^ W, (a * b + c) mod 2 ^ W).
Proof.
  intros Ha Hb Hc. unfold Bn.bn_mulw_addw.
  rewrite bn_umul_hilo_spec by assumption.
  apply accumulate; unfold Bn.word in *; nia.
Qed.

Lemma bn_mulw_addw_addw_spec a b c d :
  word a -> word b -> word c -> word d ->
  bn_mulw_addw_addw a b c d
  = ((a * b + c + d) / 2 ^ W, (a * b + c + d) mod 2 ^ W).
Proof.
  intros Ha Hb Hc Hd. unfold Bn.bn_mulw_addw_addw.
  rewrite bn_mulw_addw_spec by assumption.
  apply accumulate; unfold Bn.word in *; nia.
Qed.

Lemma bn_addw_addw_spec a b c :
  word a -> word b -> word c ->
  bn_addw_addw a b c = ((a + b + c) / 2 ^ W, (a + b + c) mod 2 ^ W).
Proof.
  intros Ha Hb Hc. unfold Bn.bn_addw_addw.
  rewrite (bn_addw_spec a b) by assumption.
  pose proof pow_W_four.
  apply accumulate; unfold Bn.word in *; nia.
Qed.

Lemma bn_subw_subw_spec a b c :
  word a -> word b -> word c ->
  bn_subw_subw a b c = (- ((a - b - c) / 2 ^ W), (a - b - c) mod 2 ^ W).
Proof.
  intros Ha Hb Hc. pose proof pow_W_pos as HW. unfold Bn.bn_subw_subw.
  rewrite (bn_subw_spec a b) by assumption.
  rewrite bn_subw_spec by (apply word_mod || assumption).
  pose proof (Z.div_mod (a - b) (2 ^ W) ltac:(lia)) as E1.
  pose proof (word_mod (a - b)) as H1.
  pose proof (Z.div_mod ((a - b) mod 2 ^ W - c) (2 ^ W) ltac:(lia)) as E2.
  pose proof (word_mod ((a - b) mod 2 ^ W - c)) as H2.
  set (q1 := (a - b) / 2 ^ W) in *. set (r1 := (a - b) mod 2 ^ W) in *.
  set (q2 := (r1 - c) / 2 ^ W) in *. set (r2 := (r1 - c) mod 2 ^ W) in *.
  assert (E : a - b - c = 2 ^ W * (q1 + q2) + r2) by lia.
  assert (Hq1 : -1 <= q1 <= 0) by (unfold Bn.word in *; nia).
  assert (Hq2 : -1 <= q2 <= 0) by (unfold Bn.word in *; nia).
  assert (Hb12 : word (- q1 + - q2)).
  { unfold Bn.word. pose proof pow_W_four. lia. }
  unfold w_add. rewrite (ulong_word _ Hb12). f_equal.
  - rewrite <- (Z.div_unique_pos _ _ (q1 + q2) r2 H2 E). lia.
  - apply (Z.mod_unique_pos _ _ (q1 + q2) r2 H2 E).
Qed.

(** C4 (amended): for all single-word inputs a, b, c, the carry returned by
    [bn_addw_addw] and the borrow returned by [bn_subw_subw] are always 0, 1
    or 2; they are the exact high part: (carry:r0) = a + b + c and
    r0 - borrow * 2^W = a - b - c, with r0 a word. *)
Theorem bn_addw_addw_bn_subw_subw_carry_le_2 a b c :
  word a -> word b -> word c ->
  (let '(carry, r0) := bn_addw_addw a b c in
   (carry = 0 \/ carry = 1 \/ carry = 2) /\ word r0 /\
   carry * 2 ^ W + r0 = a + b + c)
  /\
  (let '(borrow, r0) := bn_subw_subw a b c in
   (borrow = 0 \/ borrow = 1 \/ borrow = 2) /\ word r0 /\
   r0 - borrow * 2 ^ W = a - b - c).
Proof.
  intros Ha Hb Hc. pose proof pow_W_pos as HW.
  rewrite bn_addw_addw_spec, bn_subw_subw_spec by assumption.
  split.
  - pose proof (Z.div_mod (a + b + c) (2 ^ W) ltac:(lia)) as E.
    pose proof (word_mod (a + b + c)) as Hr.
    set (q := (a + b + c) / 2 ^ W) in *.
    set (r := (a + b + c) mod 2 ^ W) in *.
    split; [|split; [exact Hr | lia]].
    assert (0 <= q < 3) by (unfold Bn.word in *; nia). lia.
  - pose proof (Z.div_mod (a - b - c) (2 ^ W) ltac:(lia)) as E.
    pose proof (word_mod (a - b - c)) as Hr.
    set (q := (a - b - c) / 2 ^ W) in *.
    set (r := (a - b - c) mod 2 ^ W) in *.
    split; [|split; [exact Hr | lia]].
    assert (-3 < q <= 0) by (unfold Bn.word in *; nia). lia.
Qed.

(** C8: for all word pairs a, b, [bn_umul_hilo] is commutative and returns
    (h, l), both words, with h * 2^W + l = a * b exactly; this holds for the
    [BN_LLONG] implementation and for the half-word decomposition. *)
Theorem bn_umul_hilo_exact_commutative a b :
  word a -> word b ->
  bn_umul_hilo a b = bn_umul_hilo b a /\
  (let '(h, l) := bn_umul_hilo a b in
   word h /\ word l /\ h * 2 ^ W + l = a * b).
Proof.
  intros Ha Hb. pose proof pow_W_pos as HW.
  rewrite !bn_umul_hilo_spec by assumption. split.
  - now rewrite (Z.mul_comm b a).
  - pose proof (Z.div_mod (a * b) (2 ^ W) ltac:(lia)) as E.
    pose proof (word_mod (a * b)) as Hr.
    set (q := (a * b) / 2 ^ W) in *. set (r := (a * b) mod 2 ^ W) in *.
    split; [|split; [exact Hr | lia]].
    unfold Bn.word in *. split; nia.
Qed.

(** C10: for all single-word inputs a, b, c, d, [bn_mulw_addw_addw] returns
    (r1, r0), both words, with r1 * 2^W + r0 = a * b + c + d exactly: the
    double-word result never overflows. *)
Theorem bn_mulw_addw_addw_exact a b c d :
  word a -> word b -> word c -> word d ->
  let '(r1, r0) := bn_mulw_addw_addw a b c d in
  word r1 /\ word r0 /\ r1 * 2 ^ W + r0 = a * b + c + d.
Proof.
  intros Ha Hb Hc Hd. pose proof pow_W_pos as HW.
  rewrite bn_mulw_addw_addw_spec by assumption.
  pose proof (Z.div_mod (a * b + c + d) (2 ^ W) ltac:(lia)) as E.
  pose proof (word_mod (a * b + c + d)) as Hr.
  set (q := (a * b + c + d) / 2 ^ W) in *.
  set (r := (a * b + c + d) mod 2 ^ W) in *.
  split; [|split; [exact Hr | lia]].
  unfold Bn.word in *. split; nia.
Qed.

End Flag.
End WordFacts.

(** ** Concrete instances: 64-bit words ([BN_BITS4] = 32) *)

Ltac word_dec := vm_compute; split; [discriminate | reflexivity].

(** C4, as first stated (carry and borrow always 0 or 1), fails: three
    maximal words sum to carry 2, and 0 minus two maximal words borrows 2,
    in both build variants. *)
Lemma bn_addw_addw_carry_two :
  word 32 max64 /\ word 32 0 /\
  fst (bn_addw_addw 32 false max64 max64 max64) = 2 /\
  fst (bn_addw_addw 32 true max64 max64 max64) = 2 /\
  fst (bn_subw_subw 32 0 max64 max64) = 2 /\
  ~ (fst (bn_addw_addw 32 false max64 max64 max64) = 0 \/
     fst (bn_addw_addw 32 false max64 max64 max64) = 1) /\
  ~ (fst (bn_subw_subw 32 0 max64 max64) = 0 \/
     fst (bn_subw_subw 32 0 max64 max64) = 1).
Proof.
  repeat split; try (vm_compute; (reflexivity || discriminate)).
  - vm_compute. intros [H | H]; discriminate H.
  - vm_compute. intros [H | H]; discriminate H.
Qed.

Lemma bn_addw_addw_bn_subw_subw_carry_le_2_witness :
  0 < 32 /\ word 32 max64 /\ word 32 7 /\ word 32 max64 /\
  (let '(carry, r0) := bn_addw_addw 32 false max64 7 max64 in
   (carry = 0 \/ carry = 1 \/ carry = 2) /\ word 32 r0 /\
   carry * 2 ^ BN_BITS2 32 + r0 = max64 + 7 + max64)
  /\
  (let '(borrow, r0) := bn_subw_subw 32 max64 7 max64 in
   (borrow = 0 \/ borrow = 1 \/ borrow = 2) /\ word 32 r0 /\
   r0 - borrow * 2 ^ BN_BITS2 32 = max64 - 7 - max64).
Proof.
  split; [lia|]. split; [word_dec|]. split; [word_dec|]. split; [word_dec|].
  apply (bn_addw_addw_bn_subw_subw_carry_le_2 32 ltac:(lia) false max64 7 max64);
    word_dec.
Defined.

Lemma bn_umul_hilo_exact_commutative_witness :
  0 < 32 /\ word 32 max64 /\ word 32 12345 /\
  bn_umul_hilo 32 false max64 12345 = bn_umul_hilo 32 false 12345 max64 /\
  (let '(h, l) := bn_umul_hilo 32 false max64 12345 in
   word 32 h /\ word 32 l /\ h * 2 ^ BN_BITS2 32 + l = max64 * 12345).
Proof.
  split; [lia|]. split; [word_dec|]. split; [word_dec|].
  apply (bn_umul_hilo_exact_commutative 32 ltac:(lia) false max64 12345);
    word_dec.
Defined.

Lemma bn_mulw_addw_addw_exact_witness :
  0 < 32 /\ word 32 max64 /\
  (let '(r1, r0) := bn_mulw_addw_addw 32 false max64 max64 max64 max64 in
   word 32 r1 /\ word 32 r0 /\
   r1 * 2 ^ BN_BITS2 32 + r0 = max64 * max64 + max64 + max64).
Proof.
  split; [lia|]. split; [word_dec|].
  apply (bn_mulw_addw_addw_exact 32 ltac:(lia) false
           max64 max64 max64 max64); word_dec.
Defined.

(** The half-word decomposition at a = b = max_word, evaluated. *)
Example bn_umul_hilo_ulong_max :
  bn_umul_hilo_ulong 32 max64 max64 = (max64 - 1, 1) /\
  bn_umul_hilo_llong 32 max64 max64 = (max64 - 1, 1).
Proof. split; vm_compute; reflexivity. Qed.

End BnFacts.

(* ===================================================================== *)
(** * Part IV: properties of the name constraints *)
(* ===================================================================== *)

Module X509Facts.
Import X509.

(** ** Characters and C strings *)

Lemma code_inj a b : code a = code b -> a = b.
Proof.
  unfold code. intros H.
  rewrite <- (ascii_nat_embedding a), <- (ascii_nat_embedding b).
  now rewrite H.
Qed.

Lemma code_diff_zero a b :
  (Z.of_nat (code a) - Z.of_nat (code b) = 0)%Z -> a = b.
Proof. intros H. apply code_inj. lia. Qed.

Lemma eqb_false_neq (a b : ascii) : (a =? b)%char = false <-> a <> b.
Proof. apply Ascii.eqb_neq. Qed.

Lemma cstr_no_nul s : no_nul s -> cstr s = s.
Proof.
  induction 1 as [|c s Hc Hs IH]; simpl; [reflexivity|].
  apply eqb_false_neq in Hc. rewrite Hc. now rewrite IH.
Qed.

Lemma strlen_no_nul s : no_nul s -> strlen s = List.length s.
Proof. intros H. unfold strlen. now rewrite cstr_no_nul. Qed.

Lemma no_nul_skipn k s : no_nul s -> no_nul (skipn k s).
Proof.
  intros H. unfold no_nul in *. rewrite Forall_forall in *.
  intros x Hx. apply H. rewrite <- (firstn_skipn k s).
  apply in_or_app. now right.
Qed.

Lemma skipn_app_exact (p s : list ascii) n :
  n = List.length p -> skipn n (p ++ s) = s.
Proof.
  intros ->. rewrite skipn_app, Nat.sub_diag, skipn_all. reflexivity.
Qed.

Lemma ci_eq_length s t : ci_eq s t -> List.length s = List.length t.
Proof.
  unfold ci_eq. intros H.
  rewrite <- (length_map tolower s), <- (length_map tolower t).
  now rewrite H.
Qed.

(** [strcmp] returns 0 exactly on equal strings. *)
Lemma strcmp_zero_iff s t :
  no_nul s -> no_nul t -> (strcmp s t = 0%Z <-> s = t).
Proof.
  intros Hs. revert t.
  induction Hs as [|a s Ha Hs IH]; intros t Ht.
  - destruct Ht as [|b t Hb Ht]; cbn [strcmp hd tl].
    + rewrite Ascii.eqb_refl. cbn [negb]. tauto.
    + destruct (Ascii.eqb_spec NUL b) as [E|E]; cbn [negb].
      * now subst b.
      * split; [|discriminate]. intros H. apply code_diff_zero in H.
        contradiction.
  - destruct Ht as [|b t Hb Ht]; cbn [strcmp hd tl].
    + destruct (Ascii.eqb_spec a NUL) as [E|E]; cbn [negb]; [contradiction|].
      split; [|discriminate]. intros H. apply code_diff_zero in H.
      contradiction.
    + destruct (Ascii.eqb_spec a b) as [E|E]; cbn [negb].
      * subst b. apply eqb_false_neq in Ha. rewrite Ha.
        rewrite (IH t Ht). split; [now intros ->|now intros [= ->]].
      * split; [|now intros [= -> _]]. intros H.
        apply code_diff_zero in H. contradiction.
Qed.

(** [strncasecmp] over the whole of two strings of one length returns 0
    exactly when they agree up to case. *)
Lemma strncasecmp_zero_iff s t :
  List.length s = List.length t -> no_nul s ->
  (strncasecmp s t (List.length t) = 0%Z <-> ci_eq s t).
Proof.
  intros Hl Hs. revert t Hl.
  induction Hs as [|a s Ha Hs IH]; intros [|b t] Hl; simpl in Hl;
    try discriminate.
  - cbn [List.length strncasecmp]. unfold ci_eq. tauto.
  - injection Hl as Hl. cbn [List.length strncasecmp hd tl].
    unfold ci_eq. cbn [map].
    destruct (Ascii.eqb_spec (tolower a) (tolower b)) as [E|E].
    + cbn [negb]. apply eqb_false_neq in Ha. rewrite Ha. rewrite (IH t Hl).
      unfold ci_eq. rewrite E. split; [now intros ->|now intros [= ->]].
    + cbn [negb]. split; [|now intros [= H _]]. intros H.
      apply code_diff_zero in H. contradiction.
Qed.

(** ** The loops of the URI host extractor *)

Lemma skipn_cons_nth (l : list ascii) i c s :
  skipn i l = c :: s -> byte_at l i = c /\ skipn (S i) l = s.
Proof.
  unfold byte_at. revert l. induction i as [|i IH]; intros [|x l] H;
    simpl in H; try discriminate.
  - injection H as -> ->. now split.
  - destruct (IH l H) as [H1 H2]. split; [exact H1 | exact H2].
Qed.

Lemma skipn_nil_nth (l : list ascii) i : skipn i l = [] -> byte_at l i = NUL.
Proof.
  unfold byte_at. revert l. induction i as [|i IH]; intros [|x l] H;
    simpl in H; try discriminate; try reflexivity.
  now apply IH.
Qed.

Lemma terminator_ascii t : uri_terminator t = true -> isascii t = true.
Proof.
  unfold uri_terminator. intros H.
  repeat (apply orb_true_iff in H; destruct H as [H|H]);
    apply Ascii.eqb_eq in H; subst t; reflexivity.
Qed.

Lemma terminator_not_at t : uri_terminator t = true -> (t =? "@")%char = false.
Proof.
  unfold uri_terminator. intros H.
  repeat (apply orb_true_iff in H; destruct H as [H|H]);
    apply Ascii.eqb_eq in H; subst t; reflexivity.
Qed.

Lemma scanned_step c :
  scanned c ->
  negb (isascii c) = false /\ (c =? "@")%char = false /\
  ((c =? ":")%char || (c =? "/")%char || (c =? "?")%char
   || (c =? "#")%char) = false.
Proof.
  unfold scanned, host_char, uri_terminator. intros [Ha Hh].
  apply andb_true_iff in Hh. destruct Hh as [H1 H2].
  rewrite Ha. apply negb_true_iff in H1, H2. now rewrite H1, H2.
Qed.

(** [take_until] and [split_at] *)

Lemma take_until_app stop p s :
  Forall (fun c => stop c = false) p ->
  take_until stop (p ++ s) = p ++ take_until stop s.
Proof.
  induction 1 as [|c p Hc Hp IH]; [reflexivity|].
  cbn [app take_until]. now rewrite Hc, IH.
Qed.

Lemma take_until_split stop s :
  exists r, s = take_until stop s ++ r /\
    Forall (fun c => stop c = false) (take_until stop s) /\
    (r = [] \/ exists t tl, r = t :: tl /\ stop t = true).
Proof.
  induction s as [|c s IH]; cbn [take_until].
  - exists []. split; [reflexivity|]. split; [constructor | now left].
  - destruct (stop c) eqn:Ec.
    + exists (c :: s). split; [reflexivity|]. split; [constructor|].
      right. now exists c, s.
    + destruct IH as (r & E & Hf & Hr). exists r.
      split; [cbn [app]; now rewrite <- E|].
      split; [now constructor | exact Hr].
Qed.

Lemma take_until_stop stop t tl : stop t = true -> take_until stop (t :: tl) = [].
Proof. intros H. cbn [take_until]. now rewrite H. Qed.

Lemma split_at_none c s : split_at c s = None <-> ~ In c s.
Proof.
  induction s as [|x s IH]; cbn [split_at].
  - split; [intros _ [] | reflexivity].
  - destruct (Ascii.eqb_spec x c) as [E|E].
    + split; [discriminate|]. intros H. elim H. now left.
    + destruct (split_at c s) as [[a b]|].
      * split; [discriminate|]. intros H. exfalso.
        assert (Hs : ~ In c s) by (intros Hc; apply H; now right).
        apply IH in Hs. discriminate.
      * split; [|reflexivity]. intros _ [Hx|Hc]; [contradiction|].
        now apply (proj1 IH).
Qed.

Lemma split_at_some c s a b :
  split_at c s = Some (a, b) <-> s = a ++ c :: b /\ ~ In c a.
Proof.
  revert a. induction s as [|x s IH]; intros a; cbn [split_at].
  - split; [discriminate|]. intros [E _]. now destruct a.
  - destruct (Ascii.eqb_spec x c) as [E|E].
    + subst x. split.
      * intros [= <- <-]. split; [reflexivity | intros []].
      * intros [Es Hn]. destruct a as [|y a].
        -- cbn [app] in Es. now injection Es as <-.
        -- cbn [app] in Es. injection Es as <- _. elim Hn. now left.
    + destruct (split_at c s) as [[a' b']|] eqn:Es.
      * split.
        -- intros [= <- <-]. destruct (proj1 (IH a') eq_refl) as [-> Hn].
           split; [reflexivity|]. intros [Hx|Hc]; [contradiction|].
           now apply Hn.
        -- intros [Ex Hn]. destruct a as [|y a].
           ++ cbn [app] in Ex. injection Ex as -> _. now elim E.
           ++ cbn [app] in Ex. injection Ex as <- Ex.
              assert (H : Some (a', b') = Some (a, b)).
              { apply IH. split; [exact Ex|].
                intros Hc. apply Hn. now right. }
              now injection H as -> ->.
      * split; [discriminate|]. intros [Ex Hn]. exfalso.
        destruct a as [|y a].
        -- cbn [app] in Ex. injection Ex as -> _. now elim E.
        -- cbn [app] in Ex. injection Ex as _ Ex.
           apply (proj1 (split_at_none c s) Es).
           rewrite Ex. apply in_or_app. right. now left.
Qed.

Lemma count_char_app c s1 s2 :
  count_char c (s1 ++ s2) = count_char c s1 + count_char c s2.
Proof. unfold count_char. now rewrite filter_app, length_app. Qed.

Lemma count_char_zero c s : count_char c s = 0 <-> ~ In c s.
Proof.
  unfold count_char. induction s as [|x s IH]; cbn [filter].
  - split; [intros _ [] | reflexivity].
  - destruct (Ascii.eqb_spec x c) as [E|E]; cbn [List.length].
    + split; [discriminate|]. intros H. elim H. now left.
    + rewrite IH. split.
      * intros H [Hx|Hc]; [contradiction | now apply H].
      * intros H Hc. apply H. now right.
Qed.

Lemma count_char_cons_same c s : count_char c (c :: s) = S (count_char c s).
Proof. unfold count_char. cbn [filter]. now rewrite Ascii.eqb_refl. Qed.

Lemma first_split_suffix (c : ascii) a0 : forall b0 a b,
  ~ In c a0 -> a0 ++ c :: b0 = a ++ c :: b -> exists m, b0 = m ++ b.
Proof.
  induction a0 as [|x a0 IH]; intros b0 a b Hn E.
  - destruct a as [|y a]; cbn [app] in E.
    + injection E as ->. now exists [].
    + injection E as _ ->. now exists (a ++ [c]); rewrite <- app_assoc.
  - destruct a as [|y a]; cbn [app] in E.
    + injection E as -> _. elim Hn. now left.
    + injection E as _ E. apply (IH b0 a b); [|exact E].
      intros Hc. apply Hn. now right.
Qed.

Lemma no_at_behind_colon_all A :
  no_at_behind_colon A ->
  forall a b, A = a ++ ":"%char :: b -> ~ In "@"%char b.
Proof.
  unfold no_at_behind_colon. intros H a b EA.
  destruct (split_at ":" A) as [[a0 b0]|] eqn:Es.
  - apply split_at_some in Es. destruct Es as [E0 Hn0].
    rewrite E0 in EA.
    destruct (first_split_suffix _ _ _ _ _ Hn0 EA) as (m & ->).
    intros Hin. apply H. apply in_or_app. now right.
  - exfalso. apply (proj1 (split_at_none _ _) Es).
    rewrite EA. apply in_or_app. right. now left.
Qed.

Lemma after_slashes_first pre rest :
  after_slashes (pre ++ ["/"%char]) = None ->
  after_slashes (pre ++ "/"%char :: "/"%char :: rest) = Some rest.
Proof.
  induction pre as [|c pre IH]; [reflexivity|].
  cbn [app after_slashes].
  destruct pre as [|c2 pre]; cbn [app] in *.
  - destruct ((c =? "/")%char && ("/" =? "/")%char); [discriminate|].
    intros _. reflexivity.
  - destruct ((c =? "/")%char && (c2 =? "/")%char); [discriminate|].
    exact IH.
Qed.

Lemma scanned_terminator c : scanned c -> uri_terminator c = false.
Proof.
  unfold scanned, host_char. intros [_ H]. apply andb_true_iff in H.
  destruct H as [_ H]. now apply negb_true_iff in H.
Qed.

Lemma authority_end_terminator c :
  authority_end c = true -> uri_terminator c = true.
Proof.
  unfold authority_end, uri_terminator. intros H.
  destruct (c =? ":")%char; [reflexivity | exact H].
Qed.

Lemma scanned_authority c : scanned c -> authority_end c = false.
Proof.
  intros H. apply scanned_terminator in H.
  destruct (authority_end c) eqn:E; [|reflexivity].
  apply authority_end_terminator in E. congruence.
Qed.

Lemma terminator_colon t :
  uri_terminator t = true -> authority_end t = false -> t = ":"%char.
Proof.
  unfold uri_terminator, authority_end.
  destruct (Ascii.eqb_spec t ":") as [E|E]; [now intros _ _|].
  cbn [orb]. congruence.
Qed.

Section UriScan.

Variable uri : list ascii.

(** The first loop finds the first "//". *)
Lemma find_authority_sound s : forall i a,
  skipn i uri = s ->
  find_authority uri (List.length s - 1) i = Some a ->
  exists p r, s = p ++ "/"%char :: "/"%char :: r /\ a = i + List.length p + 2
    /\ Forall (fun c => isascii c = true) p
    /\ after_slashes (p ++ ["/"%char]) = None.
Proof.
  induction s as [|c s IH]; intros i a Hs; [discriminate|].
  destruct s as [|c' s]; [discriminate|].
  replace (List.length (c :: c' :: s) - 1) with (S (List.length s))
    by (cbn [List.length]; lia).
  cbn [find_authority].
  destruct (skipn_cons_nth _ _ _ _ Hs) as [Hc Hs'].
  destruct (skipn_cons_nth _ _ _ _ Hs') as [Hc' _].
  rewrite Hc. replace (i + 1) with (S i) by lia. rewrite Hc'.
  clear Hc Hc'.
  destruct (isascii c) eqn:Ea; cbn [negb]; [|discriminate].
  destruct ((c =? "/")%char && (c' =? "/")%char) eqn:Esl.
  - intros [= <-]. apply andb_true_iff in Esl. destruct Esl as [E1 E2].
    apply Ascii.eqb_eq in E1, E2. subst c c'.
    exists [], s. repeat split; [cbn [List.length]; lia | constructor].
  - intros H.
    assert (Hfuel : List.length s = List.length (c' :: s) - 1)
      by (cbn [List.length]; lia).
    rewrite Hfuel in H.
    destruct (IH (S i) a Hs' H) as (p & r & E & -> & Hp & Hfirst).
    exists (c :: p), r. rewrite E. repeat split.
    + cbn [List.length]. lia.
    + now constructor.
    + cbn [app after_slashes]. destruct p as [|c2 p].
      * cbn [app] in *. injection E as -> ->.
        rewrite Esl. reflexivity.
      * cbn [app] in *. injection E as -> ->.
        rewrite Esl. exact Hfirst.
Qed.

Lemma find_authority_complete p : forall r i,
  skipn i uri = p ++ "/"%char :: "/"%char :: r ->
  Forall (fun c => isascii c = true) p ->
  after_slashes (p ++ ["/"%char]) = None ->
  find_authority uri (List.length (p ++ "/"%char :: "/"%char :: r) - 1) i
  = Some (i + List.length p + 2).
Proof.
  induction p as [|c p IH]; intros r i Hs Hp Hfirst.
  - cbn [app] in *.
    replace (List.length ("/"%char :: "/"%char :: r) - 1)
      with (S (List.length r)) by (cbn [List.length]; lia).
    cbn [find_authority].
    destruct (skipn_cons_nth _ _ _ _ Hs) as [Hc Hs'].
    destruct (skipn_cons_nth _ _ _ _ Hs') as [Hc' _].
    rewrite Hc. replace (i + 1) with (S i) by lia. rewrite Hc'.
    replace (isascii "/"%char) with true by reflexivity.
    rewrite Ascii.eqb_refl. cbn [negb andb List.length].
    f_equal. lia.
  - inversion Hp as [|? ? Hc Hp']; subst.
    cbn [app] in Hs.
    destruct (skipn_cons_nth _ _ _ _ Hs) as [Ec Hs'].
    assert (exists c' q, p ++ "/"%char :: "/"%char :: r = c' :: q)
      as (c' & q & Eq) by (destruct p; cbn; eauto).
    assert (Hc2 : byte_at uri (S i) = c').
    { rewrite Eq in Hs'. now destruct (skipn_cons_nth _ _ _ _ Hs'). }
    assert (Esl : (c =? "/")%char && (c' =? "/")%char = false).
    { cbn [app after_slashes] in Hfirst. destruct p as [|c2 p].
      - cbn [app] in *. injection Eq as <- _.
        destruct ((c =? "/")%char && ("/" =? "/")%char); [discriminate|].
        reflexivity.
      - cbn [app] in *. injection Eq as <- _.
        destruct ((c =? "/")%char && (c2 =? "/")%char); [discriminate|].
        reflexivity. }
    assert (Hfirst' : after_slashes (p ++ ["/"%char]) = None).
    { cbn [app after_slashes] in Hfirst. destruct p as [|c2 p].
      - reflexivity.
      - cbn [app] in *.
        destruct ((c =? "/")%char && (c2 =? "/")%char); [discriminate|].
        exact Hfirst. }
    specialize (IH r (S i) Hs' Hp' Hfirst').
    cbn [app]. rewrite Eq in *.
    replace (List.length (c :: c' :: q) - 1) with (S (List.length q))
      by (cbn [List.length]; lia).
    replace (List.length (c' :: q) - 1) with (List.length q) in IH
      by (cbn [List.length]; lia).
    cbn [find_authority].
    rewrite Ec, Hc. cbn [negb].
    replace (i + 1) with (S i) by lia. rewrite Hc2, Esl.
    rewrite IH. f_equal. cbn [List.length]. lia.
Qed.

(** The second loop steps over a run of host bytes. *)
Lemma scan_run h : forall rest i hl ho,
  skipn i uri = h ++ rest -> Forall scanned h ->
  scan_authority uri (List.length (h ++ rest)) i hl ho
  = scan_authority uri (List.length rest) (i + List.length h)
      (hl + List.length h) ho.
Proof.
  induction h as [|c h IH]; intros rest i hl ho Hs Hh.
  - cbn [app List.length]. now rewrite !Nat.add_0_r.
  - inversion Hh as [|? ? Hc Hh']; subst. cbn [app] in Hs.
    destruct (skipn_cons_nth _ _ _ _ Hs) as [Ec Hs'].
    cbn [app List.length scan_authority]. rewrite Ec.
    destruct (scanned_step c Hc) as (-> & -> & ->).
    rewrite (IH rest (S i) (S hl) ho Hs' Hh').
    f_equal; lia.
Qed.

Lemma scan_stop rest i hl ho :
  skipn i uri = rest -> host_ends rest ->
  scan_authority uri (List.length rest) i hl ho = Some (hl, ho).
Proof.
  intros Hs [->|(t & tl & -> & Ht)]; [reflexivity|].
  destruct (skipn_cons_nth _ _ _ _ Hs) as [Ec _].
  cbn [List.length scan_authority]. rewrite Ec.
  rewrite (terminator_ascii t Ht), (terminator_not_at t Ht). cbn [negb].
  unfold uri_terminator in Ht. now rewrite Ht.
Qed.

Lemma scan_at rest i hl :
  skipn i uri = "@"%char :: rest ->
  scan_authority uri (S (List.length rest)) i hl None
  = scan_authority uri (List.length rest) (S i) 0 (Some (i + 1)).
Proof.
  intros Hs. destruct (skipn_cons_nth _ _ _ _ Hs) as [Ec _].
  cbn [scan_authority]. rewrite Ec. reflexivity.
Qed.

(** What a run of the second loop that ends with a host tells, once the
    userinfo is behind ... *)
Lemma scan_inv_host s : forall i hl0 o hl ho,
  skipn i uri = s ->
  scan_authority uri (List.length s) i hl0 (Some o) = Some (hl, ho) ->
  hl <> 0 ->
  exists h tail, s = h ++ tail /\ Forall scanned h /\ host_ends tail
    /\ hl = hl0 + List.length h /\ ho = Some o.
Proof.
  induction s as [|c s IH]; intros i hl0 o hl ho Hs.
  - cbn. intros [= <- <-] _. exists [], [].
    split; [reflexivity|]. split; [constructor|]. split; [now left|].
    split; [cbn; lia | reflexivity].
  - destruct (skipn_cons_nth _ _ _ _ Hs) as [Ec Hs'].
    cbn [List.length scan_authority]. rewrite Ec.
    destruct (isascii c) eqn:Ea; cbn [negb]; [|discriminate].
    destruct (c =? "@")%char eqn:Eat.
    { intros [= <- _] H. now elim H. }
    destruct ((c =? ":")%char || (c =? "/")%char || (c =? "?")%char
              || (c =? "#")%char) eqn:Et.
    + intros [= <- <-] _. exists [], (c :: s).
      split; [reflexivity|]. split; [constructor|].
      split; [right; now exists c, s|].
      split; [cbn; lia | reflexivity].
    + intros H Hnz.
      destruct (IH (S i) (S hl0) o hl ho Hs' H Hnz)
        as (h & tail & -> & Hh & Htail & -> & ->).
      exists (c :: h), tail.
      split; [reflexivity|]. split.
      { constructor; [|exact Hh]. split; [exact Ea|].
        unfold host_char, uri_terminator. now rewrite Eat, Et. }
      split; [exact Htail|].
      split; [cbn [List.length]; lia | reflexivity].
Qed.

(** ... and from the start of the authority. *)
Lemma scan_inv s : forall i hl0 hl ho,
  skipn i uri = s ->
  scan_authority uri (List.length s) i hl0 None = Some (hl, ho) ->
  hl <> 0 ->
  (ho = None /\
   exists h tail, s = h ++ tail /\ Forall scanned h /\ host_ends tail
     /\ hl = hl0 + List.length h)
  \/
  (exists u h tail, s = u ++ "@"%char :: h ++ tail /\ Forall scanned u
     /\ Forall scanned h /\ host_ends tail /\ hl = List.length h
     /\ ho = Some (i + List.length u + 1)).
Proof.
  induction s as [|c s IH]; intros i hl0 hl ho Hs.
  - cbn. intros [= <- <-] _. left. split; [reflexivity|].
    exists [], [].
    split; [reflexivity|]. split; [constructor|]. split; [now left|].
    cbn; lia.
  - destruct (skipn_cons_nth _ _ _ _ Hs) as [Ec Hs'].
    cbn [List.length scan_authority]. rewrite Ec. clear Ec.
    destruct (isascii c) eqn:Ea; cbn [negb]; [|discriminate].
    destruct (c =? "@")%char eqn:Eat.
    { intros H Hnz. apply Ascii.eqb_eq in Eat. subst c.
      destruct (scan_inv_host s (S i) 0 (i + 1) hl ho Hs' H Hnz)
        as (h & tail & -> & Hh & Htail & -> & ->).
      right. exists [], h, tail.
      split; [reflexivity|]. split; [constructor|]. split; [exact Hh|].
      split; [exact Htail|]. split; [reflexivity|].
      cbn [List.length]. f_equal. lia. }
    destruct ((c =? ":")%char || (c =? "/")%char || (c =? "?")%char
              || (c =? "#")%char) eqn:Et.
    + intros [= <- <-] _. left. split; [reflexivity|].
      exists [], (c :: s).
      split; [reflexivity|]. split; [constructor|].
      split; [right; now exists c, s|]. cbn; lia.
    + intros H Hnz.
      assert (Hc : scanned c).
      { split; [exact Ea|].
        unfold host_char, uri_terminator. now rewrite Eat, Et. }
      destruct (IH (S i) (S hl0) hl ho Hs' H Hnz)
        as [(-> & h & tail & -> & Hh & Htail & ->)
           |(u & h & tail & -> & Hu & Hh & Htail & -> & ->)].
      * left. split; [reflexivity|]. exists (c :: h), tail.
        split; [reflexivity|]. split; [now constructor|].
        split; [exact Htail|]. cbn [List.length]. lia.
      * right. exists (c :: u), h, tail.
        split; [reflexivity|]. split; [now constructor|].
        split; [exact Hh|]. split; [exact Htail|]. split; [reflexivity|].
        cbn [List.length]. f_equal. lia.
Qed.

End UriScan.

(** A span the validators accept holds no NUL. *)
Lemma valid_domain_loop_no_nul name len fuel : forall i c component,
  valid_domain_loop name len fuel i c component = true ->
  forall j, i <= j < i + fuel -> byte_at name j <> NUL.
Proof.
  induction fuel as [|fuel IH]; intros i c component H j Hj; [lia|].
  cbn [valid_domain_loop] in H.
  destruct (isascii (byte_at name i)); cbn [negb orb] in H;
    [|discriminate].
  destruct (byte_at name i =? NUL)%char eqn:En; [discriminate|].
  repeat match type of H with
         | (if ?b then _ else _) = true =>
           destruct b; [try discriminate|]
         end;
    try discriminate;
    (destruct (Nat.eq_dec j i) as [->|Hne];
     [now apply Ascii.eqb_neq | apply (IH _ _ _ H); lia]).
Qed.

Lemma valid_domain_internal_no_nul h tail :
  x509_constraints_valid_domain_internal (h ++ tail) (List.length h) = true ->
  no_nul h.
Proof.
  unfold x509_constraints_valid_domain_internal.
  destruct (DOMAIN_PART_MAX_LEN <? List.length h); [discriminate|].
  intros H. pose proof (valid_domain_loop_no_nul _ _ _ _ _ _ H) as Hn.
  unfold no_nul. apply Forall_forall. intros x Hx.
  destruct (In_nth _ _ NUL Hx) as (j & Hj & <-).
  specialize (Hn j ltac:(lia)). unfold byte_at in Hn.
  now rewrite app_nth1 in Hn by exact Hj.
Qed.

(** ** Validators, the mailbox parser and the URI host extractor *)

Section Libc.

Variable inet_pton : Z -> list ascii -> Z.

#[local] Abbreviation x509_constraints_valid_host :=
  (x509_constraints_valid_host inet_pton).
#[local] Abbreviation x509_constraints_parse_mailbox :=
  (x509_constraints_parse_mailbox inet_pton).

Lemma valid_host_internal name len :
  x509_constraints_valid_host name len = true ->
  x509_constraints_valid_domain_internal name len = true.
Proof.
  unfold X509.x509_constraints_valid_host.
  repeat match goal with
         | |- (if ?b then _ else _) = true -> _ =>
           destruct b; [discriminate|]
         end.
  trivial.
Qed.

Lemma strndup_host h tail :
  x509_constraints_valid_host (h ++ tail) (List.length h) = true ->
  strndup (h ++ tail) (List.length h) = h.
Proof.
  intros H. unfold strndup.
  rewrite firstn_app, Nat.sub_diag, firstn_all, firstn_O, app_nil_r.
  apply cstr_no_nul. apply (valid_domain_internal_no_nul h tail).
  now apply valid_host_internal.
Qed.

(** [x509_constraints_uri_host] succeeds with host [h] exactly when the
    span reads pre "//" userinfo h tail, where the "//" is the first one,
    every byte up to the end of [h] is ASCII, the userinfo is empty or a
    run of host bytes followed by '@', [h] is a run of host bytes and not
    empty, the tail is empty or starts with ':', '/', '?' or '#', and the
    validator accepts the host where it lies, with its length. *)
Lemma uri_host_decomposition (uri h : list ascii) :
  x509_constraints_uri_host inet_pton uri (List.length uri) = Some h <->
  exists pre ui tail,
    uri = pre ++ "/"%char :: "/"%char :: ui ++ h ++ tail /\
    after_slashes (pre ++ ["/"%char]) = None /\
    Forall (fun c => isascii c = true) pre /\
    (ui = [] \/ exists u, ui = u ++ ["@"%char] /\ Forall scanned u) /\
    Forall scanned h /\ h <> [] /\ host_ends tail /\
    x509_constraints_valid_host (h ++ tail) (List.length h) = true.
Proof.
  unfold X509.x509_constraints_uri_host. split.
  - destruct (List.length uri <? 3); [discriminate|].
    destruct (find_authority uri (List.length uri - 1) 0) as [a|] eqn:Ef;
      [|discriminate].
    destruct (find_authority_sound uri uri 0 a eq_refl Ef)
      as (p & r & Euri & -> & Hp & Hfirst).
    assert (Hr : skipn (0 + List.length p + 2) uri = r).
    { rewrite Euri at 1.
      change (p ++ "/"%char :: "/"%char :: r)
        with (p ++ ["/"%char; "/"%char] ++ r).
      rewrite app_assoc. apply skipn_app_exact.
      rewrite length_app. cbn [List.length]. lia. }
    assert (Hlen : List.length uri - (0 + List.length p + 2) = List.length r).
    { rewrite Euri at 1. rewrite length_app. cbn [List.length]. lia. }
    rewrite Hlen.
    destruct (scan_authority uri (List.length r) (0 + List.length p + 2)
                0 None) as [[hl ho]|] eqn:Es; [|discriminate].
    destruct (Nat.eqb_spec hl 0) as [Ez|Hnz]; [discriminate|].
    destruct (scan_inv uri r _ 0 hl ho Hr Es Hnz)
      as [(-> & h' & tail & Er & Hh & Htail & ->)
         |(u & h' & tail & Er & Hu & Hh & Htail & -> & ->)].
    + rewrite Hr, Er.
      destruct (x509_constraints_valid_host (h' ++ tail) (0 + List.length h'))
        eqn:Ev; cbn [negb]; [|discriminate].
      cbn [Nat.add] in *. rewrite (strndup_host _ _ Ev). intros [= <-].
      exists p, [], tail. rewrite Euri, Er.
      split; [reflexivity|]. split; [exact Hfirst|]. split; [exact Hp|].
      split; [now left|]. split; [exact Hh|].
      split; [intros ->; now apply Hnz|]. split; [exact Htail | exact Ev].
    + assert (Hsk : skipn (0 + List.length p + 2 + List.length u + 1) uri
                    = h' ++ tail).
      { replace (0 + List.length p + 2 + List.length u + 1)
          with (List.length u + 1 + (0 + List.length p + 2)) by lia.
        rewrite <- skipn_skipn, Hr, Er.
        change (u ++ "@"%char :: h' ++ tail)
          with (u ++ ["@"%char] ++ h' ++ tail).
        rewrite app_assoc. apply skipn_app_exact.
        rewrite length_app. cbn [List.length]. lia. }
      rewrite Hsk.
      destruct (x509_constraints_valid_host (h' ++ tail) (List.length h'))
        eqn:Ev; cbn [negb]; [|discriminate].
      rewrite (strndup_host _ _ Ev). intros [= <-].
      exists p, (u ++ ["@"%char]), tail. rewrite Euri, Er.
      split; [now rewrite <- app_assoc|]. split; [exact Hfirst|].
      split; [exact Hp|]. split; [right; now exists u|].
      split; [exact Hh|]. split; [intros ->; now apply Hnz|].
      split; [exact Htail | exact Ev].
  - intros (pre & ui & tail & Euri & Hfirst & Hpre & Hui & Hh & Hne
            & Htail & Ev).
    assert (H3 : (List.length uri <? 3) = false).
    { apply Nat.ltb_ge. rewrite Euri, length_app. cbn [List.length].
      rewrite !length_app. destruct h; [now elim Hne|]. cbn [List.length]. lia. }
    rewrite H3.
    pose proof (find_authority_complete uri pre (ui ++ h ++ tail) 0
                  Euri Hpre Hfirst) as Ef.
    rewrite <- Euri in Ef. rewrite Ef.
    change (0 + List.length pre + 2) with (List.length pre + 2).
    assert (Hr : skipn (List.length pre + 2) uri = ui ++ h ++ tail).
    { rewrite Euri at 1.
      change (pre ++ "/"%char :: "/"%char :: ui ++ h ++ tail)
        with (pre ++ ["/"%char; "/"%char] ++ ui ++ h ++ tail).
      rewrite app_assoc. apply skipn_app_exact.
      rewrite length_app. cbn [List.length]. lia. }
    assert (Hlen : List.length uri - (List.length pre + 2)
                   = List.length (ui ++ h ++ tail)).
    { rewrite Euri at 1. rewrite length_app. cbn [List.length]. lia. }
    rewrite Hlen.
    assert (Hhl : (List.length h =? 0) = false).
    { apply Nat.eqb_neq. destruct h; [now elim Hne | discriminate]. }
    destruct Hui as [->|(u & -> & Hu)].
    + cbn [app] in *.
      rewrite (scan_run uri h tail _ 0 None Hr Hh).
      rewrite scan_stop.
      * cbn [Nat.add]. rewrite Hhl, Hr, Ev. cbn [negb].
        now rewrite (strndup_host _ _ Ev).
      * replace (List.length pre + 2 + List.length h)
          with (List.length h + (List.length pre + 2)) by lia.
        rewrite <- skipn_skipn, Hr. now apply skipn_app_exact.
      * exact Htail.
    + rewrite <- app_assoc in Hr, Hlen |- *.
      rewrite (scan_run uri u _ _ 0 None Hr Hu).
      assert (Hat : skipn (List.length pre + 2 + List.length u) uri
                    = "@"%char :: h ++ tail).
      { replace (List.length pre + 2 + List.length u)
          with (List.length u + (List.length pre + 2)) by lia.
        rewrite <- skipn_skipn, Hr. now apply skipn_app_exact. }
      cbn [app List.length].
      rewrite (scan_at uri _ _ _ Hat).
      destruct (skipn_cons_nth _ _ _ _ Hat) as [_ Hh'].
      rewrite (scan_run uri h tail _ 0 _ Hh' Hh).
      rewrite scan_stop.
      * cbn [Nat.add]. rewrite Hhl.
        replace (List.length pre + 2 + List.length u + 1)
          with (S (List.length pre + 2 + List.length u)) by lia.
        rewrite Hh', Ev. cbn [negb]. now rewrite (strndup_host _ _ Ev).
      * replace (S (List.length pre + 2 + List.length u) + List.length h)
          with (List.length h + S (List.length pre + 2 + List.length u))
          by lia.
        rewrite <- skipn_skipn, Hh'. now apply skipn_app_exact.
      * exact Htail.
Qed.

(** C9: every byte span that [x509_constraints_valid_host] accepts is
    accepted by [x509_constraints_valid_domain]. *)
Theorem valid_host_valid_domain (name : list ascii) (len : nat) :
  x509_constraints_valid_host name len = true ->
  x509_constraints_valid_domain name len = true.
Proof.
  unfold X509.x509_constraints_valid_host, x509_constraints_valid_domain.
  destruct (len =? 0); [discriminate|].
  destruct (byte_at name 0 =? "*")%char; [discriminate|].
  destruct (byte_at name 0 =? ".")%char; [discriminate|].
  rewrite andb_false_r.
  destruct (inet_pton AF_INET (cstr name) =? 1)%Z; [discriminate|].
  destruct (inet_pton AF_INET6 (cstr name) =? 1)%Z; [discriminate|].
  trivial.
Qed.

(** While no '@' is met the loop of the parser finds no local part. *)
Lemma mailbox_loop_without_at candidate len fuel : forall i st,
  (forall j, i <= j < i + fuel -> byte_at candidate j <> "@"%char) ->
  candidate_local st = None ->
  match mailbox_loop candidate len fuel i st with
  | Some st' => candidate_local st' = None
  | None => True
  end.
Proof.
  induction fuel as [|fuel IH]; intros i st Hat Hl; [exact Hl|].
  cbn [mailbox_loop]. rewrite Hl.
  assert (Hc : (byte_at candidate i =? "@")%char = false)
    by (apply Ascii.eqb_neq, Hat; lia).
  assert (Hat' : forall j, S i <= j < S i + fuel ->
                           byte_at candidate j <> "@"%char)
    by (intros j Hj; apply Hat; lia).
  rewrite Hc.
  destruct (negb (isascii (byte_at candidate i)) || _ || _ || _); [exact I|].
  destruct ((i =? 0) && (byte_at candidate i =? ".")%char); [exact I|].
  destruct (DOMAIN_PART_MAX_LEN <? _); [exact I|].
  destruct (accept st); [apply IH; [exact Hat' | reflexivity]|].
  destruct (LOCAL_PART_MAX_LEN <? _); [reflexivity|].
  destruct (if (i =? 0) && _ then true else quoted st).
  - destruct (byte_at candidate i =? BACKSLASH)%char;
      [apply IH; [exact Hat' | reflexivity]|].
    destruct (_ && _ && _); [exact I|].
    destruct (byte_at candidate i =? HT)%char; [exact I|].
    apply IH; [exact Hat' | reflexivity].
  - destruct (_ && _); [exact I|].
    destruct (negb (local_part_ok (byte_at candidate i))); [exact I|].
    apply IH; [exact Hat' | reflexivity].
Qed.

(** A candidate without '@' is not a mailbox. *)
Lemma parse_mailbox_without_at candidate len nm :
  (forall j, j < len -> byte_at candidate j <> "@"%char) ->
  fst (x509_constraints_parse_mailbox (Some candidate) len nm) = false.
Proof.
  intros Hat. unfold X509.x509_constraints_parse_mailbox, mailbox_parts.
  destruct (LOCAL_PART_MAX_LEN + DOMAIN_PART_MAX_LEN + 1 <? len);
    [reflexivity|].
  pose proof (mailbox_loop_without_at candidate len len 0 mailbox_init
                ltac:(intros j Hj; apply Hat; lia) eq_refl) as H.
  destruct (mailbox_loop candidate len len 0 mailbox_init) as [st|];
    [|reflexivity].
  now rewrite H.
Qed.

(** C7: when [x509_constraints_parse_mailbox] returns 0 the record behind
    [name] is as it was: no field is written on a failing call. *)
Theorem parse_mailbox_failure_keeps_name
    (candidate : option (list ascii)) (len : nat)
    (nm : x509_constraints_name) :
  fst (x509_constraints_parse_mailbox candidate len nm) = false ->
  snd (x509_constraints_parse_mailbox candidate len nm) = nm.
Proof.
  unfold X509.x509_constraints_parse_mailbox.
  destruct candidate as [candidate|]; [|reflexivity].
  destruct (mailbox_parts inet_pton candidate len) as [[l d]|];
    simpl; [discriminate | reflexivity].
Qed.

(** The authority of pre "//" userinfo h tail, and its parts. *)
Lemma authority_after_host h tail :
  Forall scanned h -> host_ends tail ->
  exists A', take_until authority_end (h ++ tail) = h ++ A' /\
    (A' = [] \/ exists b, A' = ":"%char :: b).
Proof.
  intros Hh Htail.
  rewrite take_until_app
    by (eapply Forall_impl; [|exact Hh]; intros c Hc; now apply scanned_authority).
  destruct Htail as [->|(t & tl & -> & Ht)].
  - exists []. split; [reflexivity | now left].
  - destruct (authority_end t) eqn:Ea.
    + exists []. rewrite (take_until_stop _ _ _ Ea). split; [reflexivity | now left].
    + pose proof (terminator_colon t Ht Ea) as ->.
      exists (":"%char :: take_until authority_end tl).
      split; [reflexivity|]. right. now eexists.
Qed.

Lemma host_of_authority h A' :
  Forall scanned h -> (A' = [] \/ exists b, A' = ":"%char :: b) ->
  take_until uri_terminator (h ++ A') = h.
Proof.
  intros Hh HA.
  rewrite take_until_app
    by (eapply Forall_impl; [|exact Hh]; intros c Hc; now apply scanned_terminator).
  destruct HA as [->|(b & ->)]; cbn; now rewrite app_nil_r.
Qed.

Lemma scanned_no_at h : Forall scanned h -> ~ In "@"%char h.
Proof.
  intros Hh Hin. rewrite Forall_forall in Hh.
  destruct (Hh _ Hin) as [_ Hc]. discriminate Hc.
Qed.

Lemma authority_parts ui h tail :
  (ui = [] \/ exists u, ui = u ++ ["@"%char] /\ Forall scanned u) ->
  Forall scanned h -> host_ends tail ->
  (forall a b, take_until authority_end (ui ++ h ++ tail)
               = a ++ ":"%char :: b -> ~ In "@"%char b) ->
  userinfo_prefix (take_until authority_end (ui ++ h ++ tail)) = ui /\
  host_substring (take_until authority_end (ui ++ h ++ tail)) = h /\
  count_char "@" (take_until authority_end (ui ++ h ++ tail)) <= 1.
Proof.
  intros Hui Hh Htail.
  destruct (authority_after_host h tail Hh Htail) as (A' & EA & HA').
  pose proof (scanned_no_at h Hh) as Hnh.
  destruct Hui as [->|(u & -> & Hu)].
  - cbn [app]. rewrite EA. intros Hcolon.
    assert (Hno : ~ In "@"%char (h ++ A')).
    { intros Hin. apply in_app_or in Hin. destruct Hin as [Hin|Hin];
        [now apply Hnh|].
      destruct HA' as [->|(b & ->)]; [exact Hin|].
      destruct Hin as [Hin|Hin]; [discriminate Hin|].
      now apply (Hcolon h b eq_refl). }
    unfold userinfo_prefix, host_substring.
    rewrite (proj2 (split_at_none _ _) Hno).
    split; [reflexivity|]. split; [now apply host_of_authority|].
    rewrite (proj2 (count_char_zero _ _) Hno). lia.
  - rewrite <- app_assoc. cbn [app].
    rewrite take_until_app
      by (eapply Forall_impl; [|exact Hu]; intros c Hc;
          now apply scanned_authority).
    cbn [take_until].
    replace (authority_end "@"%char) with false by reflexivity.
    rewrite EA. intros Hcolon.
    assert (Hno : ~ In "@"%char (h ++ A')).
    { intros Hin. apply in_app_or in Hin. destruct Hin as [Hin|Hin];
        [now apply Hnh|].
      destruct HA' as [->|(b & ->)]; [exact Hin|].
      destruct Hin as [Hin|Hin]; [discriminate Hin|].
      apply (Hcolon (u ++ "@"%char :: h) b); [|exact Hin].
      now rewrite <- app_assoc. }
    assert (Es : split_at "@" (u ++ "@"%char :: h ++ A') = Some (u, h ++ A')).
    { apply split_at_some. split; [reflexivity | now apply scanned_no_at]. }
    unfold userinfo_prefix, host_substring. rewrite Es.
    split; [reflexivity|]. split; [now apply host_of_authority|].
    rewrite count_char_app, count_char_cons_same.
    rewrite (proj2 (count_char_zero _ _) Hno).
    rewrite (proj2 (count_char_zero _ _) (scanned_no_at u Hu)). lia.
Qed.

Lemma scanned_ascii s : Forall scanned s -> Forall (fun c => isascii c = true) s.
Proof. intros H. eapply Forall_impl; [|exact H]. now intros c [Hc _]. Qed.

Lemma authority_decompose rest :
  (forall a b, take_until authority_end rest = a ++ ":"%char :: b ->
               ~ In "@"%char b) ->
  count_char "@" (take_until authority_end rest) <= 1 ->
  Forall (fun c => isascii c = true)
    (userinfo_prefix (take_until authority_end rest)
     ++ host_substring (take_until authority_end rest)) ->
  exists tail,
    rest = userinfo_prefix (take_until authority_end rest)
           ++ host_substring (take_until authority_end rest) ++ tail /\
    (userinfo_prefix (take_until authority_end rest) = [] \/
     exists u, userinfo_prefix (take_until authority_end rest)
               = u ++ ["@"%char] /\ Forall scanned u) /\
    Forall scanned (host_substring (take_until authority_end rest)) /\
    host_ends tail.
Proof.
  destruct (take_until_split authority_end rest) as (R & Erest & HA & HR).
  set (A := take_until authority_end rest) in *.
  intros Hcolon Hcount Hascii.
  assert (HRends : R = [] \/ exists t tl, R = t :: tl /\ uri_terminator t = true).
  { destruct HR as [->|(t & tl & -> & Ht)]; [now left|].
    right. exists t, tl. split; [reflexivity|].
    now apply authority_end_terminator. }
  unfold userinfo_prefix, host_substring in *.
  destruct (split_at "@" A) as [[u X]|] eqn:Es.
  - apply split_at_some in Es. destruct Es as [EA Hnu].
    assert (HnX : ~ In "@"%char X).
    { apply count_char_zero. rewrite EA, count_char_app, count_char_cons_same
        in Hcount. lia. }
    destruct (take_until_split uri_terminator X) as (X2 & EX & Hh & HX2).
    set (h := take_until uri_terminator X) in *.
    exists (X2 ++ R). split; [|split; [|split]].
    + rewrite Erest at 1. rewrite EA, EX.
      repeat (rewrite <- app_assoc; cbn [app]). reflexivity.
    + right. exists u. split; [reflexivity|].
      apply Forall_forall. intros c Hc. split.
      * rewrite Forall_forall in Hascii. apply Hascii.
        apply in_or_app. left. apply in_or_app. now left.
      * unfold host_char. apply andb_true_iff. split.
        -- apply negb_true_iff, Ascii.eqb_neq. intros ->. contradiction.
        -- apply negb_true_iff.
           destruct (uri_terminator c) eqn:Et; [|reflexivity]. exfalso.
           assert (Hae : authority_end c = false).
           { rewrite Forall_forall in HA. apply HA. rewrite EA.
             apply in_or_app. now left. }
           pose proof (terminator_colon c Et Hae) as ->.
           destruct (in_split _ _ Hc) as (a & b & Eu).
           apply (Hcolon a (b ++ "@"%char :: X)).
           ++ rewrite EA, Eu, <- app_assoc. reflexivity.
           ++ apply in_or_app. right. now left.
    + apply Forall_forall. intros c Hc. split.
      * rewrite Forall_forall in Hascii. apply Hascii.
        apply in_or_app. now right.
      * unfold host_char. apply andb_true_iff. split.
        -- apply negb_true_iff, Ascii.eqb_neq. intros ->. apply HnX.
           rewrite EX. apply in_or_app. now left.
        -- apply negb_true_iff. rewrite Forall_forall in Hh. now apply Hh.
    + destruct HX2 as [->|(t & tl & -> & Ht)]; [exact HRends|].
      right. exists t, (tl ++ R). now split.
  - pose proof (proj1 (split_at_none _ _) Es) as HnA.
    destruct (take_until_split uri_terminator A) as (A2 & EA & Hh & HA2).
    set (h := take_until uri_terminator A) in *.
    exists (A2 ++ R). split; [|split; [|split]].
    + cbn [app]. rewrite Erest at 1. rewrite EA at 1.
      now rewrite <- app_assoc.
    + now left.
    + apply Forall_forall. intros c Hc. split.
      * rewrite Forall_forall in Hascii. now apply Hascii.
      * unfold host_char. apply andb_true_iff. split.
        -- apply negb_true_iff, Ascii.eqb_neq. intros ->. apply HnA.
           rewrite EA. apply in_or_app. now left.
        -- apply negb_true_iff. rewrite Forall_forall in Hh. now apply Hh.
    + destruct HA2 as [->|(t & tl & -> & Ht)]; [exact HRends|].
      right. exists t, (tl ++ R). now split.
Qed.

(** What the extractor does on a span in whose authority no '@' follows
    the first ':': it succeeds exactly when the span is at least 3 bytes,
    contains "//", every byte up to the end of the host is ASCII, the
    authority (what follows the first "//", up to the next '/', '?' or
    '#') holds at most one '@', and the host substring (after the
    optional userinfo and its '@', up to the first ':', '/', '?' or '#')
    is not empty and [x509_constraints_valid_host] returns 1 on it where
    it lies in the span, with the host's length; the returned host is
    that substring.  The validator's address test reads on behind the
    host there, and a span with an '@' behind the first ':' is not
    covered: the evaluated cases below show both. *)
Lemma uri_host_by_authority (uri : list ascii) :
  (forall A, uri_authority uri = Some A -> no_at_behind_colon A) ->
  forall h,
  x509_constraints_uri_host inet_pton uri (List.length uri) = Some h <->
  3 <= List.length uri /\
  exists pre rest,
    uri = pre ++ "/"%char :: "/"%char :: rest /\
    after_slashes (pre ++ ["/"%char]) = None /\
    Forall (fun c => isascii c = true)
      (pre ++ userinfo_prefix (authority_of rest)
           ++ host_substring (authority_of rest)) /\
    count_char "@" (authority_of rest) <= 1 /\
    host_substring (authority_of rest) <> [] /\
    x509_constraints_valid_host
      (skipn (List.length (userinfo_prefix (authority_of rest))) rest)
      (List.length (host_substring (authority_of rest))) = true /\
    h = host_substring (authority_of rest).
Proof.
  intros Hauth h.
  assert (Hcolon : forall pre rest,
             uri = pre ++ "/"%char :: "/"%char :: rest ->
             after_slashes (pre ++ ["/"%char]) = None ->
             forall a b, authority_of rest = a ++ ":"%char :: b ->
                         ~ In "@"%char b).
  { intros pre rest Euri Hfirst. apply no_at_behind_colon_all.
    apply Hauth. unfold uri_authority.
    now rewrite Euri, (after_slashes_first pre rest Hfirst). }
  unfold authority_of in *.
  rewrite uri_host_decomposition. split.
  - intros (pre & ui & tail & Euri & Hfirst & Hpre & Hui & Hh & Hne
            & Htail & Ev).
    split.
    { rewrite Euri, length_app. cbn [List.length]. rewrite !length_app.
      destruct h; [now elim Hne | cbn [List.length]; lia]. }
    exists pre, (ui ++ h ++ tail).
    destruct (authority_parts ui h tail Hui Hh Htail
                (Hcolon pre _ Euri Hfirst)) as (Eu & Eh & Hc).
    rewrite Eu, Eh.
    split; [exact Euri|]. split; [exact Hfirst|]. split.
    { apply Forall_app. split; [exact Hpre|]. apply Forall_app. split.
      - destruct Hui as [->|(u & -> & Hu)]; [constructor|].
        apply Forall_app. split; [now apply scanned_ascii|].
        constructor; [reflexivity | constructor].
      - now apply scanned_ascii. }
    split; [exact Hc|]. split; [exact Hne|]. split; [|reflexivity].
    now rewrite skipn_app_exact.
  - intros (H3 & pre & rest & Euri & Hfirst & Hascii & Hc & Hne & Ev & ->).
    apply Forall_app in Hascii. destruct Hascii as [Hpre Hascii].
    destruct (authority_decompose rest (Hcolon pre rest Euri Hfirst) Hc Hascii)
      as (tail & Erest & Hui & Hh & Htail).
    exists pre, (userinfo_prefix (take_until authority_end rest)), tail.
    split; [now rewrite <- Erest|]. split; [exact Hfirst|].
    split; [exact Hpre|]. split; [exact Hui|]. split; [exact Hh|].
    split; [exact Hne|]. split; [exact Htail|].
    set (ui := userinfo_prefix (take_until authority_end rest)) in *.
    set (hs := host_substring (take_until authority_end rest)) in *.
    pose proof (f_equal (skipn (List.length ui)) Erest) as Esk.
    rewrite skipn_app_exact in Esk by reflexivity.
    now rewrite <- Esk.
Qed.

(** A span without "//" has no host. *)
Lemma after_slashes_app p r :
  after_slashes (p ++ "/"%char :: "/"%char :: r) <> None.
Proof.
  induction p as [|c p IH]; [discriminate|].
  cbn [app after_slashes].
  destruct (p ++ "/"%char :: "/"%char :: r) as [|c2 q] eqn:E.
  - now destruct p.
  - destruct ((c =? "/")%char && (c2 =? "/")%char); [discriminate|].
    exact IH.
Qed.

Lemma uri_host_without_slashes uri :
  after_slashes uri = None ->
  x509_constraints_uri_host inet_pton uri (List.length uri) = None.
Proof.
  intros Hno. unfold X509.x509_constraints_uri_host.
  destruct (List.length uri <? 3); [reflexivity|].
  destruct (find_authority uri (List.length uri - 1) 0) as [a|] eqn:Ef;
    [|reflexivity].
  destruct (find_authority_sound uri uri 0 a eq_refl Ef)
    as (p & r & Euri & _).
  exfalso. rewrite Euri in Hno. now apply (after_slashes_app p r).
Qed.

Section Chain.

Variable X509_VERIFY_MAX_CHAIN_NAMES : nat.
Variable X509_VERIFY_MAX_CHAIN_CONSTRAINTS : nat.

#[local] Abbreviation x509_constraints_chain :=
  (x509_constraints_chain X509_VERIFY_MAX_CHAIN_NAMES
     X509_VERIFY_MAX_CHAIN_CONSTRAINTS inet_pton).

(** C6: [x509_constraints_chain] returns 0 for a NULL chain and for a
    chain of length 0 (error unspecified, depth 0); for a chain of length 1
    it returns 1, leaves the error and depth cells alone and has called
    neither the extraction of names or constraints nor the check. *)
Theorem chain_short_lengths (cert : option X509)
    (error : verify_error) (depth : Z) :
  x509_constraints_chain None error depth
    = Some {| ret := false; X509.error := X509_V_ERR_UNSPECIFIED;
              X509.depth := 0; calls := [] |} /\
  x509_constraints_chain (Some []) error depth
    = Some {| ret := false; X509.error := X509_V_ERR_UNSPECIFIED;
              X509.depth := 0; calls := [] |} /\
  x509_constraints_chain (Some [cert]) error depth
    = Some {| ret := true; X509.error := error; X509.depth := depth;
              calls := [] |}.
Proof. repeat split. Qed.

End Chain.

End Libc.

(** ** The matcher *)

Lemma sandns_iff n cs :
  no_nul n ->
  x509_constraints_sandns n (List.length n) cs (List.length cs) = true <->
  cs = [] \/ exists p s, n = p ++ s /\ ci_eq s cs.
Proof.
  intros Hn. unfold x509_constraints_sandns.
  destruct (Nat.eqb_spec (List.length cs) 0) as [E0|E0].
  - apply length_zero_iff_nil in E0. tauto.
  - destruct (Nat.ltb_spec (List.length n) (List.length cs)) as [Hlt|Hge].
    + split; [discriminate|]. intros [->|(p & s & -> & Hci)].
      * now elim E0.
      * apply ci_eq_length in Hci. rewrite length_app in Hlt. lia.
    + rewrite Z.eqb_eq.
      rewrite strncasecmp_zero_iff
        by (rewrite ?length_skipn; try lia; now apply no_nul_skipn).
      split.
      * intros H. right.
        exists (firstn (List.length n - List.length cs) n),
               (skipn (List.length n - List.length cs) n).
        split; [symmetry; apply firstn_skipn | exact H].
      * intros [->|(p & s & -> & Hci)]; [now elim E0|].
        pose proof (ci_eq_length _ _ Hci) as Hl.
        rewrite skipn_app_exact; [exact Hci|].
        rewrite length_app. lia.
Qed.

(** C2: for a DNS name and a DNS constraint the matcher returns 1 exactly
    when the constraint is empty or equals, up to case, a suffix of the
    name; where the suffix starts in the name plays no role. *)
Theorem match_dns_suffix (nm c : x509_constraints_name) (n cs : list ascii) :
  type nm = GEN_DNS -> type c = GEN_DNS ->
  name nm = Some n -> name c = Some cs ->
  no_nul n -> no_nul cs ->
  exists b, x509_constraints_match nm c = Some b /\
    (b = true <-> cs = [] \/ exists p s, n = p ++ s /\ ci_eq s cs).
Proof.
  intros Tn Tc Nn Nc Hn Hc. unfold x509_constraints_match.
  rewrite Tn, Tc, Nn, Nc. cbn [Z.eqb GEN_DNS negb Pos.eqb].
  rewrite (strlen_no_nul n Hn), (strlen_no_nul cs Hc).
  eexists. split; [reflexivity|]. now apply sandns_iff.
Qed.

(** C3 (amended): for an email name and an email constraint that carries a
    local part the matcher returns 1 exactly when the local parts are
    equal byte for byte and the domain parts are equal byte for byte. *)
Theorem match_email_local_exact (nm c : x509_constraints_name)
    (nl cl n cs : list ascii) :
  type nm = GEN_EMAIL -> type c = GEN_EMAIL ->
  local nm = Some nl -> local c = Some cl ->
  name nm = Some n -> name c = Some cs ->
  no_nul nl -> no_nul cl -> no_nul n -> no_nul cs ->
  exists b, x509_constraints_match nm c = Some b /\
    (b = true <-> nl = cl /\ n = cs).
Proof.
  intros Tn Tc Ln Lc Nn Nc Hnl Hcl Hn Hc. unfold x509_constraints_match.
  rewrite Tn, Tc, Ln, Lc, Nn, Nc. cbn [Z.eqb GEN_EMAIL negb Pos.eqb].
  pose proof (strcmp_zero_iff nl cl Hnl Hcl) as Hl.
  pose proof (strcmp_zero_iff n cs Hn Hc) as Hd.
  destruct (Z.eqb_spec (strcmp nl cl) 0) as [El|El].
  - eexists. split; [reflexivity|]. rewrite Z.eqb_eq. tauto.
  - exists false. split; [reflexivity|]. split; [discriminate|].
    intros [E _]. apply Hl in E. contradiction.
Qed.

(** The matcher reads no NULL pointer on names and constraints whose
    strings are set. *)
Lemma match_defined nm c :
  name_set nm -> constraint_set c -> x509_constraints_match nm c <> None.
Proof.
  unfold name_set, constraint_set, string_type, x509_constraints_match.
  intros [Hn Hl] Hc.
  destruct (Z.eqb_spec (type nm) (type c)) as [E|E]; [|discriminate].
  rewrite <- E in Hc. cbn [negb].
  destruct (Z.eqb_spec (type nm) GEN_DNS) as [Ed|Ed].
  { rewrite orb_true_l in *. specialize (Hn eq_refl). specialize (Hc eq_refl).
    destruct (name nm); [|now elim Hn]. destruct (name c); [|now elim Hc].
    discriminate. }
  destruct (Z.eqb_spec (type nm) GEN_URI) as [Eu|Eu].
  { rewrite orb_true_r, orb_true_l in *.
    specialize (Hn eq_refl). specialize (Hc eq_refl).
    destruct (name nm); [|now elim Hn]. destruct (name c); [|now elim Hc].
    discriminate. }
  destruct (type nm =? GEN_IPADD)%Z.
  { repeat match goal with
           | |- (if ?b then _ else _) <> None =>
             destruct b; cbv beta iota
           end; discriminate. }
  destruct (Z.eqb_spec (type nm) GEN_EMAIL) as [Ee|Ee].
  { rewrite !orb_true_r in *.
    specialize (Hn eq_refl). specialize (Hc eq_refl). specialize (Hl Ee).
    destruct (name nm); [|now elim Hn]. destruct (name c); [|now elim Hc].
    destruct (local nm); [|now elim Hl].
    destruct (local c); [|discriminate].
    destruct (strcmp _ _ =? 0)%Z; discriminate. }
  destruct (type nm =? GEN_DIRNAME)%Z; discriminate.
Qed.

(** ** The check *)

Lemma matches_same_type nm c : matches nm c -> type c = type nm.
Proof.
  unfold matches, x509_constraints_match.
  destruct (Z.eqb_spec (type nm) (type c)) as [E|E]; [now intros _|].
  discriminate.
Qed.

Lemma check_excluded_spec nm excluded :
  (forall x, In x excluded -> x509_constraints_match nm x <> None) ->
  exists b, check_excluded nm excluded = Some b /\
    (b = true <-> exists x, In x excluded /\ matches nm x).
Proof.
  induction excluded as [|e rest IH]; intros Hdef; cbn [check_excluded].
  - exists false. split; [reflexivity|]. split; [discriminate|].
    intros (x & [] & _).
  - destruct (x509_constraints_match nm e) as [[|]|] eqn:Em.
    + exists true. split; [reflexivity|]. split; [|reflexivity].
      intros _. exists e. split; [now left | exact Em].
    + destruct IH as (b & Eb & Hb); [intros x Hx; apply Hdef; now right|].
      exists b. split; [exact Eb|]. rewrite Hb. split.
      * intros (x & Hx & Mx). exists x. split; [now right | exact Mx].
      * intros (x & [<-|Hx] & Mx).
        -- unfold matches in Mx. congruence.
        -- now exists x.
    + exfalso. apply (Hdef e); [now left | exact Em].
Qed.

Lemma check_permitted_spec nm permitted :
  (forall p, In p permitted -> x509_constraints_match nm p <> None) ->
  forall seen0, exists seen matched,
    check_permitted nm permitted seen0 = Some (seen, matched) /\
    ((matched = 1 /\ 0 < seen /\ exists p, In p permitted /\ matches nm p)
     \/
     (matched = 0 /\ (forall p, In p permitted -> ~ matches nm p) /\
      (seen = 0 <->
       seen0 = 0 /\ ~ exists p, In p permitted /\ type p = type nm))).
Proof.
  induction permitted as [|q rest IH]; intros Hdef seen0;
    cbn [check_permitted].
  - exists seen0, 0. split; [reflexivity|]. right.
    split; [reflexivity|]. split; [intros p []|].
    split; [intros ->; split; [reflexivity | intros (p & [] & _)] | tauto].
  - destruct (x509_constraints_match nm q) as [[|]|] eqn:Em.
    + eexists _, 1. split; [reflexivity|]. left.
      split; [reflexivity|]. split.
      * apply matches_same_type in Em. rewrite Em, Z.eqb_refl. lia.
      * exists q. split; [now left | exact Em].
    + destruct (IH (fun p Hp => Hdef p (or_intror Hp))
                  (if (type q =? type nm)%Z then S seen0 else seen0))
        as (seen & matched & E & H).
      exists seen, matched. split; [exact E|].
      destruct H as [(-> & Hs & p & Hp & Mp) | (-> & Hno & Hseen)].
      * left. split; [reflexivity|]. split; [exact Hs|].
        exists p. split; [now right | exact Mp].
      * right. split; [reflexivity|]. split.
        -- intros p [<-|Hp]; [unfold matches; congruence | now apply Hno].
        -- rewrite Hseen.
           destruct (Z.eqb_spec (type q) (type nm)) as [Et|Et].
           ++ split; [intros [Hz _]; discriminate Hz|].
              intros [_ Hn]. exfalso. apply Hn. exists q.
              split; [now left | exact Et].
           ++ split.
              ** intros [-> Hn]. split; [reflexivity|].
                 intros (p & [<-|Hp] & Tp); [contradiction|].
                 apply Hn. now exists p.
              ** intros [-> Hn]. split; [reflexivity|].
                 intros (p & Hp & Tp). apply Hn. exists p.
                 split; [now right | exact Tp].
    + exfalso. apply (Hdef q); [now left | exact Em].
Qed.

(** C1 (amended): the check fails exactly when some name fails the rule
    (an excluded entry matches it, or a permitted entry of its type
    exists and none matches it); it then reports the first failing name,
    in the order of the collection: excluded violation if an excluded
    entry matches that name, permitted violation otherwise.  On success
    the error cell is untouched. *)
Theorem check_reports_first_failing_name
    (names permitted excluded : x509_constraints_names)
    (error : verify_error) :
  (forall n c, In n names -> In c (permitted ++ excluded) ->
               x509_constraints_match n c <> None) ->
  exists r e,
    x509_constraints_check names permitted excluded error = Some (r, e) /\
    (r = true <-> forall n, In n names -> name_passes permitted excluded n) /\
    (r = true -> e = error) /\
    (r = false ->
     exists pre n post,
       names = pre ++ n :: post /\
       (forall m, In m pre -> name_passes permitted excluded m) /\
       (((exists x, In x excluded /\ matches n x) /\
         e = X509_V_ERR_EXCLUDED_VIOLATION)
        \/
        ((forall x, In x excluded -> ~ matches n x) /\
         (exists p, In p permitted /\ type p = type n) /\
         (forall p, In p permitted -> ~ matches n p) /\
         e = X509_V_ERR_PERMITTED_VIOLATION))).
Proof.
  induction names as [|nm rest IH]; intros Hdef;
    cbn [x509_constraints_check].
  - exists true, error. split; [reflexivity|].
    split; [split; [intros _ n [] | reflexivity]|].
    split; [reflexivity | discriminate].
  - destruct (check_excluded_spec nm excluded) as (bx & Ex & Hx).
    { intros x Hx. apply Hdef; [now left | apply in_or_app; now right]. }
    rewrite Ex. destruct bx.
    + (* an excluded entry matches nm *)
      exists false, X509_V_ERR_EXCLUDED_VIOLATION. split; [reflexivity|].
      destruct (proj1 Hx eq_refl) as (x & Hxin & Mx).
      split; [|split; [discriminate|]].
      * split; [discriminate|]. intros Hall. exfalso.
        destruct (Hall nm (or_introl eq_refl)) as [Hno _].
        now apply (Hno x).
      * intros _. exists [], nm, rest. split; [reflexivity|].
        split; [intros m []|]. left. split; [now exists x | reflexivity].
    + assert (Hnox : forall x, In x excluded -> ~ matches nm x).
      { intros x Hxin Mx.
        assert (false = true); [|discriminate]. apply Hx. now exists x. }
      destruct (check_permitted_spec nm permitted) with (seen0 := 0)
        as (seen & matched & Ep & Hp).
      { intros p Hp. apply Hdef; [now left | apply in_or_app; now left]. }
      rewrite Ep.
      destruct Hp as [(-> & Hs & p & Hpin & Mp) | (-> & Hno & Hseen)].
      * (* a permitted entry matches nm *)
        replace (negb (seen =? 0) && (1 =? 0)) with false
          by (cbn; now rewrite andb_false_r).
        assert (Hpass : name_passes permitted excluded nm).
        { split; [exact Hnox|]. intros _. now exists p. }
        destruct IH as (r & e & E & Hr & He & Hf).
        { intros n c Hn Hc. apply Hdef; [now right | exact Hc]. }
        exists r, e. split; [exact E|]. split; [|split; [exact He|]].
        -- rewrite Hr. split.
           ++ intros H n [<-|Hn]; [exact Hpass | now apply H].
           ++ intros H n Hn. apply H. now right.
        -- intros Hrf. destruct (Hf Hrf) as (pre & n & post & -> & Hpre & Hn).
           exists (nm :: pre), n, post. split; [reflexivity|].
           split; [|exact Hn].
           intros m [<-|Hm]; [exact Hpass | now apply Hpre].
      * destruct (Nat.eqb_spec seen 0) as [Es|Es]; cbn [negb andb Nat.eqb].
        -- (* no permitted entry has the type of nm *)
           assert (Hpass : name_passes permitted excluded nm).
           { split; [exact Hnox|]. intros Hex. exfalso.
             now apply (proj2 (proj1 Hseen Es)). }
           destruct IH as (r & e & E & Hr & He & Hf).
           { intros n c Hn Hc. apply Hdef; [now right | exact Hc]. }
           exists r, e. split; [exact E|]. split; [|split; [exact He|]].
           ++ rewrite Hr. split.
              ** intros H n [<-|Hn]; [exact Hpass | now apply H].
              ** intros H n Hn. apply H. now right.
           ++ intros Hrf.
              destruct (Hf Hrf) as (pre & n & post & -> & Hpre & Hn).
              exists (nm :: pre), n, post. split; [reflexivity|].
              split; [|exact Hn].
              intros m [<-|Hm]; [exact Hpass | now apply Hpre].
        -- (* permitted entries of that type exist and none matches *)
           assert (Hex : exists p, In p permitted /\ type p = type nm).
           { destruct (List.Exists_dec (fun p => type p = type nm) permitted)
               as [Hy|Hn].
             - intros p. apply Z.eq_dec.
             - apply Exists_exists in Hy. exact Hy.
             - exfalso. apply Es. apply Hseen. split; [reflexivity|].
               intros Hy. apply Hn. apply Exists_exists. exact Hy. }
           exists false, X509_V_ERR_PERMITTED_VIOLATION.
           split; [reflexivity|]. split; [|split; [discriminate|]].
           ++ split; [discriminate|]. intros Hall. exfalso.
              destruct (Hall nm (or_introl eq_refl)) as [_ Hperm].
              destruct (Hperm Hex) as (p & Hpin & Mp).
              now apply (Hno p).
           ++ intros _. exists [], nm, rest. split; [reflexivity|].
              split; [intros m []|]. right.
              repeat split; assumption.
Qed.

(** ** Evaluated cases *)

Ltac no_nul_dec := unfold no_nul; repeat constructor; discriminate.

Lemma valid_host_valid_domain_witness :
  x509_constraints_valid_host inet_pton_model (bytes "example.com") 11 = true
  /\ x509_constraints_valid_domain (bytes "example.com") 11 = true.
Proof.
  split; [vm_compute; reflexivity|].
  apply (valid_host_valid_domain inet_pton_model (bytes "example.com") 11).
  vm_compute; reflexivity.
Defined.

Lemma parse_mailbox_failure_keeps_name_witness :
  fst (x509_constraints_parse_mailbox inet_pton_model (Some (bytes "user@")) 5
         x509_constraints_name_new) = false /\
  snd (x509_constraints_parse_mailbox inet_pton_model (Some (bytes "user@")) 5
         x509_constraints_name_new) = x509_constraints_name_new.
Proof.
  split; [vm_compute; reflexivity|].
  apply (parse_mailbox_failure_keeps_name inet_pton_model
           (Some (bytes "user@")) 5 x509_constraints_name_new).
  vm_compute; reflexivity.
Defined.

Lemma match_dns_suffix_witness :
  no_nul (bytes "www.Example.com") /\ no_nul (bytes ".example.COM") /\
  exists b,
    x509_constraints_match (dns_name "www.Example.com")
      (dns_name ".example.COM") = Some b /\
    (b = true <->
     bytes ".example.COM" = [] \/
     exists p s, bytes "www.Example.com" = p ++ s /\
                 ci_eq s (bytes ".example.COM")).
Proof.
  split; [no_nul_dec|]. split; [no_nul_dec|].
  apply (match_dns_suffix (dns_name "www.Example.com")
           (dns_name ".example.COM") (bytes "www.Example.com")
           (bytes ".example.COM"));
    [reflexivity | reflexivity | reflexivity | reflexivity
    | no_nul_dec | no_nul_dec].
Defined.

(** The suffix need not start at a label: "example.com" matches
    "badexample.com"; and "www.example.com" does not match
    "example.org". *)
Example match_dns_inside_label :
  x509_constraints_match (dns_name "badexample.com")
    (dns_name "example.com") = Some true /\
  x509_constraints_match (dns_name "www.example.com")
    (dns_name "example.org") = Some false /\
  x509_constraints_match (dns_name "www.example.com") (dns_name "")
    = Some true.
Proof. repeat split; vm_compute; reflexivity. Qed.

Lemma match_email_local_exact_witness :
  no_nul (bytes "user") /\ no_nul (bytes "example.com") /\
  exists b,
    x509_constraints_match (email_name "user" "example.com")
      (email_name "user" "example.com") = Some b /\
    (b = true <->
     bytes "user" = bytes "user" /\ bytes "example.com" = bytes "example.com").
Proof.
  split; [no_nul_dec|]. split; [no_nul_dec|].
  apply (match_email_local_exact (email_name "user" "example.com")
           (email_name "user" "example.com")
           (bytes "user") (bytes "user")
           (bytes "example.com") (bytes "example.com"));
    [reflexivity | reflexivity | reflexivity | reflexivity | reflexivity
    | reflexivity | no_nul_dec | no_nul_dec | no_nul_dec | no_nul_dec].
Defined.

(** C3, as first stated (domain parts compared up to case), fails:
    "user@EXAMPLE.com" does not match the constraint "user@example.com",
    though the local parts are equal and the domains agree up to case. *)
Lemma match_email_domain_case_sensitive :
  type (email_name "user" "EXAMPLE.com") = GEN_EMAIL /\
  type (email_name "user" "example.com") = GEN_EMAIL /\
  local (email_name "user" "example.com") = Some (bytes "user") /\
  local (email_name "user" "EXAMPLE.com") = Some (bytes "user") /\
  ci_eq (bytes "EXAMPLE.com") (bytes "example.com") /\
  x509_constraints_match (email_name "user" "EXAMPLE.com")
    (email_name "user" "example.com") = Some false.
Proof. repeat split; vm_compute; reflexivity. Qed.

(** C1, as first stated (an excluded violation whenever any name matches
    an excluded entry), fails: the first name has a permitted entry of its
    type and matches none, the second name matches an excluded entry, and
    the check reports a permitted violation. *)
Lemma check_permitted_violation_before_excluded :
  matches (dns_name "c.example") (dns_name "c.example") /\
  In (dns_name "c.example") [dns_name "a.example"; dns_name "c.example"] /\
  x509_constraints_check
    [dns_name "a.example"; dns_name "c.example"]
    [dns_name "b.example"] [dns_name "c.example"] X509_V_OK
  = Some (false, X509_V_ERR_PERMITTED_VIOLATION).
Proof.
  split; [vm_compute; reflexivity|].
  split; [right; left; reflexivity|].
  vm_compute; reflexivity.
Qed.

Lemma check_reports_first_failing_name_witness :
  exists r e,
    x509_constraints_check
      [dns_name "www.example.com"; email_name "user" "example.com"]
      [dns_name ".example.com"] [dns_name ".example.org"] X509_V_OK
    = Some (r, e) /\
    (r = true <->
     forall n,
       In n [dns_name "www.example.com"; email_name "user" "example.com"] ->
       name_passes [dns_name ".example.com"] [dns_name ".example.org"] n) /\
    (r = true -> e = X509_V_OK) /\
    (r = false ->
     exists pre n post,
       [dns_name "www.example.com"; email_name "user" "example.com"]
       = pre ++ n :: post /\
       (forall m, In m pre ->
          name_passes [dns_name ".example.com"] [dns_name ".example.org"] m)
       /\
       (((exists x, In x [dns_name ".example.org"] /\ matches n x) /\
         e = X509_V_ERR_EXCLUDED_VIOLATION)
        \/
        ((forall x, In x [dns_name ".example.org"] -> ~ matches n x) /\
         (exists p, In p [dns_name ".example.com"] /\ type p = type n) /\
         (forall p, In p [dns_name ".example.com"] -> ~ matches n p) /\
         e = X509_V_ERR_PERMITTED_VIOLATION))).
Proof.
  apply (check_reports_first_failing_name
           [dns_name "www.example.com"; email_name "user" "example.com"]
           [dns_name ".example.com"] [dns_name ".example.org"] X509_V_OK).
  intros n c Hn Hc.
  repeat (destruct Hn as [<-|Hn]; [|try contradiction]);
    repeat (destruct Hc as [<-|Hc]; [|try contradiction]);
    vm_compute; discriminate.
Defined.

(** The check on the chains of the spec's end-to-end cases. *)
Example check_cases :
  x509_constraints_check [dns_name "www.example.com"]
    [dns_name ".example.com"] [] X509_V_OK = Some (true, X509_V_OK) /\
  x509_constraints_check [dns_name "www.example.com"]
    [dns_name ".example.org"] [] X509_V_OK
  = Some (false, X509_V_ERR_PERMITTED_VIOLATION) /\
  x509_constraints_check [dns_name "www.example.com"]
    [] [dns_name ".example.com"] X509_V_OK
  = Some (false, X509_V_ERR_EXCLUDED_VIOLATION).
Proof. repeat split; vm_compute; reflexivity. Qed.

(** C5: the extractor breaks the rule at
    "https://user:pw@host.example.com/path".  The authority
    "user:pw@host.example.com" holds one '@'; the host behind the
    userinfo and its '@' is "host.example.com", and
    [x509_constraints_valid_host] accepts it; the rule gives that host.
    [x509_constraints_uri_host] returns "user": its scan ends at the
    first ':', here inside the userinfo, before it meets the '@', so the
    host is taken from the start of the authority, against the comment
    above the function, by which the authority is [userinfo '@'] host
    [: port] and the host starts at the start or after the '@'. *)
Theorem uri_host_userinfo_password :
  uri_authority (bytes "https://user:pw@host.example.com/path")
  = Some (bytes "user:pw@host.example.com") /\
  count_char "@" (bytes "user:pw@host.example.com") = 1 /\
  host_substring (bytes "user:pw@host.example.com")
  = bytes "host.example.com" /\
  x509_constraints_valid_host inet_pton_model (bytes "host.example.com") 16
  = true /\
  x509_constraints_uri_host inet_pton_model
    (bytes "https://user:pw@host.example.com/path") 37
  = Some (bytes "user").
Proof. repeat split; vm_compute; reflexivity. Qed.

(** The same early end of the scan leaves an '@' behind a ':' unseen:
    the call succeeds with host "b", although the authority "a@b:1@c"
    holds two '@' and the loop is written to allow one only. *)
Lemma uri_host_second_at_behind_port :
  uri_authority (bytes "s://a@b:1@c") = Some (bytes "a@b:1@c") /\
  count_char "@" (bytes "a@b:1@c") = 2 /\
  x509_constraints_uri_host inet_pton_model (bytes "s://a@b:1@c") 11
  = Some (bytes "b").
Proof. repeat split; vm_compute; reflexivity. Qed.

Lemma uri_host_by_authority_witness :
  (forall A,
     uri_authority (bytes "https://user@host.example.com:443/path") = Some A ->
     no_at_behind_colon A) /\
  (3 <= List.length (bytes "https://user@host.example.com:443/path") /\
   exists pre rest,
     bytes "https://user@host.example.com:443/path"
     = pre ++ "/"%char :: "/"%char :: rest /\
     after_slashes (pre ++ ["/"%char]) = None /\
     Forall (fun c => isascii c = true)
       (pre ++ userinfo_prefix (authority_of rest)
            ++ host_substring (authority_of rest)) /\
     count_char "@" (authority_of rest) <= 1 /\
     host_substring (authority_of rest) <> [] /\
     x509_constraints_valid_host inet_pton_model
       (skipn (List.length (userinfo_prefix (authority_of rest))) rest)
       (List.length (host_substring (authority_of rest))) = true /\
     bytes "host.example.com" = host_substring (authority_of rest)).
Proof.
  assert (H : forall A,
             uri_authority (bytes "https://user@host.example.com:443/path")
             = Some A -> no_at_behind_colon A).
  { intros A HA. vm_compute in HA. injection HA as <-.
    vm_compute. intros [E|[E|[E|[]]]]; discriminate E. }
  split; [exact H|].
  apply (proj1 (uri_host_by_authority inet_pton_model
                  (bytes "https://user@host.example.com:443/path") H
                  (bytes "host.example.com"))).
  vm_compute; reflexivity.
Defined.

(** The cases of the spec: a userinfo and a port around the host, a
    second '@' before the host ends, no "//", and a mailbox. *)
Example uri_host_cases :
  x509_constraints_uri_host inet_pton_model
    (bytes "https://user@host.example.com:443/path") 38
  = Some (bytes "host.example.com") /\
  x509_constraints_uri_host inet_pton_model (bytes "https://a@b@c/") 14
  = None /\
  x509_constraints_uri_host inet_pton_model (bytes "https:/host/path") 16
  = None /\
  x509_constraints_uri_host inet_pton_model (bytes "//") 2 = None.
Proof. repeat split; vm_compute; reflexivity. Qed.

(** The validator is called on the host where it lies in the span, and
    its address test reads the text up to the end of the span: an address
    that the validator rejects on its own is returned as a host when
    more text follows it. *)
Example uri_host_address_test :
  x509_constraints_valid_host inet_pton_model (bytes "192.0.2.1") 9 = false /\
  x509_constraints_uri_host inet_pton_model (bytes "s://192.0.2.1") 13
  = None /\
  x509_constraints_uri_host inet_pton_model (bytes "s://192.0.2.1/") 14
  = Some (bytes "192.0.2.1").
Proof. repeat split; vm_compute; reflexivity. Qed.

(** A quoted local part keeps its quotes; an unclosed quote fails. *)
Example parse_mailbox_quoted :
  mailbox_parts inet_pton_model
    (DQUOTE :: bytes "quoted user" ++ DQUOTE :: bytes "@example.com") 25
  = Some (DQUOTE :: bytes "quoted user" ++ [DQUOTE], bytes "example.com") /\
  mailbox_parts inet_pton_model
    (DQUOTE :: bytes "quoted user@example.com") 24 = None.
Proof. split; vm_compute; reflexivity. Qed.

(** The chains of the spec: a leaf for "www.example.com" under a CA with
    a permitted or an excluded DNS subtree, under a root. *)
Example chain_cases :
  let leaf := cert_with [dNSName (ia5 "www.example.com")] None in
  let ca (p e : list GENERAL_NAME) :=
    cert_with [] (Some {| permittedSubtrees := map subtree_of p;
                          excludedSubtrees := map subtree_of e |}) in
  let root := cert_with [] None in
  let chain_of c := Some [Some leaf; Some c; Some root] in
  x509_constraints_chain 512 512 inet_pton_model
    (chain_of (ca [dNSName (ia5 ".example.com")] [])) X509_V_OK 0
  = Some {| ret := true; error := X509_V_OK; depth := 0;
            calls := [call_extract_names 0; call_extract_constraints 1;
                      call_check 1; call_extract_names 1;
                      call_extract_names 2] |} /\
  x509_constraints_chain 512 512 inet_pton_model
    (chain_of (ca [dNSName (ia5 ".example.org")] [])) X509_V_OK 0
  = Some {| ret := false; error := X509_V_ERR_PERMITTED_VIOLATION;
            depth := 1;
            calls := [call_extract_names 0; call_extract_constraints 1;
                      call_check 1] |} /\
  x509_constraints_chain 512 512 inet_pton_model
    (chain_of (ca [] [dNSName (ia5 ".example.com")])) X509_V_OK 0
  = Some {| ret := false; error := X509_V_ERR_EXCLUDED_VIOLATION;
            depth := 1;
            calls := [call_extract_names 0; call_extract_constraints 1;
                      call_check 1] |}.
Proof. repeat split; vm_compute; reflexivity. Qed.

Example parse_mailbox_cases :
  mailbox_parts inet_pton_model (bytes "user@example.com") 16
  = Some (bytes "user", bytes "example.com") /\
  mailbox_parts inet_pton_model (bytes "user@") 5 = None /\
  mailbox_parts inet_pton_model (bytes "user.example.com") 16 = None /\
  mailbox_parts inet_pton_model (bytes "user@192.0.2.1") 14 = None.
Proof. repeat split; vm_compute; reflexivity. Qed.

End X509Facts.

(* ===================================================================== *)
(** * Part V: further properties of the word primitives *)
(* ===================================================================== *)

Module BnExtra.
Import Bn BnFacts.
Local Open Scope Z_scope.

Section WordExtra.

Variable BN_BITS4 : Z.
Hypothesis BN_BITS4_pos : 0 < BN_BITS4.

#[local] Abbreviation W := (BN_BITS2 BN_BITS4).
#[local] Abbreviation word := (word BN_BITS4).
#[local] Abbreviation ulong := (ulong BN_BITS4).
#[local] Abbreviation top := (top BN_BITS4).
#[local] Abbreviation B := (2 ^ BN_BITS4).

Lemma ones_W : BN_MASK2 BN_BITS4 = 2 ^ W - 1.
Proof. unfold BN_MASK2. rewrite Z.ones_equiv. lia. Qed.

Lemma ulong_minus_one : ulong (-1) = 2 ^ W - 1.
Proof.
  rewrite (ulong_mod BN_BITS4 BN_BITS4_pos).
  pose proof (pow_W_pos BN_BITS4 BN_BITS4_pos).
  symmetry. apply (Z.mod_unique_pos _ _ (-1)); lia.
Qed.

Lemma bn_ct_ne_zero_value w :
  word w -> bn_ct_ne_zero BN_BITS4 w = if w =? 0 then 0 else 1.
Proof.
  intros Hw. unfold bn_ct_ne_zero.
  pose proof (pow_W_pos BN_BITS4 BN_BITS4_pos) as HW.
  pose proof (pow_W_half BN_BITS4 BN_BITS4_pos) as Hh.
  rewrite (shr_top BN_BITS4 BN_BITS4_pos)
    by (apply (word_lor BN_BITS4 BN_BITS4_pos);
        [exact Hw | apply (word_ulong BN_BITS4 BN_BITS4_pos)]).
  rewrite (top_lor BN_BITS4), (top_not BN_BITS4 BN_BITS4_pos).
  unfold w_sub.
  pose proof (word_ulong BN_BITS4 BN_BITS4_pos (w - 1)) as Hr.
  rewrite (top_div BN_BITS4 BN_BITS4_pos w Hw).
  rewrite (top_div BN_BITS4 BN_BITS4_pos _ Hr).
  assert (Hp : 0 < 2 ^ (W - 1)) by lia.
  destruct (Z.eqb_spec w 0) as [->|Hnz].
  - cbn [Z.sub Z.add Z.opp Z.pos_sub]. rewrite ulong_minus_one.
    rewrite Z.div_0_l by lia.
    replace ((2 ^ W - 1) / 2 ^ (W - 1)) with 1; [reflexivity|].
    apply (Z.div_unique_pos _ _ 1 (2 ^ (W - 1) - 1)); lia.
  - rewrite (ulong_word BN_BITS4 BN_BITS4_pos (w - 1))
      by (unfold Bn.word in *; lia).
    unfold Bn.word in Hw.
    assert (Hq : w / 2 ^ (W - 1) = 0 \/ w / 2 ^ (W - 1) = 1).
    { assert (0 <= w / 2 ^ (W - 1) < 2); [|lia]. split.
      - apply Z.div_pos; lia.
      - apply Z.div_lt_upper_bound; lia. }
    destruct Hq as [Hq|Hq]; rewrite Hq.
    + assert (Hlt : w < 2 ^ (W - 1)).
      { pose proof (Z.div_mod w (2 ^ (W - 1)) ltac:(lia)) as E.
        pose proof (Z.mod_pos_bound w (2 ^ (W - 1)) Hp). lia. }
      rewrite (Z.div_small (w - 1)) by lia. reflexivity.
    + assert (Hq' : 0 <= (w - 1) / 2 ^ (W - 1) < 2).
      { split; [apply Z.div_pos; lia|].
        apply Z.div_lt_upper_bound; lia. }
      lia.
Qed.

Lemma lor_disjoint x y n :
  0 <= n -> 0 <= y < 2 ^ n -> Z.lor (x * 2 ^ n) y = x * 2 ^ n + y.
Proof.
  intros Hn Hy.
  assert (Hl : Z.land (x * 2 ^ n) y = 0).
  { apply Z.bits_inj'. intros m Hm. rewrite Z.land_spec, Z.bits_0.
    destruct (Z.lt_ge_cases m n) as [Hlt|Hge].
    - now rewrite Z.mul_pow2_bits_low.
    - rewrite <- (Z.mod_small y (2 ^ n)) by exact Hy.
      rewrite Z.mod_pow2_bits_high by lia. apply andb_false_r. }
  rewrite (Z.add_nocarry_lxor _ _ Hl). symmetry. now apply Z.lxor_lor.
Qed.

(** A half-word pair (hi, lo) packed as [(hi << BN_BITS4) | lo]. *)
Lemma pack_halves hi lo :
  0 <= hi < B -> 0 <= lo < B ->
  Z.lor (w_shl BN_BITS4 hi BN_BITS4) lo = hi * B + lo.
Proof.
  intros Hhi Hlo. unfold w_shl.
  rewrite Z.shiftl_mul_pow2 by lia.
  rewrite (ulong_word BN_BITS4 BN_BITS4_pos)
    by (unfold Bn.word; rewrite (pow_W_square BN_BITS4 BN_BITS4_pos); nia).
  apply lor_disjoint; lia.
Qed.

(** One accumulation step of the accumulator based multiply: adding
    [x << BN_BITS4] to the number held in (acc3, acc2, acc1, acc0). *)
Lemma acc_step acc3 acc2 acc1 x :
  0 <= acc3 -> 0 <= acc2 < B -> 0 <= acc1 < B -> word x ->
  acc3 + 2 < 2 ^ W ->
  let a1 := w_add BN_BITS4 acc1 (Z.land x (BN_MASK2l BN_BITS4)) in
  let a2 := w_add BN_BITS4 acc2
              (w_add BN_BITS4 (w_shr a1 BN_BITS4) (w_shr x BN_BITS4)) in
  let a1' := Z.land a1 (BN_MASK2l BN_BITS4) in
  let a3 := w_add BN_BITS4 acc3 (w_shr a2 BN_BITS4) in
  let a2' := Z.land a2 (BN_MASK2l BN_BITS4) in
  0 <= a1' < B /\ 0 <= a2' < B /\ acc3 <= a3 <= acc3 + 2 /\
  (a3 * B + a2') * B + a1' = (acc3 * B + acc2) * B + acc1 + x.
Proof.
  intros H3 H2 H1 Hx Hroom a1 a2 a1' a3 a2'.
  pose proof (B_pos BN_BITS4 BN_BITS4_pos) as HB.
  pose proof (pow_W_square BN_BITS4 BN_BITS4_pos) as HWB.
  pose proof (pow_W_four BN_BITS4 BN_BITS4_pos) as HW4.
  assert (HB2 : 2 <= B) by nia.
  destruct (half_lo BN_BITS4 BN_BITS4_pos x) as [Exl Hxl].
  destruct (half_hi BN_BITS4 BN_BITS4_pos x Hx) as [Exh Hxh].
  pose proof (Z.div_mod x B ltac:(lia)) as Ex.
  assert (Ea1 : a1 = acc1 + x mod B).
  { unfold a1, w_add. rewrite Exl.
    apply (ulong_word BN_BITS4 BN_BITS4_pos). unfold Bn.word. nia. }
  assert (Ha1 : word a1) by (rewrite Ea1; unfold Bn.word; nia).
  destruct (half_hi BN_BITS4 BN_BITS4_pos a1 Ha1) as [Ea1h Ha1h].
  assert (Hc1 : 0 <= a1 / B <= 1).
  { split; [apply Z.div_pos; lia|].
    assert (a1 / B < 2); [|lia]. apply Z.div_lt_upper_bound; lia. }
  assert (Ea2 : a2 = acc2 + (a1 / B + x / B)).
  { unfold a2, w_add. rewrite Ea1h, Exh.
    rewrite (ulong_word BN_BITS4 BN_BITS4_pos (a1 / B + x / B))
      by (unfold Bn.word; nia).
    apply (ulong_word BN_BITS4 BN_BITS4_pos). unfold Bn.word. nia. }
  assert (Ha2 : word a2) by (rewrite Ea2; unfold Bn.word; nia).
  destruct (half_hi BN_BITS4 BN_BITS4_pos a2 Ha2) as [Ea2h Ha2h].
  assert (Hc2 : 0 <= a2 / B <= 1).
  { split; [apply Z.div_pos; lia|].
    assert (a2 / B < 2); [|lia]. apply Z.div_lt_upper_bound; lia. }
  assert (Ea3 : a3 = acc3 + a2 / B).
  { unfold a3, w_add. rewrite Ea2h.
    apply (ulong_word BN_BITS4 BN_BITS4_pos). unfold Bn.word. lia. }
  destruct (half_lo BN_BITS4 BN_BITS4_pos a1) as [Ea1l Ha1l].
  destruct (half_lo BN_BITS4 BN_BITS4_pos a2) as [Ea2l Ha2l].
  fold a1' in Ea1l. fold a2' in Ea2l.
  pose proof (Z.div_mod a1 B ltac:(lia)) as Da1.
  pose proof (Z.div_mod a2 B ltac:(lia)) as Da2.
  rewrite Ea1l, Ea2l, Ea3.
  split; [exact Ha1l|]. split; [exact Ha2l|]. split; [lia|].
  set (q1 := a1 / B) in *. set (r1 := a1 mod B) in *.
  set (q2 := a2 / B) in *. set (r2 := a2 mod B) in *.
  set (xq := x / B) in *. set (xr := x mod B) in *.
  nia.
Qed.

Lemma top_digit_small t r :
  0 <= t -> 0 <= r -> t * (B * B * B) + r < B * B * (B * B) -> t < B.
Proof. pose proof (B_pos BN_BITS4 BN_BITS4_pos). nia. Qed.

Lemma digit_room z : z < B -> z + 2 < 2 ^ W.
Proof.
  rewrite (pow_W_square BN_BITS4 BN_BITS4_pos).
  pose proof (pow_W_four BN_BITS4 BN_BITS4_pos).
  rewrite (pow_W_square BN_BITS4 BN_BITS4_pos) in *.
  pose proof (B_pos BN_BITS4 BN_BITS4_pos). nia.
Qed.

Lemma bn_umul_hilo_acc_spec a b :
  word a -> word b ->
  bn_umul_hilo_acc BN_BITS4 a b = (a * b / 2 ^ W, (a * b) mod 2 ^ W).
Proof.
  intros Ha Hb.
  pose proof (B_pos BN_BITS4 BN_BITS4_pos) as HB.
  pose proof (pow_W_pos BN_BITS4 BN_BITS4_pos) as HW.
  pose proof (pow_W_square BN_BITS4 BN_BITS4_pos) as HWB.
  unfold bn_umul_hilo_acc.
  destruct (half_hi BN_BITS4 BN_BITS4_pos a Ha) as [-> Hah].
  destruct (half_hi BN_BITS4 BN_BITS4_pos b Hb) as [-> Hbh].
  destruct (half_lo BN_BITS4 BN_BITS4_pos a) as [-> Hal].
  destruct (half_lo BN_BITS4 BN_BITS4_pos b) as [-> Hbl].
  destruct (w_mul_half BN_BITS4 BN_BITS4_pos _ _ Hah Hbh) as [-> Hhh].
  destruct (w_mul_half BN_BITS4 BN_BITS4_pos _ _ Hal Hbl) as [-> Hll].
  destruct (w_mul_half BN_BITS4 BN_BITS4_pos _ _ Hah Hbl) as [-> Hhl].
  destruct (w_mul_half BN_BITS4 BN_BITS4_pos _ _ Hbh Hal) as [-> Hlh].
  assert (Hab : a * b
                = (a / B * (b / B) * B
                   + (a / B * (b mod B) + b / B * (a mod B)))
                  * B + a mod B * (b mod B)).
  { rewrite (Z.div_mod a B ltac:(lia)) at 1.
    rewrite (Z.div_mod b B ltac:(lia)) at 1. ring. }
  assert (Hablt : a * b < B * B * (B * B))
    by (unfold Bn.word in Ha, Hb; rewrite HWB in Ha, Hb; nia).
  assert (Hab0 : 0 <= a * b) by (unfold Bn.word in Ha, Hb; nia).
  set (hh := a / B * (b / B)) in *. set (ll := a mod B * (b mod B)) in *.
  set (hl := a / B * (b mod B)) in *. set (lh := b / B * (a mod B)) in *.
  clearbody hh ll hl lh. clear Hah Hbh Hal Hbl Ha Hb.
  destruct (half_lo BN_BITS4 BN_BITS4_pos ll) as [-> H0].
  destruct (half_hi BN_BITS4 BN_BITS4_pos ll Hll) as [-> H1].
  destruct (half_lo BN_BITS4 BN_BITS4_pos hh) as [-> H2].
  destruct (half_hi BN_BITS4 BN_BITS4_pos hh Hhh) as [-> H3].
  rewrite (Z.div_mod ll B ltac:(lia)) in Hab at 1.
  rewrite (Z.div_mod hh B ltac:(lia)) in Hab at 1.
  set (acc0 := ll mod B) in *. set (acc1 := ll / B) in *.
  set (acc2 := hh mod B) in *. set (acc3 := hh / B) in *.
  clearbody acc0 acc1 acc2 acc3.
  destruct (acc_step acc3 acc2 acc1 hl
              ltac:(lia) H2 H1 Hhl (digit_room acc3 ltac:(lia)))
    as (Hs1 & Hs2 & Hs3 & Es).
  set (s1 := Z.land (w_add BN_BITS4 acc1 (Z.land hl (BN_MASK2l BN_BITS4)))
              (BN_MASK2l BN_BITS4)) in *.
  set (s2pre := w_add BN_BITS4 acc2
                  (w_add BN_BITS4
                     (w_shr (w_add BN_BITS4 acc1
                               (Z.land hl (BN_MASK2l BN_BITS4))) BN_BITS4)
                     (w_shr hl BN_BITS4))) in *.
  set (s2 := Z.land s2pre (BN_MASK2l BN_BITS4)) in *.
  set (s3 := w_add BN_BITS4 acc3 (w_shr s2pre BN_BITS4)) in *.
  clearbody s1 s2 s3.
  assert (Hs3B : s3 < B).
  { apply (top_digit_small s3 ((s2 * B + s1) * B + acc0 + lh * B));
      [lia | unfold Bn.word in Hlh; nia | nia]. }
  destruct (acc_step s3 s2 s1 lh
              ltac:(lia) Hs2 Hs1 Hlh (digit_room s3 Hs3B))
    as (Ht1 & Ht2 & Ht3 & Et).
  set (t1 := Z.land (w_add BN_BITS4 s1 (Z.land lh (BN_MASK2l BN_BITS4)))
              (BN_MASK2l BN_BITS4)) in *.
  set (t2pre := w_add BN_BITS4 s2
                  (w_add BN_BITS4
                     (w_shr (w_add BN_BITS4 s1
                               (Z.land lh (BN_MASK2l BN_BITS4))) BN_BITS4)
                     (w_shr lh BN_BITS4))) in *.
  set (t2 := Z.land t2pre (BN_MASK2l BN_BITS4)) in *.
  set (t3 := w_add BN_BITS4 s3 (w_shr t2pre BN_BITS4)) in *.
  clearbody t1 t2 t3.
  assert (Etot : a * b = ((t3 * B + t2) * B + t1) * B + acc0) by nia.
  assert (Ht3B : 0 <= t3 < B).
  { split; [lia|].
    apply (top_digit_small t3 ((t2 * B + t1) * B + acc0)); nia. }
  rewrite (pack_halves t3 t2 Ht3B Ht2), (pack_halves t1 acc0 Ht1 H0).
  assert (E : a * b = 2 ^ W * (t3 * B + t2) + (t1 * B + acc0))
    by (rewrite HWB; lia).
  assert (Hlo : 0 <= t1 * B + acc0 < 2 ^ W) by (rewrite HWB; nia).
  f_equal.
  - apply (Z.div_unique_pos _ _ _ _ Hlo E).
  - apply (Z.mod_unique_pos _ _ _ _ Hlo E).
Qed.

Section Flag.
Variable BN_LLONG : bool.

#[local] Abbreviation bn_addw := (bn_addw BN_BITS4 BN_LLONG).
#[local] Abbreviation bn_umul_hilo := (bn_umul_hilo BN_BITS4 BN_LLONG).

(** X1: on every word [w], [bn_ct_ne_zero] is 1 exactly when [w] is not
    zero and [bn_ct_eq_zero] is 1 exactly when [w] is zero; the two masks
    are all ones in those cases and 0 otherwise. *)
Theorem bn_ct_zero_tests w :
  word w ->
  bn_ct_ne_zero BN_BITS4 w = (if w =? 0 then 0 else 1) /\
  bn_ct_eq_zero BN_BITS4 w = (if w =? 0 then 1 else 0) /\
  bn_ct_ne_zero_mask BN_BITS4 w = (if w =? 0 then 0 else BN_MASK2 BN_BITS4) /\
  bn_ct_eq_zero_mask BN_BITS4 w = (if w =? 0 then BN_MASK2 BN_BITS4 else 0).
Proof.
  intros Hw. unfold bn_ct_eq_zero_mask, bn_ct_ne_zero_mask, bn_ct_eq_zero.
  rewrite (bn_ct_ne_zero_value w Hw), ones_W.
  pose proof (pow_W_pos BN_BITS4 BN_BITS4_pos) as HW.
  destruct (w =? 0); cbn [Z.sub Z.add Z.opp Z.pos_sub];
    rewrite ?ulong_minus_one;
    rewrite ?(ulong_word BN_BITS4 BN_BITS4_pos 0) by (unfold Bn.word; lia);
    repeat split; reflexivity.
Qed.

(** X2: [bn_addw] returns the exact sum of two words as (carry, low word)
    with a carry of 0 or 1, with and without [BN_LLONG]. *)
Theorem bn_addw_exact a b :
  word a -> word b ->
  let '(r1, r0) := bn_addw a b in
  (r1 = 0 \/ r1 = 1) /\ word r0 /\ r1 * 2 ^ W + r0 = a + b.
Proof.
  intros Ha Hb. pose proof (pow_W_pos BN_BITS4 BN_BITS4_pos) as HW.
  pose proof (bn_addw_carry_bit BN_BITS4 BN_BITS4_pos BN_LLONG a b Ha Hb) as Hc.
  rewrite (bn_addw_spec BN_BITS4 BN_BITS4_pos BN_LLONG a b Ha Hb) in *.
  cbn [fst] in Hc.
  pose proof (Z.div_mod (a + b) (2 ^ W) ltac:(lia)) as E.
  split; [exact Hc|]. split; [|lia].
  apply Z.mod_pos_bound, HW.
Qed.

(** X3: [bn_subw] returns the difference modulo 2^W with a borrow that is
    1 exactly when a < b. *)
Theorem bn_subw_exact a b :
  word a -> word b ->
  let '(borrow, r0) := bn_subw BN_BITS4 a b in
  borrow = (if a <? b then 1 else 0) /\ word r0 /\
  r0 - borrow * 2 ^ W = a - b.
Proof.
  intros Ha Hb. pose proof (pow_W_pos BN_BITS4 BN_BITS4_pos) as HW.
  rewrite (bn_subw_spec BN_BITS4 BN_BITS4_pos a b Ha Hb).
  pose proof (Z.div_mod (a - b) (2 ^ W) ltac:(lia)) as E.
  pose proof (Z.mod_pos_bound (a - b) (2 ^ W) HW) as Hr.
  set (q := (a - b) / 2 ^ W) in *. set (r := (a - b) mod 2 ^ W) in *.
  assert (Hq : -1 <= q <= 0) by (unfold Bn.word in *; nia).
  split; [|split; [exact Hr | lia]].
  destruct (Z.ltb_spec a b); unfold Bn.word in *; nia.
Qed.

(** X4: [bn_mulw_addw] returns (r1, r0), both words, with
    r1 * 2^W + r0 = a * b + c exactly. *)
Theorem bn_mulw_addw_exact a b c :
  word a -> word b -> word c ->
  let '(r1, r0) := bn_mulw_addw BN_BITS4 BN_LLONG a b c in
  word r1 /\ word r0 /\ r1 * 2 ^ W + r0 = a * b + c.
Proof.
  intros Ha Hb Hc. pose proof (pow_W_pos BN_BITS4 BN_BITS4_pos) as HW.
  rewrite (bn_mulw_addw_spec BN_BITS4 BN_BITS4_pos BN_LLONG a b c Ha Hb Hc).
  pose proof (Z.div_mod (a * b + c) (2 ^ W) ltac:(lia)) as E.
  pose proof (Z.mod_pos_bound (a * b + c) (2 ^ W) HW) as Hr.
  set (q := (a * b + c) / 2 ^ W) in *.
  set (r := (a * b + c) mod 2 ^ W) in *.
  split; [|split; [exact Hr | lia]].
  unfold Bn.word in *. split; nia.
Qed.

(** X5: [bn_umul_hi] and [bn_umul_lo] are the two halves of the product:
    bn_umul_hi a b * 2^W + bn_umul_lo a b = a * b. *)
Theorem bn_umul_hi_lo_product a b :
  word a -> word b ->
  word (bn_umul_hi BN_BITS4 BN_LLONG a b) /\
  word (bn_umul_lo BN_BITS4 a b) /\
  bn_umul_hi BN_BITS4 BN_LLONG a b * 2 ^ W + bn_umul_lo BN_BITS4 a b = a * b.
Proof.
  intros Ha Hb. pose proof (pow_W_pos BN_BITS4 BN_BITS4_pos) as HW.
  unfold bn_umul_hi, bn_umul_lo, w_mul.
  rewrite (bn_umul_hilo_spec BN_BITS4 BN_BITS4_pos BN_LLONG a b Ha Hb).
  rewrite (ulong_mod BN_BITS4 BN_BITS4_pos). cbn [fst].
  pose proof (Z.div_mod (a * b) (2 ^ W) ltac:(lia)) as E.
  pose proof (Z.mod_pos_bound (a * b) (2 ^ W) HW) as Hr.
  set (q := (a * b) / 2 ^ W) in *. set (r := (a * b) mod 2 ^ W) in *.
  split; [|split; [exact Hr | lia]].
  unfold Bn.word in *. split; nia.
Qed.

(** X6: the accumulator based multiply returns the same pair as
    [bn_umul_hilo], with and without [BN_LLONG]. *)
Theorem bn_umul_hilo_acc_agrees a b :
  word a -> word b ->
  bn_umul_hilo_acc BN_BITS4 a b = bn_umul_hilo a b.
Proof.
  intros Ha Hb.
  rewrite (bn_umul_hilo_spec BN_BITS4 BN_BITS4_pos BN_LLONG a b Ha Hb).
  now apply bn_umul_hilo_acc_spec.
Qed.

(** X7: [bn_mulw_addtw] returns (r2, r1, r0), all words, holding
    a * b + (c2:c1:c0) modulo 2^(3W); the result is exact when that sum
    fits three words. *)
Theorem bn_mulw_addtw_exact a b c2 c1 c0 :
  word a -> word b -> word c2 -> word c1 -> word c0 ->
  let '(r2, r1, r0) := bn_mulw_addtw BN_BITS4 BN_LLONG a b c2 c1 c0 in
  word r2 /\ word r1 /\ word r0 /\
  (r2 * 2 ^ W + r1) * 2 ^ W + r0
  = (a * b + ((c2 * 2 ^ W + c1) * 2 ^ W + c0)) mod (2 ^ W * 2 ^ W * 2 ^ W).
Proof.
  intros Ha Hb H2 H1 H0. pose proof (pow_W_pos BN_BITS4 BN_BITS4_pos) as HW.
  unfold bn_mulw_addtw.
  rewrite (bn_umul_hilo_spec BN_BITS4 BN_BITS4_pos BN_LLONG a b Ha Hb).
  pose proof (Z.div_mod (a * b) (2 ^ W) ltac:(lia)) as Eab.
  pose proof (Z.mod_pos_bound (a * b) (2 ^ W) HW) as Hx0.
  set (x1 := (a * b) / 2 ^ W) in *. set (x0 := (a * b) mod 2 ^ W) in *.
  assert (Hx1 : 0 <= x1 <= 2 ^ W - 2).
  { pose proof (pow_W_four BN_BITS4 BN_BITS4_pos) as H4.
    assert (Hsq : 0 <= a * b <= (2 ^ W - 1) * (2 ^ W - 1))
      by (unfold Bn.word in Ha, Hb; nia).
    clearbody x1 x0. clear Ha Hb H2 H1 H0.
    generalize dependent (2 ^ W). intros P HP Eab Hx0 H4 Hsq. nia. }
  rewrite (bn_addw_spec BN_BITS4 BN_BITS4_pos BN_LLONG c0 x0 H0 Hx0).
  pose proof (Z.div_mod (c0 + x0) (2 ^ W) ltac:(lia)) as E0.
  pose proof (Z.mod_pos_bound (c0 + x0) (2 ^ W) HW) as Hr0.
  set (k0 := (c0 + x0) / 2 ^ W) in *. set (r0 := (c0 + x0) mod 2 ^ W) in *.
  assert (Hk0 : 0 <= k0 <= 1) by (unfold Bn.word in *; nia).
  assert (Hx1' : word (x1 + k0)) by (unfold Bn.word; lia).
  replace (w_add BN_BITS4 x1 k0) with (x1 + k0)
    by (unfold w_add; symmetry;
        apply (ulong_word BN_BITS4 BN_BITS4_pos _ Hx1')).
  rewrite (bn_addw_spec BN_BITS4 BN_BITS4_pos BN_LLONG c1 (x1 + k0) H1 Hx1').
  pose proof (Z.div_mod (c1 + (x1 + k0)) (2 ^ W) ltac:(lia)) as E1.
  pose proof (Z.mod_pos_bound (c1 + (x1 + k0)) (2 ^ W) HW) as Hr1.
  set (k1 := (c1 + (x1 + k0)) / 2 ^ W) in *.
  set (r1 := (c1 + (x1 + k0)) mod 2 ^ W) in *.
  assert (Hk1 : 0 <= k1 <= 1) by (unfold Bn.word in *; nia).
  unfold w_add. rewrite (ulong_mod BN_BITS4 BN_BITS4_pos).
  pose proof (Z.div_mod (c2 + k1) (2 ^ W) ltac:(lia)) as E2.
  pose proof (Z.mod_pos_bound (c2 + k1) (2 ^ W) HW) as Hr2.
  set (k2 := (c2 + k1) / 2 ^ W) in *. set (r2 := (c2 + k1) mod 2 ^ W) in *.
  split; [exact Hr2|]. split; [exact Hr1|]. split; [exact Hr0|].
  apply (Z.mod_unique_pos _ _ k2).
  - unfold Bn.word in *. nia.
  - nia.
Qed.

End Flag.
End WordExtra.

Lemma bn_ct_zero_tests_witness :
  0 < 32 /\ word 32 max64 /\
  bn_ct_ne_zero 32 max64 = 1 /\ bn_ct_eq_zero 32 max64 = 0 /\
  bn_ct_ne_zero_mask 32 max64 = BN_MASK2 32 /\
  bn_ct_eq_zero_mask 32 max64 = 0.
Proof.
  split; [lia|]. split; [word_dec|].
  apply (bn_ct_zero_tests 32 ltac:(lia) max64). word_dec.
Defined.

Lemma bn_addw_exact_witness :
  0 < 32 /\ word 32 max64 /\ word 32 2 /\
  (let '(r1, r0) := bn_addw 32 false max64 2 in
   (r1 = 0 \/ r1 = 1) /\ word 32 r0 /\
   r1 * 2 ^ BN_BITS2 32 + r0 = max64 + 2).
Proof.
  split; [lia|]. split; [word_dec|]. split; [word_dec|].
  apply (bn_addw_exact 32 ltac:(lia) false max64 2); word_dec.
Defined.

Lemma bn_subw_exact_witness :
  0 < 32 /\ word 32 2 /\ word 32 max64 /\
  (let '(borrow, r0) := bn_subw 32 2 max64 in
   borrow = (if 2 <? max64 then 1 else 0) /\ word 32 r0 /\
   r0 - borrow * 2 ^ BN_BITS2 32 = 2 - max64).
Proof.
  split; [lia|]. split; [word_dec|]. split; [word_dec|].
  apply (bn_subw_exact 32 ltac:(lia) 2 max64); word_dec.
Defined.

Lemma bn_mulw_addw_exact_witness :
  0 < 32 /\ word 32 max64 /\
  (let '(r1, r0) := bn_mulw_addw 32 false max64 max64 max64 in
   word 32 r1 /\ word 32 r0 /\
   r1 * 2 ^ BN_BITS2 32 + r0 = max64 * max64 + max64).
Proof.
  split; [lia|]. split; [word_dec|].
  apply (bn_mulw_addw_exact 32 ltac:(lia) false max64 max64 max64); word_dec.
Defined.

Lemma bn_umul_hi_lo_product_witness :
  0 < 32 /\ word 32 max64 /\ word 32 12345 /\
  word 32 (bn_umul_hi 32 false max64 12345) /\
  word 32 (bn_umul_lo 32 max64 12345) /\
  bn_umul_hi 32 false max64 12345 * 2 ^ BN_BITS2 32
  + bn_umul_lo 32 max64 12345 = max64 * 12345.
Proof.
  split; [lia|]. split; [word_dec|]. split; [word_dec|].
  apply (bn_umul_hi_lo_product 32 ltac:(lia) false max64 12345); word_dec.
Defined.

Lemma bn_umul_hilo_acc_agrees_witness :
  0 < 32 /\ word 32 max64 /\
  bn_umul_hilo_acc 32 max64 max64 = bn_umul_hilo 32 false max64 max64.
Proof.
  split; [lia|]. split; [word_dec|].
  apply (bn_umul_hilo_acc_agrees 32 ltac:(lia) false max64 max64); word_dec.
Defined.

Lemma bn_mulw_addtw_exact_witness :
  0 < 32 /\ word 32 max64 /\ word 32 5 /\
  (let '(r2, r1, r0) := bn_mulw_addtw 32 false max64 max64 5 max64 max64 in
   word 32 r2 /\ word 32 r1 /\ word 32 r0 /\
   (r2 * 2 ^ BN_BITS2 32 + r1) * 2 ^ BN_BITS2 32 + r0
   = (max64 * max64
      + ((5 * 2 ^ BN_BITS2 32 + max64) * 2 ^ BN_BITS2 32 + max64))
     mod (2 ^ BN_BITS2 32 * 2 ^ BN_BITS2 32 * 2 ^ BN_BITS2 32)).
Proof.
  split; [lia|]. split; [word_dec|]. split; [word_dec|].
  apply (bn_mulw_addtw_exact 32 ltac:(lia) false max64 max64 5 max64 max64);
    word_dec.
Defined.

End BnExtra.

(* ===================================================================== *)
(** * Part VI: further properties of the name constraints *)
(* ===================================================================== *)

Module X509Extra.
Import X509 X509Facts.

(** ** The domain validator *)

(** One iteration of the loop: it goes on exactly when the byte at [i]
    passes the tests. *)
Lemma valid_domain_loop_step_iff name len fuel i c comp :
  valid_domain_loop name len (S fuel) i c comp = true <->
  isascii (byte_at name i) = true /\ byte_at name i <> NUL /\
  domain_char (byte_at name i) = true /\
  (byte_at name i = "*"%char -> i = 0) /\
  (byte_at name i = "-"%char -> comp <> 0 /\ i <> len - 1) /\
  (byte_at name i = "."%char ->
   (comp = 0 -> i = 0) /\ i <> len - 1 /\ c <> "-"%char) /\
  (byte_at name i <> "."%char -> comp < 63) /\
  valid_domain_loop name len fuel (S i) (byte_at name i)
    (if (byte_at name i =? ".")%char then 0 else comp + 1) = true.
Proof.
  cbn [valid_domain_loop]. unfold domain_char.
  generalize (byte_at name i). intros b.
  destruct (isascii b); cbn [negb orb];
    [|split; [discriminate | now intros [H _]]].
  destruct (Ascii.eqb_spec b NUL) as [En|En];
    [split; [discriminate | now intros (_ & H & _)]|].
  destruct (isalnum b);
    destruct (Ascii.eqb_spec b "-") as [Em|Em];
    destruct (Ascii.eqb_spec b ".") as [Edot|Edot];
    destruct (Ascii.eqb_spec b "_") as [Eu|Eu];
    destruct (Ascii.eqb_spec b "*") as [Est|Est];
    cbn [negb andb orb];
    try (exfalso; congruence);
    try (split; [discriminate | now intros (_ & _ & H & _)]);
    destruct (Nat.eqb_spec i 0) as [Ei|Ei];
    destruct (Nat.eqb_spec comp 0) as [Ec|Ec];
    destruct (Nat.eqb_spec i (len - 1)) as [Ee|Ee];
    cbn [negb andb orb];
    try (destruct (Ascii.eqb_spec c "-") as [Ep|Ep]);
    try (destruct (Nat.ltb_spec 63 (comp + 1)) as [Hc|Hc]);
    (split;
     [ intros H; try discriminate H;
       (split; [reflexivity|]); (split; [exact En|]);
       (split; [reflexivity|]);
       (split; [intros; congruence || lia|]);
       (split; [intros; (exfalso; congruence) || (split; lia)|]);
       (split; [intros; (exfalso; congruence)
                        || (split; [lia|split; [lia|assumption]])|]);
       (split; [intros; (exfalso; congruence) || lia|]);
       exact H
     | intros (_ & _ & _ & Hs & Hm & Hd & Hl & Hrec);
       try exact Hrec; exfalso;
       try (specialize (Hs Est)); try (specialize (Hm Em));
       try (specialize (Hd Edot)); try (specialize (Hl Edot));
       intuition (congruence || lia) ]).
Qed.

Lemma valid_domain_loop_step name len fuel i c comp :
  valid_domain_loop name len (S fuel) i c comp = true ->
  isascii (byte_at name i) = true /\ byte_at name i <> NUL /\
  domain_char (byte_at name i) = true /\
  (byte_at name i = "*"%char -> i = 0) /\
  (byte_at name i = "-"%char -> comp <> 0 /\ i <> len - 1) /\
  (byte_at name i = "."%char ->
   (comp = 0 -> i = 0) /\ i <> len - 1 /\ c <> "-"%char) /\
  (byte_at name i <> "."%char -> comp < 63) /\
  valid_domain_loop name len fuel (S i) (byte_at name i)
    (if (byte_at name i =? ".")%char then 0 else comp + 1) = true.
Proof. apply valid_domain_loop_step_iff. Qed.

(** What the loop has checked of every byte it went over, given that
    [c] is the byte before [i] and [comp] counts the bytes since the
    last '.'. *)
Lemma valid_domain_loop_bytes name len fuel : forall i c comp,
  valid_domain_loop name len fuel i c comp = true ->
  (0 < i -> c = byte_at name (i - 1)) ->
  (comp = 0 <-> i = 0 \/ c = "."%char) ->
  forall j, i <= j < i + fuel ->
    isascii (byte_at name j) = true /\ byte_at name j <> NUL /\
    domain_char (byte_at name j) = true /\
    (byte_at name j = "*"%char -> j = 0) /\
    (byte_at name j = "-"%char ->
     0 < j /\ j <> len - 1 /\ byte_at name (j - 1) <> "."%char) /\
    (byte_at name j = "."%char ->
     j <> len - 1 /\
     (0 < j -> byte_at name (j - 1) <> "."%char
               /\ byte_at name (j - 1) <> "-"%char)).
Proof.
  induction fuel as [|fuel IH]; intros i c comp H Hc Hcomp j Hj; [lia|].
  destruct (valid_domain_loop_step _ _ _ _ _ _ H)
    as (Ha & Hn & Hd & Hs & Hm & Hdot & _ & Hrec).
  destruct (Nat.eq_dec j i) as [->|Hne].
  - split; [exact Ha|]. split; [exact Hn|]. split; [exact Hd|].
    split; [exact Hs|]. split.
    + intros E. destruct (Hm E) as [Hc0 He].
      assert (Hi : ~ (i = 0 \/ c = "."%char)) by tauto.
      split; [lia|]. split; [exact He|].
      rewrite <- Hc by lia. tauto.
    + intros E. destruct (Hdot E) as (Hc0 & He & Hp).
      split; [exact He|]. intros Hi. rewrite <- (Hc Hi).
      split; [|exact Hp]. intros Ec. apply proj2 in Hcomp.
      specialize (Hcomp (or_intror Ec)). specialize (Hc0 Hcomp). lia.
  - apply (IH _ _ _ Hrec); [| |lia].
    + intros _. f_equal. lia.
    + destruct (Ascii.eqb_spec (byte_at name i) ".") as [E|E].
      * split; [now right | reflexivity].
      * split; [lia | intros [Hi|Hi]; [lia | contradiction]].
Qed.

(** A component holds 63 bytes at most: any 64 bytes in a row that the
    loop went over hold a '.'. *)
Lemma valid_domain_loop_labels name len fuel : forall i c comp,
  valid_domain_loop name len fuel i c comp = true ->
  comp <= 63 ->
  forall k, i <= k + comp -> k + 64 <= i + fuel ->
    exists j, k <= j < k + 64 /\ byte_at name j = "."%char.
Proof.
  induction fuel as [|fuel IH]; intros i c comp H Hcomp k Hk Hw; [lia|].
  destruct (valid_domain_loop_step _ _ _ _ _ _ H)
    as (_ & _ & _ & _ & _ & _ & Hlt & Hrec).
  destruct (Ascii.eqb_spec (byte_at name i) ".") as [E|E].
  - destruct (Nat.le_gt_cases k i) as [Hle|Hgt].
    + exists i. split; [lia | exact E].
    + apply (IH _ _ _ Hrec); lia.
  - specialize (Hlt E). apply (IH _ _ _ Hrec); lia.
Qed.

(** The loop reads the bytes from [i] to [i + fuel - 1] only. *)
Lemma valid_domain_loop_ext n1 n2 len fuel : forall i c comp,
  (forall j, i <= j < i + fuel -> byte_at n1 j = byte_at n2 j) ->
  valid_domain_loop n1 len fuel i c comp
  = valid_domain_loop n2 len fuel i c comp.
Proof.
  induction fuel as [|fuel IH]; intros i c comp Hext; [reflexivity|].
  cbn [valid_domain_loop]. rewrite (Hext i) by lia.
  rewrite (IH (S i) (byte_at n2 i) 0) by (intros j Hj; apply Hext; lia).
  rewrite (IH (S i) (byte_at n2 i) (comp + 1))
    by (intros j Hj; apply Hext; lia).
  reflexivity.
Qed.

Lemma valid_domain_internal_prefix h tail :
  x509_constraints_valid_domain_internal (h ++ tail) (List.length h)
  = x509_constraints_valid_domain_internal h (List.length h).
Proof.
  unfold x509_constraints_valid_domain_internal.
  destruct (DOMAIN_PART_MAX_LEN <? List.length h); [reflexivity|].
  apply valid_domain_loop_ext. intros j Hj. unfold byte_at.
  apply app_nth1. lia.
Qed.

Lemma valid_domain_internal_bytes (name : list ascii) (len : nat) :
  x509_constraints_valid_domain_internal name len = true ->
  len <= 255 /\
  forall j, j < len ->
    isascii (byte_at name j) = true /\ byte_at name j <> NUL /\
    domain_char (byte_at name j) = true /\
    (byte_at name j = "*"%char -> j = 0) /\
    (byte_at name j = "-"%char ->
     0 < j /\ j <> len - 1 /\ byte_at name (j - 1) <> "."%char) /\
    (byte_at name j = "."%char ->
     j <> len - 1 /\
     (0 < j -> byte_at name (j - 1) <> "."%char
               /\ byte_at name (j - 1) <> "-"%char)).
Proof.
  unfold x509_constraints_valid_domain_internal, DOMAIN_PART_MAX_LEN.
  destruct (Nat.ltb_spec 255 len) as [Hl|Hl]; [discriminate|].
  intros H. split; [exact Hl|]. intros j Hj.
  apply (valid_domain_loop_bytes _ _ _ _ _ _ H); [lia | | lia].
  split; [now left | reflexivity].
Qed.

Lemma domain_char_ascii c :
  domain_char c = true -> isascii c = true /\ c <> NUL.
Proof.
  destruct c as [[] [] [] [] [] [] [] []]; vm_compute; intros H;
    try discriminate H; repeat split; discriminate.
Qed.

(** The loop goes to the end over bytes of the right shape. *)
Lemma valid_domain_loop_complete name len fuel : forall i c comp,
  i + fuel = len ->
  (0 < i -> c = byte_at name (i - 1)) -> (i = 0 -> c <> "-"%char) ->
  comp <= i ->
  (forall j, i - comp <= j < i -> byte_at name j <> "."%char) ->
  (comp = 0 <-> i = 0 \/ c = "."%char) ->
  domain_shape name len ->
  valid_domain_loop name len fuel i c comp = true.
Proof.
  induction fuel as [|fuel IH];
    intros i c comp Hlen Hc Hc0 Hci Hrun Hcomp Hshape; [reflexivity|].
  destruct Hshape as (Hmax & Hb & Hw).
  destruct (Hb i ltac:(lia)) as (Hd & Hs & Hm & Hdot).
  destruct (domain_char_ascii _ Hd) as [Ha Hn].
  apply valid_domain_loop_step_iff.
  split; [exact Ha|]. split; [exact Hn|]. split; [exact Hd|].
  split; [exact Hs|].
  assert (Hlt : byte_at name i <> "."%char -> comp < 63).
  { intros Hnd. destruct (Nat.lt_ge_cases comp 63) as [Hl|Hl]; [exact Hl|].
    exfalso. destruct (Hw (i - 63) ltac:(lia)) as (j & Hj & Ej).
    destruct (Nat.eq_dec j i) as [->|Hne]; [contradiction|].
    apply (Hrun j); [lia | exact Ej]. }
  split.
  { intros E. destruct (Hm E) as (Hi & He & Hp). split; [|exact He].
    intros E0. apply (proj1 Hcomp) in E0 as [E0|E0]; [lia|].
    rewrite (Hc Hi) in E0. contradiction. }
  split.
  { intros E. destruct (Hdot E) as (He & Hp). split.
    - intros E0. destruct (Nat.eq_dec i 0) as [Hi|Hi]; [exact Hi|].
      exfalso. apply (proj1 Hcomp) in E0 as [E0|E0]; [lia|].
      destruct (Hp ltac:(lia)) as [Hp1 _]. rewrite (Hc ltac:(lia)) in E0.
      contradiction.
    - split; [exact He|]. destruct (Nat.eq_dec i 0) as [Hi|Hi];
        [now apply Hc0|].
      rewrite (Hc ltac:(lia)). now apply Hp; lia. }
  split; [exact Hlt|].
  apply IH.
  - lia.
  - intros _. f_equal. lia.
  - intros H. lia.
  - destruct (byte_at name i =? ".")%char; lia.
  - intros j Hj. destruct (Ascii.eqb_spec (byte_at name i) ".") as [E|E];
      [lia|].
    destruct (Nat.eq_dec j i) as [->|Hne]; [exact E | apply Hrun; lia].
  - destruct (Ascii.eqb_spec (byte_at name i) ".") as [E|E].
    + split; [now right | reflexivity].
    + split; [lia | intros [Hi|Hi]; [lia | contradiction]].
  - split; [exact Hmax|]. split; [exact Hb | exact Hw].
Qed.

(** X8: [x509_constraints_valid_domain_internal] accepts a span exactly
    when it has the shape of a domain: 255 bytes at most; every byte
    alphanumeric or one of '-', '.', '_', '*'; a '*' only as the first
    byte; a '-' not first, not last and not behind a '.'; a '.' not last
    and behind neither a '.' nor a '-'; no component longer than 63
    bytes. *)
Theorem valid_domain_internal_iff (name : list ascii) (len : nat) :
  x509_constraints_valid_domain_internal name len = true <->
  domain_shape name len.
Proof.
  split.
  - intros H. destruct (valid_domain_internal_bytes _ _ H) as [Hmax Hb].
    split; [exact Hmax|]. split.
    + intros j Hj. destruct (Hb j Hj) as (_ & _ & Hd & Hs & Hm & Hdot).
      split; [exact Hd|]. split; [exact Hs|]. split; [exact Hm | exact Hdot].
    + unfold x509_constraints_valid_domain_internal in H.
      destruct (DOMAIN_PART_MAX_LEN <? len); [discriminate|].
      intros k Hk. apply (valid_domain_loop_labels _ _ _ _ _ _ H); lia.
  - intros Hshape. unfold x509_constraints_valid_domain_internal.
    destruct (Nat.ltb_spec DOMAIN_PART_MAX_LEN len) as [Hl|Hl].
    { destruct Hshape as [Hmax _]. unfold DOMAIN_PART_MAX_LEN in Hl. lia. }
    apply (valid_domain_loop_complete name len len 0 NUL 0);
      [ lia | intros H; lia | intros _; discriminate | lia
      | intros j Hj; lia | split; [now left | reflexivity] | exact Hshape ].
Qed.

(** X9: a SAN dNSName that [x509_constraints_valid_sandns] accepts is
    not empty and does not start with '.'; a '*' in it is its first
    byte, is followed by '.', and the name is then 4 bytes at least. *)
Theorem valid_sandns_wildcard (name : list ascii) (len : nat) :
  x509_constraints_valid_sandns name len = true ->
  0 < len /\ byte_at name 0 <> "."%char /\
  forall j, j < len -> byte_at name j = "*"%char ->
    j = 0 /\ 4 <= len /\ byte_at name 1 = "."%char.
Proof.
  unfold x509_constraints_valid_sandns.
  destruct (Nat.eqb_spec len 0) as [E0|E0]; [discriminate|].
  destruct (Ascii.eqb_spec (byte_at name 0) ".") as [Ed|Ed]; [discriminate|].
  destruct (Ascii.eqb_spec (byte_at name 0) "*") as [Es|Es];
    rewrite ?andb_true_r, ?andb_false_r; cbn [andb].
  - destruct (Nat.ltb_spec len 4) as [Hl|Hl]; [discriminate|].
    destruct (Nat.leb_spec 4 len) as [Hl'|Hl']; [|lia]. cbn [andb].
    destruct (Ascii.eqb_spec (byte_at name 1) ".") as [E1|E1];
      [|discriminate].
    cbn [negb]. intros H. split; [lia|]. split; [exact Ed|].
    intros j Hj Hstar.
    destruct (valid_domain_internal_bytes _ _ H) as [_ Hb].
    destruct (Hb j Hj) as (_ & _ & _ & H0 & _).
    split; [now apply H0|]. split; [exact Hl | exact E1].
  - intros H. split; [lia|]. split; [exact Ed|].
    intros j Hj Hstar.
    destruct (valid_domain_internal_bytes _ _ H) as [_ Hb].
    destruct (Hb j Hj) as (_ & _ & _ & H0 & _).
    specialize (H0 Hstar). subst j. contradiction.
Qed.

(** The C string at a span of [len] bytes without NUL that a NUL (or
    the end of the buffer) follows is the span. *)
Lemma cstr_firstn (name : list ascii) : forall len,
  (forall j, j < len -> byte_at name j <> NUL) ->
  byte_at name len = NUL ->
  cstr name = firstn len name.
Proof.
  induction name as [|x s IH]; intros len Hb Hend.
  - now rewrite firstn_nil.
  - destruct len as [|len].
    + change (x = NUL) in Hend. subst x. reflexivity.
    + cbn [cstr firstn]. destruct (Ascii.eqb_spec x NUL) as [Hx|Hx].
      * exfalso. apply (Hb 0); [lia | exact Hx].
      * f_equal. apply IH; [|exact Hend].
        intros j Hj. apply (Hb (S j)). lia.
Qed.

Section Validators.

Variable inet_pton : Z -> list ascii -> Z.

#[local] Abbreviation x509_constraints_valid_host :=
  (x509_constraints_valid_host inet_pton).

(** What [x509_constraints_valid_host] has checked of a host. *)
Lemma valid_host_facts (name : list ascii) (len : nat) :
  x509_constraints_valid_host name len = true ->
  0 < len /\ byte_at name 0 <> "."%char /\
  (forall j, j < len -> byte_at name j <> "*"%char) /\
  inet_pton AF_INET (cstr name) <> 1%Z /\
  inet_pton AF_INET6 (cstr name) <> 1%Z /\
  x509_constraints_valid_sandns name len = true.
Proof.
  unfold X509.x509_constraints_valid_host, x509_constraints_valid_sandns.
  destruct (Nat.eqb_spec len 0) as [E0|E0]; [discriminate|].
  destruct (Ascii.eqb_spec (byte_at name 0) "*") as [Es|Es]; [discriminate|].
  destruct (Ascii.eqb_spec (byte_at name 0) ".") as [Ed|Ed]; [discriminate|].
  destruct (Z.eqb_spec (inet_pton AF_INET (cstr name)) 1) as [E4|E4];
    [discriminate|].
  destruct (Z.eqb_spec (inet_pton AF_INET6 (cstr name)) 1) as [E6|E6];
    [discriminate|].
  rewrite !andb_false_r. cbn [andb]. intros H.
  split; [lia|]. split; [exact Ed|]. split; [|auto].
  intros j Hj Hstar.
  destruct (valid_domain_internal_bytes _ _ H) as [_ Hb].
  destruct (Hb j Hj) as (_ & _ & _ & H0 & _).
  specialize (H0 Hstar). subst j. contradiction.
Qed.

(** X10: a span of [len] bytes at [name] that
    [x509_constraints_valid_host] accepts is not empty, holds no '*',
    does not start with '.', and is accepted as a SAN dNSName by
    [x509_constraints_valid_sandns].  The address test is made on the C
    string that starts at [name], which runs on behind the [len] bytes
    when no NUL follows them: [inet_pton] returns no 1 on that string,
    and only when a NUL (or the end of the buffer) follows the [len]
    bytes is the host itself known to be no IPv4 or IPv6 address. *)
Theorem valid_host_no_wildcard (name : list ascii) (len : nat) :
  x509_constraints_valid_host name len = true ->
  0 < len /\ byte_at name 0 <> "."%char /\
  (forall j, j < len -> byte_at name j <> "*"%char) /\
  inet_pton AF_INET (cstr name) <> 1%Z /\
  inet_pton AF_INET6 (cstr name) <> 1%Z /\
  (byte_at name len = NUL ->
   inet_pton AF_INET (firstn len name) <> 1%Z /\
   inet_pton AF_INET6 (firstn len name) <> 1%Z) /\
  x509_constraints_valid_sandns name len = true.
Proof.
  intros H.
  destruct (valid_host_facts name len H) as (H0 & Hd & Hs & H4 & H6 & Hv).
  split; [exact H0|]. split; [exact Hd|]. split; [exact Hs|].
  split; [exact H4|]. split; [exact H6|]. split; [|exact Hv].
  intros Hend. apply valid_host_internal in H.
  destruct (valid_domain_internal_bytes _ _ H) as [_ Hb].
  rewrite <- (cstr_firstn name len); [now split | | exact Hend].
  intros j Hj. now destruct (Hb j Hj) as (_ & Hn & _).
Qed.

End Validators.

(** ** The mailbox parser *)

Lemma byte_at_length (s : list ascii) i :
  byte_at s i <> NUL -> i < List.length s.
Proof.
  intros H. destruct (Nat.lt_ge_cases i (List.length s)) as [Hl|Hl];
    [exact Hl|].
  elim H. unfold byte_at. now apply nth_overflow.
Qed.

Lemma firstn_snoc (s : list ascii) : forall i,
  i < List.length s -> firstn (S i) s = firstn i s ++ [byte_at s i].
Proof.
  induction s as [|x s IH]; intros i Hi; [simpl in Hi; lia|].
  destruct i as [|i]; [reflexivity|].
  simpl in Hi. change (firstn (S (S i)) (x :: s)) with (x :: firstn (S i) s).
  rewrite IH by lia. reflexivity.
Qed.

Lemma byte_at_middle (p : list ascii) c r :
  byte_at (p ++ c :: r) (List.length p) = c.
Proof. unfold byte_at. apply nth_middle. Qed.

Lemma local_part_ok_facts c :
  local_part_ok c = true ->
  isascii c = true /\ c <> CR /\ c <> LF /\ c <> NUL /\ c <> DQUOTE /\
  c <> BACKSLASH /\ c <> "@"%char /\ c <> HT.
Proof.
  destruct c as [[] [] [] [] [] [] [] []]; vm_compute; intros H;
    try discriminate H; repeat split; discriminate.
Qed.

Lemma domain_char_facts c :
  domain_char c = true -> c <> CR /\ c <> LF /\ c <> "@"%char.
Proof.
  destruct c as [[] [] [] [] [] [] [] []]; vm_compute; intros H;
    try discriminate H; repeat split; discriminate.
Qed.

Lemma no_nul_app s t : no_nul s -> no_nul t -> no_nul (s ++ t).
Proof. unfold no_nul. intros. apply Forall_app. now split. Qed.

Lemma no_nul_one c : c <> NUL -> no_nul [c].
Proof. unfold no_nul. now repeat constructor. Qed.

(** The loop once the local part is found: it collects the bytes up to
    the end as the domain part. *)
Lemma mailbox_domain_sound cand len l p fuel : forall i w q st',
  mailbox_loop cand len fuel i
    {| candidate_local := Some l; candidate_domain := None; working := w;
       accept := false; quoted := q |} = Some st' ->
  i + fuel = len -> no_nul w ->
  firstn i cand = p ++ w -> List.length (firstn i cand) = i ->
  candidate_local st' = Some l /\
  forall d, candidate_domain st' = Some d ->
    firstn len cand = p ++ d /\ List.length (firstn len cand) = len /\
    no_nul d.
Proof.
  induction fuel as [|fuel IH]; intros i w q st' H Hlen Hw Hp Hi.
  - cbn in H. injection H as <-. cbn. split; [reflexivity|]. intros d [=].
  - cbn [mailbox_loop candidate_local candidate_domain working accept quoted]
      in H.
    set (c := byte_at cand i) in *.
    destruct (negb (isascii c) || _ || _ || _) eqn:E1; [discriminate|].
    apply orb_false_elim in E1 as [_ En]. apply Ascii.eqb_neq in En.
    destruct ((i =? 0) && (c =? ".")%char); [discriminate|].
    destruct (DOMAIN_PART_MAX_LEN <? List.length w); [discriminate|].
    cbv beta iota in H.
    pose proof (byte_at_length _ _ En) as Hic.
    assert (Hs : firstn (S i) cand = p ++ w ++ [c])
      by (rewrite firstn_snoc, Hp, <- app_assoc by exact Hic; reflexivity).
    assert (Hsl : List.length (firstn (S i) cand) = S i)
      by (apply firstn_length_le; lia).
    assert (Hwc : no_nul (w ++ [c]))
      by (apply no_nul_app; [exact Hw | now apply no_nul_one]).
    destruct (Nat.eqb_spec i (len - 1)) as [Ei|Ei].
    + destruct (List.length (w ++ [c]) =? 0); [discriminate|].
      destruct fuel as [|fuel]; [|lia].
      cbn in H. injection H as <-. cbn. split; [reflexivity|].
      intros d [= <-]. unfold strdup. rewrite (cstr_no_nul _ Hwc).
      replace len with (S i) by lia. auto.
    + apply (IH _ _ _ _ H); try assumption. lia.
Qed.

(** The loop while it collects an unquoted local part. *)
Lemma mailbox_local_sound cand len fuel : forall i w st',
  mailbox_loop cand len fuel i
    {| candidate_local := None; candidate_domain := None; working := w;
       accept := false; quoted := false |} = Some st' ->
  i + fuel = len -> byte_at cand 0 <> DQUOTE ->
  w = firstn i cand -> List.length w = i ->
  Forall (fun c => local_part_ok c = true) w ->
  (0 < i -> byte_at cand 0 <> "."%char) ->
  forall l d, candidate_local st' = Some l -> candidate_domain st' = Some d ->
    firstn len cand = l ++ "@"%char :: d /\
    List.length (firstn len cand) = len /\
    l <> [] /\ List.length l <= 64 /\
    Forall (fun c => local_part_ok c = true) l /\
    byte_at cand 0 <> "."%char /\ no_nul d.
Proof.
  induction fuel as [|fuel IH]; intros i w st' H Hlen Hq Hw Hwl Hok Hdot l d.
  - cbn in H. injection H as <-. cbn. discriminate.
  - cbn [mailbox_loop candidate_local candidate_domain working accept quoted]
      in H.
    set (c := byte_at cand i) in *.
    destruct (negb (isascii c) || _ || _ || _) eqn:E1; [discriminate|].
    apply orb_false_elim in E1 as [_ En]. apply Ascii.eqb_neq in En.
    pose proof (byte_at_length _ _ En) as Hic.
    assert (Hquoted : (i =? 0) && (c =? DQUOTE)%char = false).
    { destruct (Nat.eqb_spec i 0) as [E0|E0]; [|reflexivity].
      cbn [andb]. apply Ascii.eqb_neq. unfold c. now rewrite E0. }
    rewrite Hquoted in H. cbv beta iota in H.
    destruct ((i =? 0) && (c =? ".")%char) eqn:Edot; [discriminate|].
    destruct (DOMAIN_PART_MAX_LEN <? List.length w); [discriminate|].
    destruct (Nat.ltb_spec LOCAL_PART_MAX_LEN (List.length w)) as [Hmax|Hmax].
    { injection H as <-. cbn. discriminate. }
    unfold LOCAL_PART_MAX_LEN in Hmax.
    assert (Hnn : no_nul w).
    { unfold no_nul. revert Hok. apply Forall_impl. intros a Ha.
      destruct (local_part_ok_facts a Ha) as (_ & _ & _ & Hn' & _).
      exact Hn'. }
    assert (Hdot' : 0 < S i -> byte_at cand 0 <> "."%char).
    { intros _. destruct (Nat.eqb_spec i 0) as [E0|E0]; [|apply Hdot; lia].
      cbn [andb] in Edot. apply Ascii.eqb_neq in Edot. unfold c in Edot.
      now rewrite E0 in Edot. }
    destruct (Ascii.eqb_spec c "@") as [Eat|Eat].
    + destruct (Nat.eqb_spec (List.length w) 0) as [E0|E0]; [discriminate|].
      intros Hl Hd.
      destruct (mailbox_domain_sound cand len (strdup w) (w ++ ["@"%char])
                  fuel (S i) [] false st' H ltac:(lia) ltac:(constructor))
        as [Hl' Hd'].
      * rewrite firstn_snoc by exact Hic. fold c.
        now rewrite Eat, <- Hw, app_nil_r.
      * apply firstn_length_le. lia.
      * unfold strdup in Hl'. rewrite (cstr_no_nul _ Hnn) in Hl'.
        rewrite Hl' in Hl. injection Hl as <-.
        destruct (Hd' d Hd) as (Hf & Hfl & Hdn).
        rewrite <- app_assoc in Hf. cbn [app] in Hf.
        split; [exact Hf|]. split; [exact Hfl|].
        split; [intros ->; now elim E0|]. split; [exact Hmax|].
        split; [exact Hok|]. split; [apply Hdot; lia | exact Hdn].
    + destruct ((c =? BACKSLASH)%char && _); [discriminate|].
      destruct (local_part_ok c) eqn:Eok; cbn [negb] in H; [|discriminate].
      destruct (local_part_ok_facts c Eok) as (_ & _ & _ & _ & _ & Hb & _).
      apply Ascii.eqb_neq in Hb. rewrite Hb in H.
      apply (IH _ _ _ H); try assumption.
      * lia.
      * rewrite firstn_snoc by exact Hic. now rewrite <- Hw.
      * rewrite length_app. cbn [List.length]. lia.
      * apply Forall_app. split; [exact Hok | now repeat constructor].
Qed.

(** The loop while it collects a local part, quoted or not: when it ends
    with both parts found, the domain is what follows an '@' up to the
    end, and the local part is what was collected before that '@'. *)
Lemma mailbox_local_sound_any cand len fuel : forall i w a q st',
  mailbox_loop cand len fuel i
    {| candidate_local := None; candidate_domain := None; working := w;
       accept := a; quoted := q |} = Some st' ->
  i + fuel = len -> List.length (firstn i cand) = i ->
  List.length w <= i -> no_nul w ->
  forall l d, candidate_local st' = Some l -> candidate_domain st' = Some d ->
    exists pre,
      firstn len cand = pre ++ "@"%char :: d /\
      List.length (firstn len cand) = len /\
      l <> [] /\ List.length l <= 64 /\ List.length l <= List.length pre /\
      no_nul l /\ no_nul d.
Proof.
  induction fuel as [|fuel IH]; intros i w a q st' H Hlen Hi Hwl Hw l d.
  - cbn in H. injection H as <-. cbn. discriminate.
  - cbn [mailbox_loop candidate_local candidate_domain working accept quoted]
      in H.
    set (c := byte_at cand i) in *.
    destruct (negb (isascii c) || _ || _ || _) eqn:E1; [discriminate|].
    apply orb_false_elim in E1 as [_ En]. apply Ascii.eqb_neq in En.
    pose proof (byte_at_length _ _ En) as Hic.
    assert (Hsl : List.length (firstn (S i) cand) = S i)
      by (apply firstn_length_le; lia).
    assert (Hwc : no_nul (w ++ [c]))
      by (apply no_nul_app; [exact Hw | now apply no_nul_one]).
    assert (Hwcl : List.length (w ++ [c]) <= S i)
      by (rewrite length_app; cbn [List.length]; lia).
    destruct ((i =? 0) && (c =? ".")%char); [discriminate|].
    destruct (DOMAIN_PART_MAX_LEN <? List.length w); [discriminate|].
    destruct a.
    { apply (IH _ _ _ _ _ H); try assumption; lia. }
    destruct (Nat.ltb_spec LOCAL_PART_MAX_LEN (List.length w)) as [Hmax|Hmax].
    { injection H as <-. cbn. discriminate. }
    unfold LOCAL_PART_MAX_LEN in Hmax.
    destruct (if (i =? 0) && (c =? DQUOTE)%char then true else q).
    + destruct (c =? BACKSLASH)%char.
      { apply (IH _ _ _ _ _ H); try assumption; lia. }
      destruct (_ && _ && _); [discriminate|].
      destruct (c =? HT)%char; [discriminate|].
      apply (IH _ _ _ _ _ H); try assumption; lia.
    + destruct (Ascii.eqb_spec c "@") as [Eat|Eat].
      * destruct (Nat.eqb_spec (List.length w) 0) as [E0|E0];
          [discriminate|].
        intros Hl Hd.
        destruct (mailbox_domain_sound cand len (strdup w)
                    (firstn i cand ++ ["@"%char]) fuel (S i) [] false st' H
                    ltac:(lia) ltac:(constructor))
          as [Hl' Hd'].
        -- rewrite firstn_snoc by exact Hic. fold c.
           now rewrite Eat, app_nil_r.
        -- exact Hsl.
        -- unfold strdup in Hl'. rewrite (cstr_no_nul _ Hw) in Hl'.
           rewrite Hl' in Hl. injection Hl as <-.
           destruct (Hd' d Hd) as (Hf & Hfl & Hdn).
           rewrite <- app_assoc in Hf. cbn [app] in Hf.
           exists (firstn i cand).
           split; [exact Hf|]. split; [exact Hfl|].
           split; [intros ->; now elim E0|]. split; [exact Hmax|].
           split; [lia|]. split; [exact Hw | exact Hdn].
      * destruct ((c =? BACKSLASH)%char && _); [discriminate|].
        destruct (negb (local_part_ok c)); [discriminate|].
        apply (IH _ _ _ _ _ H); try assumption; lia.
Qed.

(** The loop over a run of bytes of an unquoted local part. *)
Lemma mailbox_local_complete cand len cd rest : forall l2 l1 n,
  cand = l1 ++ l2 ++ rest ->
  Forall (fun c => local_part_ok c = true) l2 ->
  List.length l1 + List.length l2 <= 64 ->
  byte_at cand 0 <> "."%char ->
  mailbox_loop cand len (List.length l2 + n) (List.length l1)
    {| candidate_local := None; candidate_domain := cd; working := l1;
       accept := false; quoted := false |}
  = mailbox_loop cand len n (List.length l1 + List.length l2)
      {| candidate_local := None; candidate_domain := cd;
         working := l1 ++ l2; accept := false; quoted := false |}.
Proof.
  induction l2 as [|c l2 IH]; intros l1 n Hc Hok Hl Hdot.
  - cbn [List.length Nat.add]. now rewrite Nat.add_0_r, app_nil_r.
  - cbn [List.length Nat.add mailbox_loop candidate_local candidate_domain
         working accept quoted].
    assert (Hb : byte_at cand (List.length l1) = c)
      by (rewrite Hc; apply byte_at_middle).
    rewrite Hb. inversion Hok as [|? ? Hokc Hok']; subst.
    destruct (local_part_ok_facts c Hokc)
      as (Ha & Hcr & Hlf & Hn & Hdq & Hbs & Hat & _).
    apply Ascii.eqb_neq in Hcr, Hlf, Hn, Hdq, Hbs, Hat.
    rewrite Ha, Hcr, Hlf, Hn, Hdq, Hat, Hbs, Hokc.
    rewrite !andb_false_r. cbn [negb orb andb].
    assert (E0 : (List.length l1 =? 0) && (c =? ".")%char = false).
    { destruct l1 as [|x l1]; [|reflexivity]. cbn [List.length Nat.eqb andb].
      apply Ascii.eqb_neq. rewrite <- Hb. exact Hdot. }
    rewrite E0.
    cbn [List.length] in Hl.
    assert (E1 : (DOMAIN_PART_MAX_LEN <? List.length l1) = false)
      by (apply Nat.ltb_ge; unfold DOMAIN_PART_MAX_LEN; lia).
    assert (E2 : (LOCAL_PART_MAX_LEN <? List.length l1) = false)
      by (apply Nat.ltb_ge; unfold LOCAL_PART_MAX_LEN; lia).
    rewrite E1, E2.
    replace (S (List.length l1)) with (List.length (l1 ++ [c]))
      by (rewrite length_app; cbn [List.length]; lia).
    rewrite (IH (l1 ++ [c]) n).
    + rewrite <- app_assoc. cbn [app]. f_equal.
      rewrite length_app. cbn [List.length]. lia.
    + rewrite <- app_assoc. reflexivity.
    + exact Hok'.
    + rewrite length_app. cbn [List.length]. lia.
    + exact Hdot.
Qed.

(** The loop over the bytes after the '@', up to the last one. *)
Lemma mailbox_domain_complete cand l q p : forall d2 d1,
  cand = p ++ d1 ++ d2 ->
  Forall (fun c => isascii c = true /\ c <> CR /\ c <> LF /\ c <> NUL) d2 ->
  no_nul d1 ->
  List.length d1 + List.length d2 <= 255 ->
  p <> [] -> d2 <> [] ->
  mailbox_loop cand (List.length cand) (List.length d2)
    (List.length p + List.length d1)
    {| candidate_local := Some l; candidate_domain := None; working := d1;
       accept := false; quoted := q |}
  = Some {| candidate_local := Some l; candidate_domain := Some (d1 ++ d2);
            working := d1 ++ d2; accept := false; quoted := q |}.
Proof.
  induction d2 as [|c d2 IH]; intros d1 Hc Hok Hn1 Hl Hp Hd2;
    [now elim Hd2|].
  cbn [List.length mailbox_loop candidate_local candidate_domain
       working accept quoted].
  assert (Hb : byte_at cand (List.length p + List.length d1) = c).
  { rewrite Hc, app_assoc, <- length_app. apply byte_at_middle. }
  rewrite Hb. inversion Hok as [|? ? (Ha & Hcr & Hlf & Hn) Hok']; subst x l0.
  pose proof Hn as Hn'.
  apply Ascii.eqb_neq in Hcr, Hlf, Hn.
  rewrite Ha, Hcr, Hlf, Hn. cbn [negb orb].
  assert (E0 : (List.length p + List.length d1 =? 0) = false).
  { apply Nat.eqb_neq. destruct p; [now elim Hp | cbn [List.length]; lia]. }
  rewrite E0. cbn [andb].
  cbn [List.length] in Hl.
  assert (E1 : (DOMAIN_PART_MAX_LEN <? List.length d1) = false)
    by (apply Nat.ltb_ge; unfold DOMAIN_PART_MAX_LEN; lia).
  rewrite E1.
  assert (Hlen : List.length cand
                 = List.length p + List.length d1 + S (List.length d2))
    by (rewrite Hc, !length_app; cbn [List.length]; lia).
  assert (Hwc : no_nul (d1 ++ [c]))
    by (apply no_nul_app; [exact Hn1 | now apply no_nul_one]).
  destruct d2 as [|c' d2].
  - cbn [List.length] in *.
    replace (List.length p + List.length d1 =? List.length cand - 1)
      with true by (symmetry; apply Nat.eqb_eq; lia).
    replace (List.length (d1 ++ [c]) =? 0) with false
      by (symmetry; apply Nat.eqb_neq; rewrite length_app;
          cbn [List.length]; lia).
    cbn [mailbox_loop]. unfold strdup. rewrite (cstr_no_nul _ Hwc).
    reflexivity.
  - replace (List.length p + List.length d1 =? List.length cand - 1)
      with false
      by (symmetry; apply Nat.eqb_neq; cbn [List.length] in Hlen; lia).
    replace (S (List.length p + List.length d1))
      with (List.length p + List.length (d1 ++ [c]))
      by (rewrite length_app; cbn [List.length]; lia).
    rewrite (IH (d1 ++ [c])).
    + now rewrite <- app_assoc.
    + rewrite <- app_assoc. exact Hc.
    + exact Hok'.
    + exact Hwc.
    + rewrite length_app. cbn [List.length] in *. lia.
    + exact Hp.
    + discriminate.
Qed.

Section Mailbox.

Variable inet_pton : Z -> list ascii -> Z.

#[local] Abbreviation x509_constraints_valid_host :=
  (x509_constraints_valid_host inet_pton).
#[local] Abbreviation x509_constraints_parse_mailbox :=
  (x509_constraints_parse_mailbox inet_pton).

Lemma valid_host_bytes d :
  x509_constraints_valid_host d (List.length d) = true ->
  d <> [] /\ List.length d <= 255 /\ no_nul d /\
  Forall (fun c => isascii c = true /\ c <> CR /\ c <> LF /\ c <> NUL) d.
Proof.
  intros H. destruct (valid_host_facts inet_pton _ _ H) as (Hl & _).
  apply valid_host_internal in H.
  destruct (valid_domain_internal_bytes _ _ H) as [Hmax Hb].
  assert (Hall : Forall (fun c => isascii c = true /\ c <> CR /\ c <> LF
                                  /\ c <> NUL) d).
  { apply Forall_forall. intros x Hx.
    destruct (In_nth _ _ NUL Hx) as (j & Hj & <-).
    destruct (Hb j Hj) as (Ha & Hn & Hd & _).
    destruct (domain_char_facts _ Hd) as (Hcr & Hlf & _).
    repeat split; assumption. }
  split; [intros ->; simpl in Hl; lia|]. split; [exact Hmax|].
  split; [|exact Hall].
  unfold no_nul. revert Hall. apply Forall_impl. tauto.
Qed.

Lemma mailbox_parts_unquoted (cand l d : list ascii) :
  byte_at cand 0 <> DQUOTE ->
  mailbox_parts inet_pton cand (List.length cand) = Some (l, d) <->
  cand = l ++ "@"%char :: d /\ l <> [] /\ List.length l <= 64 /\
  Forall (fun c => local_part_ok c = true) l /\
  byte_at l 0 <> "."%char /\
  x509_constraints_valid_host d (List.length d) = true.
Proof.
  intros Hq. unfold mailbox_parts. split.
  - destruct (_ <? _); [discriminate|].
    destruct (mailbox_loop cand (List.length cand) (List.length cand) 0
                mailbox_init) as [st|] eqn:El; [|discriminate].
    destruct (candidate_local st) as [l'|] eqn:Hl; [|discriminate].
    destruct (candidate_domain st) as [d'|] eqn:Hd; [|discriminate].
    destruct (mailbox_local_sound cand (List.length cand) (List.length cand)
                0 [] st El eq_refl Hq eq_refl eq_refl ltac:(constructor)
                ltac:(lia) l' d' Hl Hd)
      as (Hf & _ & Hne & Hmax & Hok & Hdot & Hdn).
    rewrite firstn_all in Hf.
    destruct (X509.x509_constraints_valid_host inet_pton d' (strlen d'))
      eqn:Ev; [|discriminate].
    intros [= <- <-]. rewrite (strlen_no_nul _ Hdn) in Ev.
    split; [exact Hf|]. split; [exact Hne|]. split; [exact Hmax|].
    split; [exact Hok|]. split; [|exact Ev].
    destruct l' as [|x l']; [now elim Hne|].
    rewrite Hf in Hdot. exact Hdot.
  - intros (-> & Hne & Hmax & Hok & Hdot & Hv).
    destruct (valid_host_bytes d Hv) as (Hdne & Hdmax & Hdn & Hdall).
    assert (Hlen : List.length (l ++ "@"%char :: d)
                   = List.length l + (1 + List.length d))
      by (rewrite length_app; reflexivity).
    replace (_ <? _) with false
      by (symmetry; apply Nat.ltb_ge;
          unfold LOCAL_PART_MAX_LEN, DOMAIN_PART_MAX_LEN; lia).
    assert (Hdot' : byte_at (l ++ "@"%char :: d) 0 <> "."%char)
      by (destruct l; [now elim Hne | exact Hdot]).
    rewrite Hlen at 2.
    rewrite (mailbox_local_complete (l ++ "@"%char :: d) _ None
               ("@"%char :: d) l [] (1 + List.length d) eq_refl Hok
               ltac:(simpl; lia) Hdot').
    cbn [List.length Nat.add app mailbox_loop candidate_local
         candidate_domain working accept quoted].
    rewrite byte_at_middle.
    replace (List.length l =? 0) with false
      by (symmetry; apply Nat.eqb_neq; destruct l;
          [now elim Hne | discriminate]).
    assert (Hln : no_nul l).
    { unfold no_nul. revert Hok. apply Forall_impl. intros a Ha.
      destruct (local_part_ok_facts a Ha) as (_ & _ & _ & Hn' & _).
      exact Hn'. }
    replace (DOMAIN_PART_MAX_LEN <? List.length l) with false
      by (symmetry; apply Nat.ltb_ge; unfold DOMAIN_PART_MAX_LEN; lia).
    replace (LOCAL_PART_MAX_LEN <? List.length l) with false
      by (symmetry; apply Nat.ltb_ge; unfold LOCAL_PART_MAX_LEN; lia).
    cbn [andb negb orb]. unfold strdup at 1. rewrite (cstr_no_nul _ Hln).
    change (negb (isascii "@") || ("@" =? CR)%char || ("@" =? LF)%char
            || ("@" =? NUL)%char) with false.
    rewrite Ascii.eqb_refl. cbv beta iota.
    assert (Hdc : mailbox_loop (l ++ "@"%char :: d)
                    (List.length (l ++ "@"%char :: d)) (List.length d)
                    (S (List.length l))
                    {| candidate_local := Some l; candidate_domain := None;
                       working := []; accept := false; quoted := false |}
                  = Some {| candidate_local := Some l;
                            candidate_domain := Some d; working := d;
                            accept := false; quoted := false |}).
    { pose proof (mailbox_domain_complete (l ++ "@"%char :: d) l false
                    (l ++ ["@"%char]) d []
                    ltac:(now rewrite <- app_assoc) Hdall
                    ltac:(constructor) ltac:(simpl; lia)
                    ltac:(now destruct l) Hdne) as Hdc.
      replace (List.length (l ++ ["@"%char]) + List.length (@nil ascii))
        with (S (List.length l)) in Hdc
        by (rewrite length_app; simpl; lia).
      exact Hdc. }
    rewrite Hdc. cbn [candidate_local candidate_domain].
    rewrite (strlen_no_nul _ Hdn), Hv. reflexivity.
Qed.

(** X11: for a candidate that does not start with a double quote,
    [x509_constraints_parse_mailbox] succeeds with local part [l] and
    domain [d] exactly when the candidate reads l "@" d, where [l] is 1
    to 64 bytes that [local_part_ok] admits and does not start with '.',
    and [d] is a host that [x509_constraints_valid_host] accepts; it then
    sets the type to GEN_EMAIL and leaves the other fields alone.  A
    backslash outside a quoted local part is never accepted. *)
Theorem parse_mailbox_unquoted (cand l d : list ascii)
    (nm : x509_constraints_name) :
  byte_at cand 0 <> DQUOTE ->
  x509_constraints_parse_mailbox (Some cand) (List.length cand) nm
  = (true, {| type := GEN_EMAIL; af := af nm; name := Some d;
              local := Some l; der := der nm; der_len := der_len nm;
              address := address nm |}) <->
  cand = l ++ "@"%char :: d /\ l <> [] /\ List.length l <= 64 /\
  Forall (fun c => local_part_ok c = true) l /\
  byte_at l 0 <> "."%char /\
  x509_constraints_valid_host d (List.length d) = true.
Proof.
  intros Hq. rewrite <- (mailbox_parts_unquoted cand l d Hq).
  unfold X509.x509_constraints_parse_mailbox.
  destruct (mailbox_parts inet_pton cand (List.length cand)) as [[l' d']|].
  - split; [intros [= <- <-] | intros [= <- <-]]; reflexivity.
  - split; discriminate.
Qed.

(** X12: whenever [x509_constraints_parse_mailbox] succeeds, for a
    quoted local part as well, the candidate holds [len] bytes that read
    pre "@" d, where [d] is the domain it stores and a host that
    [x509_constraints_valid_host] accepts; the local part it stores is
    between 1 and 64 bytes, not longer than [pre], and without NUL; the
    type is GEN_EMAIL and the other fields are as they were. *)
Theorem parse_mailbox_parts (cand : list ascii) (len : nat)
    (nm nm' : x509_constraints_name) :
  x509_constraints_parse_mailbox (Some cand) len nm = (true, nm') ->
  exists l d pre,
    nm' = {| type := GEN_EMAIL; af := af nm; name := Some d;
             local := Some l; der := der nm; der_len := der_len nm;
             address := address nm |} /\
    firstn len cand = pre ++ "@"%char :: d /\ len <= List.length cand /\
    1 <= List.length l <= 64 /\ List.length l <= List.length pre /\
    no_nul l /\
    x509_constraints_valid_host d (List.length d) = true.
Proof.
  unfold X509.x509_constraints_parse_mailbox, mailbox_parts.
  destruct (_ <? _); [discriminate|].
  destruct (mailbox_loop cand len len 0 mailbox_init) as [st|] eqn:El;
    [|discriminate].
  destruct (candidate_local st) as [l|] eqn:Hl; [|discriminate].
  destruct (candidate_domain st) as [d|] eqn:Hd; [|discriminate].
  destruct (mailbox_local_sound_any cand len len 0 [] false false st El
              eq_refl eq_refl ltac:(cbn; lia) ltac:(constructor) l d Hl Hd)
    as (pre & Hf & Hfl & Hne & Hmax & Hpre & Hln & Hdn).
  destruct (X509.x509_constraints_valid_host inet_pton d (strlen d)) eqn:Ev;
    [|discriminate].
  intros [= <-]. exists l, d, pre.
  rewrite (strlen_no_nul _ Hdn) in Ev.
  split; [reflexivity|]. split; [exact Hf|].
  split; [rewrite length_firstn in Hfl; lia|].
  split; [destruct l; [now elim Hne | cbn [List.length] in *; lia]|].
  split; [exact Hpre|]. split; [exact Hln | exact Ev].
Qed.

End Mailbox.

(** ** The URI host and the domain comparison *)

Lemma some_true_iff (b : bool) (P : Prop) :
  (b = true <-> P) -> (Some b = Some true <-> P).
Proof. intros H. rewrite <- H. split; [now intros [= ->] | now intros ->]. Qed.

Lemma domain_as_sandns d dl c cl :
  byte_at c 0 = "."%char ->
  x509_constraints_domain d dl c cl = x509_constraints_sandns d dl c cl.
Proof.
  intros E. unfold x509_constraints_domain, x509_constraints_sandns.
  rewrite E. reflexivity.
Qed.

(** The rule of [x509_constraints_domain]. *)
Lemma domain_rule_cases (d c : list ascii) :
  no_nul d -> no_nul c ->
  x509_constraints_domain d (List.length d) c (List.length c) = true <->
  c = [] \/
  (byte_at c 0 = "."%char /\ exists p s, d = p ++ s /\ ci_eq s c) \/
  (byte_at c 0 <> "."%char /\ byte_at d 0 = "."%char /\
   exists p s, c = p ++ s /\ ci_eq s d) \/
  (byte_at c 0 <> "."%char /\ byte_at d 0 <> "."%char /\ ci_eq d c).
Proof.
  intros Hd Hc.
  destruct (Ascii.eqb_spec (byte_at c 0) ".") as [Ec|Ec].
  - rewrite (domain_as_sandns _ _ _ _ Ec), (sandns_iff d c Hd).
    split.
    + intros [->|H]; [now left | right; left; now split].
    + intros [->|[[_ H]|[[H _]|[H _]]]]; tauto.
  - unfold x509_constraints_domain.
    destruct (Nat.eqb_spec (List.length c) 0) as [E0|E0].
    { apply length_zero_iff_nil in E0. tauto. }
    apply Ascii.eqb_neq in Ec. rewrite Ec. apply Ascii.eqb_neq in Ec.
    assert (Hc0 : c <> []) by (intros ->; now elim E0).
    destruct (Ascii.eqb_spec (byte_at d 0) ".") as [Ed|Ed].
    + assert (Hd0 : d <> []) by (intros ->; discriminate Ed).
      pose proof (sandns_iff c d Hc) as Hs.
      unfold x509_constraints_sandns in Hs.
      destruct (Nat.eqb_spec (List.length d) 0) as [E1|E1];
        [apply length_zero_iff_nil in E1; contradiction|].
      rewrite Hs. split.
      * intros [->|H]; [now elim Hd0|]. right. right. left. tauto.
      * intros [->|[[H _]|[(_ & _ & H)|(_ & H & _)]]];
          [now elim Hc0 | contradiction | now right | contradiction].
    + destruct (Nat.eqb_spec (List.length d) (List.length c)) as [El|El];
        cbn [negb].
      * rewrite Z.eqb_eq, (strncasecmp_zero_iff d c El Hd). split.
        -- intros H. right. right. right. tauto.
        -- intros [->|[[H _]|[(_ & H & _)|(_ & _ & H)]]];
             [now elim Hc0 | contradiction | contradiction | exact H].
      * split; [discriminate|].
        intros [->|[[H _]|[(_ & H & _)|(_ & _ & H)]]];
          [now elim Hc0 | contradiction | contradiction |].
        apply ci_eq_length in H. contradiction.
Qed.

(** X13: [x509_constraints_domain] on two C strings returns 1 exactly
    when the constraint is empty, or it starts with '.' and equals, up to
    case, a suffix of the domain, or it does not but the domain starts
    with '.' and equals, up to case, a suffix of the constraint, or
    neither starts with '.' and the two are equal up to case. *)
Theorem domain_rule (d c : list ascii) :
  no_nul d -> no_nul c ->
  x509_constraints_domain d (List.length d) c (List.length c) = true <->
  c = [] \/
  (byte_at c 0 = "."%char /\ exists p s, d = p ++ s /\ ci_eq s c) \/
  (byte_at c 0 <> "."%char /\ byte_at d 0 = "."%char /\
   exists p s, c = p ++ s /\ ci_eq s d) \/
  (byte_at c 0 <> "."%char /\ byte_at d 0 <> "."%char /\ ci_eq d c).
Proof. apply domain_rule_cases. Qed.

(** For a domain that does not start with '.', as the hosts of names
    are. *)
Lemma domain_rule_host (d c : list ascii) :
  no_nul d -> no_nul c -> byte_at d 0 <> "."%char ->
  x509_constraints_domain d (List.length d) c (List.length c) = true <->
  c = [] \/
  (byte_at c 0 = "."%char /\ exists p s, d = p ++ s /\ ci_eq s c) \/
  (byte_at c 0 <> "."%char /\ ci_eq d c).
Proof.
  intros Hd Hc Hdot. rewrite (domain_rule_cases d c Hd Hc). split.
  - intros [H|[H|[(_ & H & _)|(H1 & _ & H2)]]];
      [now left | now right; left | contradiction | right; right; now split].
  - intros [H|[H|[H1 H2]]];
      [now left | now right; left | right; right; right; now repeat split].
Qed.

(** X14: for a name of type GEN_URI, or of type GEN_EMAIL against a
    constraint without a local part, whose host does not start with '.',
    the matcher returns 1 exactly when the constraint is empty, or starts
    with '.' and equals, up to case, a suffix of the host, or does not
    start with '.' and equals the host up to case. *)
Theorem match_host_rule (nm c : x509_constraints_name) (n cs : list ascii) :
  type nm = GEN_URI \/ (type nm = GEN_EMAIL /\ local c = None) ->
  type c = type nm -> name nm = Some n -> name c = Some cs ->
  no_nul n -> no_nul cs -> byte_at n 0 <> "."%char ->
  x509_constraints_match nm c = Some true <->
  cs = [] \/
  (byte_at cs 0 = "."%char /\ exists p s, n = p ++ s /\ ci_eq s cs) \/
  (byte_at cs 0 <> "."%char /\ ci_eq n cs).
Proof.
  intros Ht Tc Hn Hc Nn Nc Hdot.
  rewrite <- (domain_rule_host n cs Nn Nc Hdot).
  unfold x509_constraints_match. rewrite Tc, Z.eqb_refl, Hn, Hc.
  cbn [negb]. rewrite (strlen_no_nul _ Nn), (strlen_no_nul _ Nc).
  destruct Ht as [->|[-> Hl]].
  - cbn [Z.eqb GEN_URI GEN_DNS Pos.eqb]. now apply some_true_iff.
  - rewrite Hl. cbn [Z.eqb GEN_EMAIL GEN_DNS GEN_URI GEN_IPADD Pos.eqb].
    now apply some_true_iff.
Qed.

Section UriHost.

Variable inet_pton : Z -> list ascii -> Z.

(** What is known of a host that [x509_constraints_uri_host] returns. *)
Lemma uri_host_facts (uri h : list ascii) :
  x509_constraints_uri_host inet_pton uri (List.length uri) = Some h ->
  (exists p t, uri = p ++ h ++ t) /\
  0 < List.length h <= 255 /\ no_nul h /\ strlen h = List.length h /\
  Forall (fun c => host_char c = true) h /\
  byte_at h 0 <> "."%char /\
  x509_constraints_valid_domain h (List.length h) = true.
Proof.
  intros H. apply uri_host_decomposition in H.
  destruct H as (pre & ui & tail & -> & _ & _ & _ & Hs & Hne & _ & Hv).
  destruct (valid_host_facts inet_pton _ _ Hv)
    as (Hl & Hdot & Hstar & _).
  apply valid_host_internal in Hv.
  pose proof (valid_domain_internal_no_nul _ _ Hv) as Hn.
  rewrite valid_domain_internal_prefix in Hv.
  destruct (valid_domain_internal_bytes _ _ Hv) as [Hmax _].
  assert (H0 : byte_at (h ++ tail) 0 = byte_at h 0)
    by (destruct h; [now elim Hne | reflexivity]).
  rewrite H0 in Hdot. specialize (Hstar 0 Hl). rewrite H0 in Hstar.
  split.
  { exists (pre ++ "/"%char :: "/"%char :: ui), tail.
    rewrite <- app_assoc. reflexivity. }
  split; [lia|]. split; [exact Hn|].
  split; [now apply strlen_no_nul|].
  split; [revert Hs; apply Forall_impl; now intros a [_ Ha]|].
  split; [exact Hdot|].
  unfold x509_constraints_valid_domain.
  destruct (Nat.eqb_spec (List.length h) 0) as [E|E]; [lia|].
  apply Ascii.eqb_neq in Hstar, Hdot. rewrite Hstar, Hdot, andb_false_r.
  exact Hv.
Qed.

(** X15: a host that [x509_constraints_uri_host] returns is a part of the
    URI, between 1 and 255 bytes, without NUL, '@', ':', '/', '?' or '#',
    does not start with '.',
    and [x509_constraints_valid_domain] accepts it on its own, as the
    comparison in [x509_constraints_domain] expects of its first
    argument. *)
Theorem uri_host_result_valid (uri h : list ascii) :
  x509_constraints_uri_host inet_pton uri (List.length uri) = Some h ->
  (exists p t, uri = p ++ h ++ t) /\
  0 < List.length h <= 255 /\ no_nul h /\ strlen h = List.length h /\
  Forall (fun c => host_char c = true) h /\
  byte_at h 0 <> "."%char /\
  x509_constraints_valid_domain h (List.length h) = true.
Proof. apply uri_host_facts. Qed.



End UriHost.

(** ** Addresses and directory names *)

Lemma ipaddr_loop_iff a m c fuel : forall i,
  ipaddr_loop a m c fuel i = true <->
  forall j, i <= j < i + fuel ->
    byte_and (byte_at a j) (byte_at m j)
    = byte_and (byte_at c j) (byte_at m j).
Proof.
  induction fuel as [|fuel IH]; intros i; cbn [ipaddr_loop].
  - split; [intros _ j Hj; lia | reflexivity].
  - destruct (Ascii.eqb_spec (byte_and (byte_at a i) (byte_at m i))
                (byte_and (byte_at c i) (byte_at m i))) as [E|E];
      cbn [negb].
    + rewrite IH. split; intros H j Hj.
      * destruct (Nat.eq_dec j i) as [->|Hne]; [exact E | apply H; lia].
      * apply H. lia.
    + split; [discriminate|]. intros H. elim E. apply H. lia.
Qed.

Lemma memcmp_zero_iff n : forall p q,
  memcmp p q n = 0%Z <-> forall j, j < n -> byte_at p j = byte_at q j.
Proof.
  induction n as [|n IH]; intros p q; cbn [memcmp].
  - split; [intros _ j Hj; lia | reflexivity].
  - assert (Hh : forall s : list ascii, hd NUL s = byte_at s 0)
      by (intros [|x s]; reflexivity).
    assert (Ht : forall (s : list ascii) j, byte_at (tl s) j = byte_at s (S j))
      by (intros [|x s] j; [now destruct j | reflexivity]).
    rewrite !Hh.
    destruct (Ascii.eqb_spec (byte_at p 0) (byte_at q 0)) as [E|E];
      cbn [negb].
    + rewrite IH. split; intros H j Hj.
      * destruct j as [|j]; [exact E|]. rewrite <- !Ht. apply H. lia.
      * rewrite !Ht. apply H. lia.
    + split.
      * intros H. apply code_diff_zero in H. contradiction.
      * intros H. elim E. apply H. lia.
Qed.

(** X17: for two names of type GEN_IPADD the matcher returns 1 exactly
    when the name is an IPv4 or an IPv6 address, the constraint is of the
    same family, and each of the 4 or 16 bytes of the address agrees with
    the byte of the constraint under the mask byte that follows the
    constraint's address at the same distance. *)
Theorem match_ipaddr (nm c : x509_constraints_name) :
  type nm = GEN_IPADD -> type c = GEN_IPADD ->
  x509_constraints_match nm c = Some true <->
  (af nm = AF_INET \/ af nm = AF_INET6) /\ af c = af nm /\
  forall j, j < (if (af nm =? AF_INET)%Z then 4 else 16) ->
    byte_and (byte_at (address nm) j)
      (byte_at (address c) ((if (af nm =? AF_INET)%Z then 4 else 16) + j))
    = byte_and (byte_at (address c) j)
        (byte_at (address c) ((if (af nm =? AF_INET)%Z then 4 else 16) + j)).
Proof.
  intros Tn Tc. unfold x509_constraints_match.
  rewrite Tn, Tc. cbn [negb Z.eqb GEN_IPADD GEN_DNS GEN_URI Pos.eqb].
  unfold x509_constraints_ipaddr.
  destruct (Z.eqb_spec (af nm) AF_INET) as [E4|E4];
    destruct (Z.eqb_spec (af nm) AF_INET6) as [E6|E6]; cbn [negb andb].
  - rewrite E4 in E6. discriminate E6.
  - destruct (Z.eqb_spec (af c) AF_INET) as [C4|C4].
    + cbn [negb andb]. rewrite E4, C4, Z.eqb_refl.
      cbn [negb Nat.mul Nat.add Nat.eqb].
      apply some_true_iff. rewrite ipaddr_loop_iff. split.
      * intros H. split; [now left|]. split; [reflexivity|].
        intros j Hj. specialize (H j ltac:(lia)).
        unfold byte_at in H at 2 4. rewrite nth_skipn in H. exact H.
      * intros (_ & _ & H) j Hj.
        unfold byte_at at 2 4. rewrite nth_skipn. apply H. lia.
    + cbn [negb andb].
      destruct (Z.eqb_spec (af c) AF_INET6) as [C6|C6]; cbn [negb].
      * rewrite E4, C6. cbn [Z.eqb AF_INET AF_INET6 Pos.eqb negb].
        split; [discriminate|]. intros (_ & H & _). discriminate H.
      * split; [discriminate|]. intros (_ & H & _). congruence.
  - destruct (Z.eqb_spec (af c) AF_INET) as [C4|C4].
    + cbn [negb andb]. rewrite E6, C4.
      cbn [Z.eqb AF_INET AF_INET6 Pos.eqb negb].
      split; [discriminate|]. intros (_ & H & _). discriminate H.
    + cbn [negb andb].
      destruct (Z.eqb_spec (af c) AF_INET6) as [C6|C6]; cbn [negb].
      * rewrite E6, C6, Z.eqb_refl. cbn [negb Nat.mul Nat.add Nat.eqb].
        apply some_true_iff. rewrite ipaddr_loop_iff. split.
        -- intros H. split; [now right|]. split; [reflexivity|].
           intros j Hj. specialize (H j ltac:(lia)).
           unfold byte_at in H at 2 4. rewrite nth_skipn in H. exact H.
        -- intros (_ & _ & H) j Hj.
           unfold byte_at at 2 4. rewrite nth_skipn. apply H. lia.
      * split; [discriminate|]. intros (_ & H & _). congruence.
  - split; [discriminate|]. intros ([H|H] & _); contradiction.
Qed.

(** X18: for two names of type GEN_DIRNAME the matcher returns 1 exactly
    when the two encodings have the same length and the same bytes. *)
Theorem match_dirname (nm c : x509_constraints_name) :
  type nm = GEN_DIRNAME -> type c = GEN_DIRNAME ->
  x509_constraints_match nm c = Some true <->
  der_len c = der_len nm /\
  forall j, j < der_len nm -> byte_at (der c) j = byte_at (der nm) j.
Proof.
  intros Tn Tc. unfold x509_constraints_match.
  rewrite Tn, Tc.
  cbn [negb Z.eqb GEN_IPADD GEN_DNS GEN_URI GEN_EMAIL GEN_DIRNAME Pos.eqb].
  unfold x509_constraints_dirname.
  destruct (Nat.eqb_spec (der_len c) (der_len nm)) as [E|E]; cbn [negb].
  - rewrite E. apply some_true_iff.
    rewrite Z.eqb_eq, memcmp_zero_iff. tauto.
  - split; [discriminate|]. intros [H _]. contradiction.
Qed.

(** ** Extraction of names and constraints *)

Section Extract.

Variable X509_VERIFY_MAX_CHAIN_NAMES : nat.
Variable X509_VERIFY_MAX_CHAIN_CONSTRAINTS : nat.
Variable inet_pton : Z -> list ascii -> Z.

#[local] Abbreviation x509_constraints_parse_mailbox :=
  (x509_constraints_parse_mailbox inet_pton).
#[local] Abbreviation extract_altname := (extract_altname inet_pton).
#[local] Abbreviation extract_altnames := (extract_altnames inet_pton).
#[local] Abbreviation extract_subject_emails :=
  (extract_subject_emails inet_pton).
#[local] Abbreviation extract_subject_cns := (extract_subject_cns inet_pton).
#[local] Abbreviation x509_constraints_extract_names :=
  (x509_constraints_extract_names inet_pton).
#[local] Abbreviation x509_constraints_validate :=
  (x509_constraints_validate inet_pton).
#[local] Abbreviation extract_subtrees := (extract_subtrees inet_pton).
#[local] Abbreviation x509_constraints_extract_constraints :=
  (x509_constraints_extract_constraints inet_pton).

Lemma parse_mailbox_sets candidate len nm nm' :
  x509_constraints_parse_mailbox candidate len nm = (true, nm') ->
  type nm' = GEN_EMAIL /\ name nm' <> None /\ local nm' <> None.
Proof.
  unfold X509.x509_constraints_parse_mailbox.
  destruct candidate as [candidate|]; [|discriminate].
  destruct (mailbox_parts inet_pton candidate len) as [[l d]|];
    [|discriminate].
  intros [= <-]. cbn. repeat split; discriminate.
Qed.

Lemma name_set_with_type nm :
  name nm <> None -> local nm <> None -> name_set (with_type nm GEN_EMAIL).
Proof. intros Hn Hl. split; intros _; assumption. Qed.

Lemma name_set_plain t a n d dl ad :
  t <> GEN_EMAIL ->
  (string_type t = true -> n <> None) ->
  name_set {| type := t; af := a; name := n; local := None; der := d;
              der_len := dl; address := ad |}.
Proof. intros Ht Hn. split; cbn; [exact Hn | intros E; contradiction]. Qed.

Lemma extract_altname_result gn :
  match extract_altname gn with
  | inl e => e <> X509_V_OK
  | inr (Some v) => name_set v
  | inr None => True
  end.
Proof.
  unfold X509.extract_altname.
  destruct (x509_constraints_general_to_bytes gn) as [[name_type bytes] len].
  destruct (name_type =? GEN_DNS)%Z.
  { destruct (negb _); [discriminate|].
    apply name_set_plain; [discriminate | intros _; discriminate]. }
  destruct (name_type =? GEN_EMAIL)%Z.
  { destruct (X509.x509_constraints_parse_mailbox inet_pton bytes len
                x509_constraints_name_new) as [[|] v] eqn:E; [|discriminate].
    destruct (parse_mailbox_sets _ _ _ _ E) as (_ & Hn & Hl).
    now apply name_set_with_type. }
  destruct (name_type =? GEN_URI)%Z.
  { destruct (x509_constraints_uri_host inet_pton (buffer bytes) len);
      [|discriminate].
    apply name_set_plain; [discriminate | intros _; discriminate]. }
  destruct (name_type =? GEN_DIRNAME)%Z.
  { destruct bytes; [|discriminate].
    destruct (len =? 0); [discriminate|].
    apply name_set_plain; [discriminate | discriminate]. }
  destruct (name_type =? GEN_IPADD)%Z; [|exact I].
  destruct (negb _ && negb _); [discriminate|].
  apply name_set_plain; [discriminate | discriminate].
Qed.

(** The loop over the alternative names appends to the names, one name
    per entry at most, and only clears the two flags. *)
Lemma extract_altnames_result altnames : forall names cn em,
  exists added,
    Forall name_set added /\ List.length added <= List.length altnames /\
    match extract_altnames altnames names cn em with
    | inl (e, names') => e <> X509_V_OK /\ names' = names ++ added
    | inr (names', cn', em') =>
      names' = names ++ added /\ (cn' = true -> cn = true)
      /\ (em' = true -> em = true)
    end.
Proof.
  induction altnames as [|gn rest IH]; intros names cn em;
    cbn [X509.extract_altnames].
  - exists []. rewrite app_nil_r.
    split; [constructor|]. split; [cbn; lia|]. split; [reflexivity|].
    split; trivial.
  - pose proof (extract_altname_result gn) as Hg.
    destruct (X509.extract_altname inet_pton gn) as [e|[v|]].
    + exists []. rewrite app_nil_r.
      split; [constructor|]. split; [cbn; lia|]. split; [exact Hg|].
      reflexivity.
    + destruct (IH (x509_constraints_names_add names v)
                  (if (type v =? GEN_DNS)%Z then false else cn)
                  (if (type v =? GEN_EMAIL)%Z then false else em))
        as (added & Ha & Hl & Hr).
      exists (v :: added).
      split; [now constructor|]. split; [cbn; lia|].
      unfold x509_constraints_names_add in Hr.
      rewrite <- app_assoc in Hr. cbn [app] in Hr.
      destruct (X509.extract_altnames _ _ _ _ _) as [[e n']|[[n' c'] e']].
      * exact Hr.
      * destruct Hr as (Hn & Hc & He). split; [exact Hn|].
        split; intros H.
        -- specialize (Hc H). now destruct (type v =? GEN_DNS)%Z.
        -- specialize (He H). now destruct (type v =? GEN_EMAIL)%Z.
    + destruct (IH names cn em) as (added & Ha & Hl & Hr).
      exists added. split; [exact Ha|]. split; [cbn; lia | exact Hr].
Qed.

Lemma extract_subject_emails_result subject fuel : forall i names,
  exists added,
    Forall name_set added /\
    match extract_subject_emails fuel subject i names with
    | inl (e, names') => e <> X509_V_OK /\ names' = names ++ added
    | inr (names', _) => names' = names ++ added
    end.
Proof.
  induction fuel as [|fuel IH]; intros i names;
    cbn [X509.extract_subject_emails].
  - exists []. rewrite app_nil_r. split; [constructor | reflexivity].
  - destruct (_ <? 0)%Z.
    { exists []. rewrite app_nil_r. split; [constructor | reflexivity]. }
    destruct (X509_NAME_get_entry subject _) as [email|].
    2:{ exists []. rewrite app_nil_r.
        split; [constructor | split; [discriminate | reflexivity]]. }
    destruct (value email) as [aname|].
    2:{ exists []. rewrite app_nil_r.
        split; [constructor | split; [discriminate | reflexivity]]. }
    destruct (X509.x509_constraints_parse_mailbox inet_pton _ _ _)
      as [[|] v] eqn:E.
    2:{ exists []. rewrite app_nil_r.
        split; [constructor | split; [discriminate | reflexivity]]. }
    destruct (parse_mailbox_sets _ _ _ _ E) as (_ & Hn & Hl).
    match goal with
    | |- context [X509.extract_subject_emails _ _ _ ?j ?n] =>
      destruct (IH j n) as (added & Ha & Hr)
    end.
    exists (with_type v GEN_EMAIL :: added).
    split; [constructor; [now apply name_set_with_type | exact Ha]|].
    unfold x509_constraints_names_add in Hr |- *.
    rewrite <- app_assoc in Hr. exact Hr.
Qed.

Lemma extract_subject_cns_result subject fuel : forall i names,
  exists added,
    Forall name_set added /\
    match extract_subject_cns fuel subject i names with
    | inl (e, names') => e <> X509_V_OK /\ names' = names ++ added
    | inr names' => names' = names ++ added
    end.
Proof.
  induction fuel as [|fuel IH]; intros i names;
    cbn [X509.extract_subject_cns].
  - exists []. rewrite app_nil_r. split; [constructor | reflexivity].
  - destruct (_ <? 0)%Z.
    { exists []. rewrite app_nil_r. split; [constructor | reflexivity]. }
    destruct (X509_NAME_get_entry subject _) as [cn|].
    2:{ exists []. rewrite app_nil_r.
        split; [constructor | split; [discriminate | reflexivity]]. }
    destruct (value cn) as [aname|].
    2:{ exists []. rewrite app_nil_r.
        split; [constructor | split; [discriminate | reflexivity]]. }
    destruct (negb _).
    + apply IH.
    + match goal with
      | |- context [X509.extract_subject_cns _ _ _ ?j ?n] =>
        destruct (IH j n) as (added & Ha & Hr)
      end.
      eexists (_ :: added). split; cycle 1.
      { unfold x509_constraints_names_add in Hr |- *.
        rewrite <- app_assoc in Hr. exact Hr. }
      constructor; [|exact Ha].
      apply name_set_plain; [discriminate | intros _; discriminate].
Qed.

Ltac names_app :=
  unfold x509_constraints_names_add; cbn [fst snd];
  repeat (rewrite <- app_assoc; cbn [app]); try reflexivity.

(** What [x509_constraints_extract_names] does to the names and to the
    error cell. *)
Lemma extract_names_facts (names : x509_constraints_names) (cert : X509)
    (is_leaf : bool) (error : verify_error) :
  exists added,
    snd (fst (x509_constraints_extract_names names cert is_leaf error))
    = names ++ added /\
    Forall name_set added /\
    (is_leaf = false -> List.length added <= List.length (altname cert) + 1) /\
    (fst (fst (x509_constraints_extract_names names cert is_leaf error)) = true
     -> snd (x509_constraints_extract_names names cert is_leaf error) = error)
    /\
    (fst (fst (x509_constraints_extract_names names cert is_leaf error))
     = false
     -> snd (x509_constraints_extract_names names cert is_leaf error)
        <> X509_V_OK).
Proof.
  unfold X509.x509_constraints_extract_names.
  destruct (extract_altnames_result (altname cert) names is_leaf is_leaf)
    as (a1 & Ha1 & Hl1 & Hr1).
  destruct (X509.extract_altnames inet_pton (altname cert) names is_leaf
              is_leaf) as [[e n1]|[[n1 cn] em]].
  { destruct Hr1 as [He ->]. exists a1. cbn [fst snd].
    split; [reflexivity|]. split; [exact Ha1|]. split; [lia|].
    split; [discriminate | intros _; exact He]. }
  destruct Hr1 as (-> & Hcn & Hem). cbv zeta.
  destruct (0 <? _).
  2:{ exists a1. cbn [fst snd].
      split; [reflexivity|]. split; [exact Ha1|]. split; [lia|].
      split; [reflexivity | discriminate]. }
  destruct (modified _ && _).
  { exists a1. cbn [fst snd].
    split; [reflexivity|]. split; [exact Ha1|]. split; [lia|].
    split; discriminate. }
  match goal with
  | |- context [x509_constraints_names_add (names ++ a1) ?v] =>
    set (vname := v);
    assert (Hv : name_set vname)
      by (apply name_set_plain; discriminate)
  end.
  assert (Hav : Forall name_set (a1 ++ [vname]))
    by (apply Forall_app; split; [exact Ha1 | now repeat constructor]).
  destruct em.
  - specialize (Hem eq_refl).
    match goal with
    | |- context [X509.extract_subject_emails _ ?f ?s ?i ?n] =>
      destruct (extract_subject_emails_result s f i n) as (a2 & Ha2 & Hr2);
      destruct (X509.extract_subject_emails inet_pton f s i n)
        as [[e n2]|[n2 i2]]
    end.
    { destruct Hr2 as [He ->]. exists (a1 ++ vname :: a2).
      split; [names_app|].
      split; [apply Forall_app; split; [exact Ha1 | now constructor]|].
      split; [intros E; rewrite E in Hem; discriminate|].
      cbn [fst snd]. split; [discriminate | intros _; exact He]. }
    subst n2. destruct cn.
    + match goal with
      | |- context [X509.extract_subject_cns _ ?f ?s ?i ?n] =>
        destruct (extract_subject_cns_result s f i n) as (a3 & Ha3 & Hr3);
        destruct (X509.extract_subject_cns inet_pton f s i n)
          as [[e n3]|n3]
      end.
      * destruct Hr3 as [He ->]. exists (a1 ++ vname :: a2 ++ a3).
        split; [names_app|].
        split; [apply Forall_app; split; [exact Ha1|]; constructor;
                [exact Hv | apply Forall_app; now split]|].
        split; [intros E; rewrite E in Hem; discriminate|].
        cbn [fst snd]. split; [discriminate | intros _; exact He].
      * subst n3. exists (a1 ++ vname :: a2 ++ a3).
        split; [names_app|].
        split; [apply Forall_app; split; [exact Ha1|]; constructor;
                [exact Hv | apply Forall_app; now split]|].
        split; [intros E; rewrite E in Hem; discriminate|].
        cbn [fst snd]. split; [reflexivity | discriminate].
    + exists (a1 ++ vname :: a2).
      split; [names_app|].
      split; [apply Forall_app; split; [exact Ha1 | now constructor]|].
      split; [intros E; rewrite E in Hem; discriminate|].
      cbn [fst snd]. split; [reflexivity | discriminate].
  - destruct cn.
    + specialize (Hcn eq_refl).
      match goal with
      | |- context [X509.extract_subject_cns _ ?f ?s ?i ?n] =>
        destruct (extract_subject_cns_result s f i n) as (a3 & Ha3 & Hr3);
        destruct (X509.extract_subject_cns inet_pton f s i n)
          as [[e n3]|n3]
      end.
      * destruct Hr3 as [He ->]. exists (a1 ++ vname :: a3).
        split; [names_app|].
        split; [apply Forall_app; split; [exact Ha1 | now constructor]|].
        split; [intros E; rewrite E in Hcn; discriminate|].
        cbn [fst snd]. split; [discriminate | intros _; exact He].
      * subst n3. exists (a1 ++ vname :: a3).
        split; [names_app|].
        split; [apply Forall_app; split; [exact Ha1 | now constructor]|].
        split; [intros E; rewrite E in Hcn; discriminate|].
        cbn [fst snd]. split; [reflexivity | discriminate].
    + exists (a1 ++ [vname]).
      split; [names_app|]. split; [exact Hav|].
      split; [intros _; rewrite length_app; cbn [List.length]; lia|].
      cbn [fst snd]. split; [reflexivity | discriminate].
Qed.

Lemma constraint_set_name t a n l d dl ad :
  n <> None ->
  constraint_set {| type := t; af := a; name := n; local := l; der := d;
                    der_len := dl; address := ad |}.
Proof. intros Hn _. exact Hn. Qed.

Lemma constraint_set_other t a n l d dl ad :
  string_type t = false ->
  constraint_set {| type := t; af := a; name := n; local := l; der := d;
                    der_len := dl; address := ad |}.
Proof. unfold constraint_set. cbn. intros ->. discriminate. Qed.

(** What [x509_constraints_validate] leaves in a name that was only
    allocated. *)
Lemma validate_result gn error :
  match x509_constraints_validate gn x509_constraints_name_new error with
  | (true, v, e) => e = error /\ constraint_set v
  | (false, _, e) => e <> X509_V_OK
  end.
Proof.
  unfold X509.x509_constraints_validate.
  destruct (x509_constraints_general_to_bytes gn) as [[name_type bytes] len].
  destruct (name_type =? GEN_DIRNAME)%Z.
  { destruct bytes; [|discriminate].
    destruct (len =? 0); [discriminate|].
    split; [reflexivity | now apply constraint_set_other]. }
  destruct (name_type =? GEN_DNS)%Z.
  { destruct (negb _); [discriminate|].
    split; [reflexivity | now apply constraint_set_name]. }
  destruct (name_type =? GEN_EMAIL)%Z.
  { destruct (memchr_found _ _ _).
    - destruct (X509.x509_constraints_parse_mailbox inet_pton bytes len
                  x509_constraints_name_new) as [[|] v] eqn:E;
        [|discriminate].
      destruct (parse_mailbox_sets _ _ _ _ E) as (_ & Hn & _).
      split; [reflexivity | intros _; exact Hn].
    - destruct (negb _); [discriminate|].
      split; [reflexivity | now apply constraint_set_name]. }
  destruct (name_type =? GEN_IPADD)%Z.
  { destruct ((len =? 8) || (len =? 32)); [|discriminate].
    split; [reflexivity | now apply constraint_set_other]. }
  destruct (name_type =? GEN_URI)%Z.
  { destruct (negb _); [discriminate|].
    split; [reflexivity | now apply constraint_set_name]. }
  split; [reflexivity | now apply constraint_set_other].
Qed.

Lemma extract_subtrees_result subtrees : forall names error,
  exists added,
    snd (fst (extract_subtrees subtrees names error)) = names ++ added /\
    Forall constraint_set added /\
    Forall (fun c => type c <> 0%Z) added /\
    (fst (fst (extract_subtrees subtrees names error)) = true ->
     snd (extract_subtrees subtrees names error) = error /\
     Forall no_minmax subtrees /\
     List.length added <= List.length subtrees) /\
    (fst (fst (extract_subtrees subtrees names error)) = false ->
     snd (extract_subtrees subtrees names error) <> X509_V_OK).
Proof.
  induction subtrees as [|s rest IH]; intros names error;
    cbn [X509.extract_subtrees].
  - exists []. rewrite app_nil_r. cbn [fst snd].
    split; [reflexivity|]. split; [constructor|]. split; [constructor|].
    split; [|discriminate]. intros _. split; [reflexivity|].
    split; [constructor | cbn; lia].
  - assert (Hbad : exists added : x509_constraints_names,
               names = names ++ added /\ Forall constraint_set added /\
               Forall (fun c => type c <> 0%Z) added)
      by (exists []; rewrite app_nil_r;
          split; [reflexivity | split; constructor]).
    destruct (minimum s) eqn:Emin.
    { destruct Hbad as (a & H1 & H2 & H3). exists a. cbn [fst snd].
      destruct (maximum s); (split; [exact H1|]; split; [exact H2|];
        split; [exact H3|]; split; discriminate). }
    destruct (maximum s) eqn:Emax.
    { destruct Hbad as (a & H1 & H2 & H3). exists a. cbn [fst snd].
      split; [exact H1|]. split; [exact H2|]. split; [exact H3|].
      split; discriminate. }
    pose proof (validate_result (base s) error) as Hval.
    destruct (X509.x509_constraints_validate inet_pton (base s)
                x509_constraints_name_new error) as [[[|] v] e].
    2:{ destruct Hbad as (a & H1 & H2 & H3). exists a. cbn [fst snd].
        split; [exact H1|]. split; [exact H2|]. split; [exact H3|].
        split; [discriminate | intros _; exact Hval]. }
    destruct Hval as [-> Hv].
    destruct (Z.eqb_spec (type v) 0) as [E0|E0].
    + destruct (IH names error) as (a & H1 & H2 & H3 & H4 & H5).
      exists a. split; [exact H1|]. split; [exact H2|]. split; [exact H3|].
      split; [|exact H5]. intros Hb. destruct (H4 Hb) as (He & Hm & Hl).
      split; [exact He|]. split; [|cbn; lia].
      constructor; [now split | exact Hm].
    + destruct (IH (x509_constraints_names_add names v) error)
        as (a & H1 & H2 & H3 & H4 & H5).
      exists (v :: a). unfold x509_constraints_names_add in *.
      rewrite <- app_assoc in H1. split; [exact H1|].
      split; [now constructor|]. split; [now constructor|].
      split; [|exact H5]. intros Hb. destruct (H4 Hb) as (He & Hm & Hl).
      split; [exact He|]. split; [|cbn; lia].
      constructor; [now split | exact Hm].
Qed.

(** What [x509_constraints_extract_constraints] does to the two
    collections and to the error cell. *)
Lemma extract_constraints_facts (cert : X509)
    (permitted excluded : x509_constraints_names) (error : verify_error) :
  exists ap ax,
    snd (fst (fst (x509_constraints_extract_constraints cert permitted
                     excluded error))) = permitted ++ ap /\
    snd (fst (x509_constraints_extract_constraints cert permitted
                excluded error)) = excluded ++ ax /\
    Forall constraint_set (ap ++ ax) /\
    Forall (fun c => type c <> 0%Z) (ap ++ ax) /\
    (fst (fst (fst (x509_constraints_extract_constraints cert permitted
                      excluded error))) = true ->
     snd (x509_constraints_extract_constraints cert permitted excluded error)
     = error /\
     forall c, nc cert = Some c ->
       Forall no_minmax (permittedSubtrees c ++ excludedSubtrees c) /\
       List.length ap <= List.length (permittedSubtrees c) /\
       List.length ax <= List.length (excludedSubtrees c)) /\
    (fst (fst (fst (x509_constraints_extract_constraints cert permitted
                      excluded error))) = false ->
     snd (x509_constraints_extract_constraints cert permitted excluded error)
     <> X509_V_OK).
Proof.
  unfold X509.x509_constraints_extract_constraints.
  destruct (nc cert) as [c|].
  2:{ exists [], []. rewrite !app_nil_r. cbn [fst snd app].
      split; [reflexivity|]. split; [reflexivity|].
      split; [constructor|]. split; [constructor|].
      split; [|discriminate]. intros _. split; [reflexivity|].
      intros c [=]. }
  destruct (extract_subtrees_result (permittedSubtrees c) permitted error)
    as (ap & P1 & P2 & P3 & P4 & P5).
  destruct (X509.extract_subtrees inet_pton (permittedSubtrees c) permitted
              error) as [[[|] p'] e]; cbn [fst snd] in *.
  2:{ exists ap, []. rewrite !app_nil_r. cbn [fst snd].
      split; [exact P1|]. split; [reflexivity|].
      split; [exact P2|]. split; [exact P3|].
      split; [discriminate | exact P5]. }
  destruct (P4 eq_refl) as (-> & Pm & Pl).
  destruct (extract_subtrees_result (excludedSubtrees c) excluded error)
    as (ax & X1 & X2 & X3 & X4 & X5).
  destruct (X509.extract_subtrees inet_pton (excludedSubtrees c) excluded
              error) as [[[|] x'] e']; cbn [fst snd] in *.
  - exists ap, ax. destruct (X4 eq_refl) as (-> & Xm & Xl).
    split; [exact P1|]. split; [exact X1|].
    split; [apply Forall_app; now split|].
    split; [apply Forall_app; now split|].
    split; [|discriminate]. intros _. split; [reflexivity|].
    intros c0 [= <-]. split; [apply Forall_app; now split|]. now split.
  - exists ap, ax.
    split; [exact P1|]. split; [exact X1|].
    split; [apply Forall_app; now split|].
    split; [apply Forall_app; now split|].
    split; [discriminate | exact X5].
Qed.

(** ** The check and the chain walk *)

(** On names and constraints whose strings are set the check reads no
    NULL pointer; when it succeeds every name passes. *)
Lemma check_result names permitted excluded error :
  Forall name_set names -> Forall constraint_set permitted ->
  Forall constraint_set excluded ->
  exists b e,
    x509_constraints_check names permitted excluded error = Some (b, e) /\
    (b = true ->
     e = error /\
     forall nm, In nm names -> name_passes permitted excluded nm) /\
    (b = false -> e <> X509_V_OK).
Proof.
  intros Hn Hp Hx. induction Hn as [|nm rest Hnm Hrest IH];
    cbn [x509_constraints_check].
  - exists true, error. split; [reflexivity|]. split; [|discriminate].
    intros _. split; [reflexivity | intros nm []].
  - assert (Hdx : forall x, In x excluded ->
                            x509_constraints_match nm x <> None)
      by (intros x Hin; apply match_defined;
          [exact Hnm | now apply (proj1 (Forall_forall _ _) Hx)]).
    assert (Hdp : forall p, In p permitted ->
                            x509_constraints_match nm p <> None)
      by (intros p Hin; apply match_defined;
          [exact Hnm | now apply (proj1 (Forall_forall _ _) Hp)]).
    destruct (check_excluded_spec nm excluded Hdx) as (bx & Ex & Hbx).
    rewrite Ex. destruct bx.
    { exists false, X509_V_ERR_EXCLUDED_VIOLATION.
      split; [reflexivity|]. split; discriminate. }
    assert (Hnx : forall x, In x excluded -> ~ matches nm x).
    { intros x Hin Hm. assert (false = true) by (apply Hbx; now exists x).
      discriminate. }
    destruct (check_permitted_spec nm permitted Hdp 0)
      as (seen & matched & Ep & Hpm).
    rewrite Ep.
    destruct IH as (b & e & Ec & Ht & Hf).
    destruct Hpm as [(-> & Hs & Hex) | (-> & Hno & Hseen)].
    + rewrite andb_false_r. exists b, e. split; [exact Ec|].
      split; [|exact Hf]. intros Hb. destruct (Ht Hb) as [He Hall].
      split; [exact He|]. intros n [<-|Hin]; [|now apply Hall].
      split; [exact Hnx | intros _; exact Hex].
    + cbn [Nat.eqb]. rewrite andb_true_r.
      destruct (Nat.eqb_spec seen 0) as [E0|E0]; cbn [negb].
      * exists b, e. split; [exact Ec|].
        split; [|exact Hf]. intros Hb. destruct (Ht Hb) as [He Hall].
        split; [exact He|]. intros n [<-|Hin]; [|now apply Hall].
        split; [exact Hnx|]. intros Hex. exfalso.
        apply (proj2 (proj1 Hseen E0)). exact Hex.
      * exists false, X509_V_ERR_PERMITTED_VIOLATION.
        split; [reflexivity|]. split; discriminate.
Qed.

#[local] Abbreviation chain_loop :=
  (chain_loop X509_VERIFY_MAX_CHAIN_NAMES X509_VERIFY_MAX_CHAIN_CONSTRAINTS
     inet_pton).
#[local] Abbreviation x509_constraints_chain :=
  (x509_constraints_chain X509_VERIFY_MAX_CHAIN_NAMES
     X509_VERIFY_MAX_CHAIN_CONSTRAINTS inet_pton).

(** The loop of the chain walk from index [i] on: it reads no NULL
    pointer; when it runs to the end the two cells are untouched, every
    certificate is there, and the names collected before a certificate
    with name constraints pass them; when it stops the error cell holds
    an error code and the depth cell the index it stopped at. *)
Lemma chain_loop_result error depth rest : forall i names cc log,
  Forall name_set names ->
  exists r,
    chain_loop rest i names cc X509_V_ERR_UNSPECIFIED error depth log
    = Some r /\
    (ret r = true ->
     X509.error r = error /\ X509.depth r = depth /\
     Forall (fun c => c <> None) rest /\
     forall k cert c0,
       nth_error rest k = Some (Some cert) -> nc cert = Some c0 ->
       exists permitted excluded,
         x509_constraints_extract_constraints cert [] []
           X509_V_ERR_UNSPECIFIED
         = (true, permitted, excluded, X509_V_ERR_UNSPECIFIED) /\
         forall nm, In nm (chain_names inet_pton (firstn k rest) false names) ->
                    name_passes permitted excluded nm) /\
    (ret r = false ->
     X509.error r <> X509_V_OK /\
     (Z.of_nat i <= X509.depth r < Z.of_nat (i + List.length rest))%Z).
Proof.
  induction rest as [|[cert|] rest IH]; intros i names cc log Hn;
    cbn [X509.chain_loop].
  - eexists. split; [reflexivity|]. cbn [ret X509.error X509.depth].
    split; [|discriminate]. intros _.
    split; [reflexivity|]. split; [reflexivity|]. split; [constructor|].
    intros [|k] cert c0 H; discriminate H.
  - (* what follows the constraints of this certificate *)
    assert (Htail : forall cc' log',
      exists r,
        match X509.x509_constraints_extract_names inet_pton names cert false
                X509_V_ERR_UNSPECIFIED with
        | (false, _, e) => chain_err e i log'
        | (true, names', e) =>
          if X509_VERIFY_MAX_CHAIN_NAMES <? List.length names'
          then chain_err X509_V_ERR_OUT_OF_MEM i log'
          else chain_loop rest (S i) names' cc' e error depth log'
        end = Some r /\
        (ret r = true ->
         X509.error r = error /\ X509.depth r = depth /\
         Forall (fun c => c <> None) rest /\
         forall k cert' c0,
           nth_error rest k = Some (Some cert') -> nc cert' = Some c0 ->
           exists permitted excluded,
             x509_constraints_extract_constraints cert' [] []
               X509_V_ERR_UNSPECIFIED
             = (true, permitted, excluded, X509_V_ERR_UNSPECIFIED) /\
             forall nm,
               In nm (chain_names inet_pton
                        (firstn (S k) (Some cert :: rest)) false
                        names) ->
               name_passes permitted excluded nm) /\
        (ret r = false ->
         X509.error r <> X509_V_OK /\
         (Z.of_nat i <= X509.depth r
          < Z.of_nat (i + List.length (Some cert :: rest)))%Z)).
    { intros cc' log'.
      destruct (extract_names_facts names cert false X509_V_ERR_UNSPECIFIED)
        as (added & Ha & Hs & _ & Hok & Hbad).
      cbn [firstn chain_names].
      destruct (X509.x509_constraints_extract_names inet_pton names cert
                  false X509_V_ERR_UNSPECIFIED) as [[[|] names'] e];
        cbn [fst snd] in *.
      - rewrite (Hok eq_refl).
        destruct (X509_VERIFY_MAX_CHAIN_NAMES <? List.length names').
        + eexists. split; [reflexivity|].
          cbn [ret X509.error X509.depth List.length].
          split; [discriminate|]. intros _. split; [discriminate | lia].
        + destruct (IH (S i) names' cc' log')
            as (r & Er & Ht & Hf).
          { rewrite Ha. apply Forall_app. now split. }
          exists r. split; [exact Er|]. split; [exact Ht|].
          intros Hb. destruct (Hf Hb) as [He Hd]. split; [exact He|].
          cbn [List.length]. lia.
      - eexists. split; [reflexivity|].
        cbn [ret X509.error X509.depth List.length].
        split; [discriminate|]. intros _.
        split; [now apply Hbad | lia]. }
    assert (Hfail : forall e log', e <> X509_V_OK ->
      exists r, chain_err e i log' = Some r /\
        (ret r = true ->
         X509.error r = error /\ X509.depth r = depth /\
         Forall (fun c => c <> None) (Some cert :: rest) /\
         forall k cert' c0,
           nth_error (Some cert :: rest) k = Some (Some cert') ->
           nc cert' = Some c0 ->
           exists permitted excluded,
             x509_constraints_extract_constraints cert' [] []
               X509_V_ERR_UNSPECIFIED
             = (true, permitted, excluded, X509_V_ERR_UNSPECIFIED) /\
             forall nm,
               In nm (chain_names inet_pton (firstn k (Some cert :: rest)) false
                        names) ->
               name_passes permitted excluded nm) /\
        (ret r = false ->
         X509.error r <> X509_V_OK /\
         (Z.of_nat i <= X509.depth r
          < Z.of_nat (i + List.length (Some cert :: rest)))%Z)).
    { intros e log' He. eexists. split; [reflexivity|].
      cbn [ret X509.error X509.depth List.length].
      split; [discriminate|]. intros _. split; [exact He | lia]. }
    destruct (nc cert) as [c|] eqn:Enc.
    + destruct (extract_constraints_facts cert [] [] X509_V_ERR_UNSPECIFIED)
        as (ap & ax & P1 & X1 & Hcs & _ & Hok & Hbad).
      unfold x509_constraints_names_new.
      destruct (X509.x509_constraints_extract_constraints inet_pton cert
                  [] [] X509_V_ERR_UNSPECIFIED)
        as [[[[|] permitted] excluded] e] eqn:Eec; cbn [fst snd] in *.
      2:{ apply Hfail. now apply Hbad. }
      destruct (Hok eq_refl) as [-> _].
      destruct (X509_VERIFY_MAX_CHAIN_CONSTRAINTS <? _).
      { apply Hfail. discriminate. }
      apply Forall_app in Hcs as [Hcp Hcx].
      cbn [app] in P1, X1. subst permitted excluded.
      destruct (check_result names ap ax X509_V_ERR_UNSPECIFIED Hn Hcp Hcx)
        as (b & e & Ec & Ht & Hf).
      rewrite Ec. destruct b.
      2:{ apply Hfail. now apply Hf. }
      destruct (Ht eq_refl) as [-> Hpass].
      destruct (Htail (cc + List.length ap + List.length ax)
                  (((log ++ [call_extract_constraints i]) ++ [call_check i])
                   ++ [call_extract_names i]))
        as (r & Er & Hrt & Hrf).
      exists r. split; [exact Er|]. split; [|exact Hrf].
      intros Hb. destruct (Hrt Hb) as (He & Hd & Hall & Hk).
      split; [exact He|]. split; [exact Hd|].
      split; [constructor; [discriminate | exact Hall]|].
      intros [|k] cert' c0 Hnth Hnc.
      * injection Hnth as <-. exists ap, ax. split; [exact Eec|].
        cbn [firstn chain_names]. exact Hpass.
      * now apply (Hk k cert' c0).
    + destruct (Htail cc (log ++ [call_extract_names i]))
        as (r & Er & Hrt & Hrf).
      exists r. split; [exact Er|]. split; [|exact Hrf].
      intros Hb. destruct (Hrt Hb) as (He & Hd & Hall & Hk).
      split; [exact He|]. split; [exact Hd|].
      split; [constructor; [discriminate | exact Hall]|].
      intros [|k] cert' c0 Hnth Hnc.
      * injection Hnth as <-. rewrite Enc in Hnc. discriminate Hnc.
      * now apply (Hk k cert' c0).
  - eexists. split; [reflexivity|].
    cbn [ret X509.error X509.depth List.length].
    split; [discriminate|]. intros _. split; [discriminate | lia].
Qed.

(** The chain walk as a whole. *)
Lemma chain_facts chain error depth :
  exists r,
    x509_constraints_chain chain error depth = Some r /\
    (ret r = true ->
     X509.error r = error /\ X509.depth r = depth /\
     forall certs, chain = Some certs ->
       (2 <= List.length certs -> Forall (fun c => c <> None) certs) /\
       forall k cert c0,
         1 <= k -> nth_error certs k = Some (Some cert) ->
         nc cert = Some c0 ->
         exists permitted excluded,
           x509_constraints_extract_constraints cert [] []
             X509_V_ERR_UNSPECIFIED
           = (true, permitted, excluded, X509_V_ERR_UNSPECIFIED) /\
           forall nm, In nm (chain_names inet_pton (firstn k certs) true []) ->
                      name_passes permitted excluded nm) /\
    (ret r = false ->
     X509.error r <> X509_V_OK /\ (0 <= X509.depth r)%Z /\
     forall certs, chain = Some certs -> certs <> [] ->
       (X509.depth r < Z.of_nat (List.length certs))%Z).
Proof.
  unfold X509.x509_constraints_chain.
  assert (Hfail : forall e log, e <> X509_V_OK ->
    exists r, chain_err e 0 log = Some r /\
      (ret r = true ->
       X509.error r = error /\ X509.depth r = depth /\
       forall certs, chain = Some certs ->
         (2 <= List.length certs -> Forall (fun c => c <> None) certs) /\
         forall k cert c0,
           1 <= k -> nth_error certs k = Some (Some cert) ->
           nc cert = Some c0 ->
           exists permitted excluded,
             x509_constraints_extract_constraints cert [] []
               X509_V_ERR_UNSPECIFIED
             = (true, permitted, excluded, X509_V_ERR_UNSPECIFIED) /\
             forall nm,
               In nm (chain_names inet_pton (firstn k certs) true []) ->
               name_passes permitted excluded nm) /\
      (ret r = false ->
       X509.error r <> X509_V_OK /\ (0 <= X509.depth r)%Z /\
       forall certs, chain = Some certs -> certs <> [] ->
         (X509.depth r < Z.of_nat (List.length certs))%Z)).
  { intros e log He. eexists. split; [reflexivity|].
    cbn [ret X509.error X509.depth]. split; [discriminate|]. intros _.
    split; [exact He|]. split; [lia|].
    intros certs' _ Hne. destruct certs'; [now elim Hne | cbn; lia]. }
  destruct chain as [certs|]; [|apply Hfail; discriminate].
  destruct certs as [|c0 [|c1 rest]].
  - apply Hfail. discriminate.
  - cbn [List.length Nat.eqb]. eexists. split; [reflexivity|].
    cbn [ret X509.error X509.depth]. split; [|discriminate]. intros _.
    split; [reflexivity|]. split; [reflexivity|]. intros certs [= <-].
    split; [cbn; lia|]. intros [|[|k]] cert c H1 Hn; [lia | | ];
      discriminate Hn.
  - cbn [List.length Nat.eqb].
    destruct c0 as [cert|];
      [|apply Hfail; discriminate].
    destruct (extract_names_facts x509_constraints_names_new cert true
                X509_V_ERR_UNSPECIFIED) as (added & Ha & Hs & _ & Hok & Hbad).
    destruct (X509.x509_constraints_extract_names inet_pton
                x509_constraints_names_new cert true X509_V_ERR_UNSPECIFIED)
      as [[[|] names] e] eqn:Een; cbn [fst snd] in *.
    2:{ apply Hfail. now apply Hbad. }
    rewrite (Hok eq_refl).
    destruct (chain_loop_result error depth (c1 :: rest) 1 names 0
                [call_extract_names 0]) as (r & Er & Ht & Hf).
    { rewrite Ha. exact Hs. }
    exists r. split; [exact Er|]. split.
    + intros Hb. destruct (Ht Hb) as (He & Hd & Hall & Hk).
      split; [exact He|]. split; [exact Hd|]. intros certs [= <-].
      split; [intros _; constructor; [discriminate | exact Hall]|].
      intros [|k] cert' c Hk1 Hn Hnc; [lia|].
      cbn [nth_error] in Hn.
      destruct (Hk k cert' c Hn Hnc) as (p & x & Ep & Hp).
      exists p, x. split; [exact Ep|].
      cbn [firstn chain_names]. unfold x509_constraints_names_new in Een.
      rewrite Een. cbn [fst snd]. exact Hp.
    + intros Hb. destruct (Hf Hb) as (He & Hd).
      split; [exact He|]. split; [lia|]. intros certs [= <-] _.
      cbn [List.length] in *. lia.
Qed.

(** X19: [x509_constraints_extract_names] only appends to the names it is
    given, also when it fails; every name it appends has the strings set
    that the matcher reads for its type; on success the error cell is
    untouched, on failure it holds an error code; for a certificate that
    is not the leaf it appends one name per alternative name at most and
    one for the subject, none for a commonName or an emailAddress. *)
Theorem extract_names_extends (names : x509_constraints_names) (cert : X509)
    (is_leaf : bool) (error : verify_error) :
  let '(b, names', e) :=
    x509_constraints_extract_names names cert is_leaf error in
  (exists added,
     names' = names ++ added /\ Forall name_set added /\
     (is_leaf = false ->
      List.length added <= List.length (altname cert) + 1)) /\
  (b = true -> e = error) /\ (b = false -> e <> X509_V_OK).
Proof.
  destruct (extract_names_facts names cert is_leaf error)
    as (added & Ha & Hs & Hl & Hok & Hbad).
  destruct (X509.x509_constraints_extract_names inet_pton names cert is_leaf
              error) as [[b names'] e]; cbn [fst snd] in *.
  split; [exists added; now repeat split|]. now split.
Qed.

(** X20: [x509_constraints_extract_constraints] only appends to the two
    collections it is given; it appends no entry of type 0, and every
    entry it appends has the string set that the matcher reads for its
    type.  It succeeds only if no subtree of the certificate carries a
    minimum or a maximum, and then leaves the error cell untouched; when
    it fails the error cell holds an error code. *)
Theorem extract_constraints_result (cert : X509)
    (permitted excluded : x509_constraints_names) (error : verify_error) :
  let '(b, permitted', excluded', e) :=
    x509_constraints_extract_constraints cert permitted excluded error in
  (exists ap ax,
     permitted' = permitted ++ ap /\ excluded' = excluded ++ ax /\
     Forall constraint_set (ap ++ ax) /\
     Forall (fun c => type c <> 0%Z) (ap ++ ax)) /\
  (b = true ->
   e = error /\
   forall c, nc cert = Some c ->
     Forall no_minmax (permittedSubtrees c ++ excludedSubtrees c)) /\
  (b = false -> e <> X509_V_OK).
Proof.
  destruct (extract_constraints_facts cert permitted excluded error)
    as (ap & ax & Hp & Hx & Hs & Ht & Hok & Hbad).
  destruct (X509.x509_constraints_extract_constraints inet_pton cert
              permitted excluded error) as [[[b p'] x'] e];
    cbn [fst snd] in *.
  split; [exists ap, ax; now repeat split|]. split; [|exact Hbad].
  intros Hb. destruct (Hok Hb) as [He Hc]. split; [exact He|].
  intros c Hnc. now destruct (Hc c Hnc).
Qed.


(** X22: when [x509_constraints_chain] returns 1 the error and the depth
    cell are as the caller left them; when it returns 0 the error cell
    holds an error code and the depth cell an index that is not
    negative and, for a chain that is not empty, below its length. *)
Theorem chain_outcome (chain : option (list (option X509)))
    (error : verify_error) (depth : Z) (r : chain_result) :
  x509_constraints_chain chain error depth = Some r ->
  (ret r = true -> X509.error r = error /\ X509.depth r = depth) /\
  (ret r = false ->
   X509.error r <> X509_V_OK /\ (0 <= X509.depth r)%Z /\
   forall certs, chain = Some certs -> certs <> [] ->
     (X509.depth r < Z.of_nat (List.length certs))%Z).
Proof.
  destruct (chain_facts chain error depth) as (r' & Er & Ht & Hf).
  rewrite Er. intros [= <-]. split; [|exact Hf].
  intros Hb. destruct (Ht Hb) as (He & Hd & _). now split.
Qed.

(** X23: when [x509_constraints_chain] returns 1 on a chain of two or
    more certificates, every certificate is there, and for every
    certificate above the leaf that carries name constraints the
    constraints were extracted and every name collected from the
    certificates below it passes them: no excluded entry matches it, and
    if a permitted entry of its type exists, one matches it. *)
Theorem chain_success_names_pass (certs : list (option X509))
    (error : verify_error) (depth : Z) (r : chain_result) :
  x509_constraints_chain (Some certs) error depth = Some r ->
  ret r = true ->
  (2 <= List.length certs -> Forall (fun c => c <> None) certs) /\
  forall k cert c0,
    1 <= k -> nth_error certs k = Some (Some cert) -> nc cert = Some c0 ->
    exists permitted excluded,
      x509_constraints_extract_constraints cert [] [] X509_V_ERR_UNSPECIFIED
      = (true, permitted, excluded, X509_V_ERR_UNSPECIFIED) /\
      forall nm, In nm (chain_names inet_pton (firstn k certs) true []) ->
                 name_passes permitted excluded nm.
Proof.
  destruct (chain_facts (Some certs) error depth) as (r' & Er & Ht & _).
  rewrite Er. intros [= <-] Hb.
  destruct (Ht Hb) as (_ & _ & H). now apply H.
Qed.

End Extract.

(** ** Evaluated cases *)

Lemma valid_sandns_wildcard_witness :
  x509_constraints_valid_sandns (bytes "*.example.com") 13 = true /\
  0 < 13 /\ byte_at (bytes "*.example.com") 0 <> "."%char /\
  forall j, j < 13 -> byte_at (bytes "*.example.com") j = "*"%char ->
    j = 0 /\ 4 <= 13 /\ byte_at (bytes "*.example.com") 1 = "."%char.
Proof.
  split; [vm_compute; reflexivity|].
  apply (valid_sandns_wildcard (bytes "*.example.com") 13).
  vm_compute; reflexivity.
Defined.

Lemma valid_host_no_wildcard_witness :
  x509_constraints_valid_host inet_pton_model (bytes "example.com") 11 = true
  /\ 0 < 11 /\ byte_at (bytes "example.com") 0 <> "."%char /\
  (forall j, j < 11 -> byte_at (bytes "example.com") j <> "*"%char) /\
  inet_pton_model AF_INET (cstr (bytes "example.com")) <> 1%Z /\
  inet_pton_model AF_INET6 (cstr (bytes "example.com")) <> 1%Z /\
  (byte_at (bytes "example.com") 11 = NUL ->
   inet_pton_model AF_INET (firstn 11 (bytes "example.com")) <> 1%Z /\
   inet_pton_model AF_INET6 (firstn 11 (bytes "example.com")) <> 1%Z) /\
  x509_constraints_valid_sandns (bytes "example.com") 11 = true.
Proof.
  split; [vm_compute; reflexivity|].
  apply (valid_host_no_wildcard inet_pton_model (bytes "example.com") 11).
  vm_compute; reflexivity.
Defined.

(** A span that is accepted although its [len] bytes are the text of an
    address: a '/' follows them, and the address test reads it too. *)
Example valid_host_address_span :
  x509_constraints_valid_host inet_pton_model (bytes "192.0.2.1/") 9 = true /\
  inet_pton_model AF_INET (firstn 9 (bytes "192.0.2.1/")) = 1%Z /\
  inet_pton_model AF_INET (cstr (bytes "192.0.2.1/")) = 0%Z.
Proof. repeat split; vm_compute; reflexivity. Qed.

Lemma parse_mailbox_unquoted_witness :
  byte_at (bytes "user@example.com") 0 <> DQUOTE /\
  (x509_constraints_parse_mailbox inet_pton_model
     (Some (bytes "user@example.com"))
     (List.length (bytes "user@example.com")) x509_constraints_name_new
   = (true, {| type := GEN_EMAIL; af := af x509_constraints_name_new;
               name := Some (bytes "example.com");
               local := Some (bytes "user");
               der := der x509_constraints_name_new;
               der_len := der_len x509_constraints_name_new;
               address := address x509_constraints_name_new |}) <->
   bytes "user@example.com" = bytes "user" ++ "@"%char :: bytes "example.com"
   /\ bytes "user" <> [] /\ List.length (bytes "user") <= 64 /\
   Forall (fun c => local_part_ok c = true) (bytes "user") /\
   byte_at (bytes "user") 0 <> "."%char /\
   x509_constraints_valid_host inet_pton_model (bytes "example.com")
     (List.length (bytes "example.com")) = true).
Proof.
  assert (H : byte_at (bytes "user@example.com") 0 <> DQUOTE)
    by (vm_compute; discriminate).
  split; [exact H|].
  exact (parse_mailbox_unquoted inet_pton_model (bytes "user@example.com")
           (bytes "user") (bytes "example.com") x509_constraints_name_new H).
Defined.

Lemma parse_mailbox_parts_witness :
  x509_constraints_parse_mailbox inet_pton_model
    (Some (DQUOTE :: bytes "quoted user" ++ DQUOTE :: bytes "@example.com"))
    25 x509_constraints_name_new
  = (true,
     {| type := GEN_EMAIL; af := 0; name := Some (bytes "example.com");
        local := Some (DQUOTE :: bytes "quoted user" ++ [DQUOTE]);
        der := []; der_len := 0; address := repeat NUL 32 |}) /\
  exists l d pre,
    {| type := GEN_EMAIL; af := 0; name := Some (bytes "example.com");
       local := Some (DQUOTE :: bytes "quoted user" ++ [DQUOTE]);
       der := []; der_len := 0; address := repeat NUL 32 |}
    = {| type := GEN_EMAIL; af := af x509_constraints_name_new;
         name := Some d; local := Some l;
         der := der x509_constraints_name_new;
         der_len := der_len x509_constraints_name_new;
         address := address x509_constraints_name_new |} /\
    firstn 25
      (DQUOTE :: bytes "quoted user" ++ DQUOTE :: bytes "@example.com")
    = pre ++ "@"%char :: d /\
    25 <= List.length
            (DQUOTE :: bytes "quoted user" ++ DQUOTE :: bytes "@example.com")
    /\ 1 <= List.length l <= 64 /\ List.length l <= List.length pre /\
    no_nul l /\
    x509_constraints_valid_host inet_pton_model d (List.length d) = true.
Proof.
  assert (H : x509_constraints_parse_mailbox inet_pton_model
                (Some (DQUOTE :: bytes "quoted user"
                       ++ DQUOTE :: bytes "@example.com"))
                25 x509_constraints_name_new
              = (true,
                 {| type := GEN_EMAIL; af := 0;
                    name := Some (bytes "example.com");
                    local := Some (DQUOTE :: bytes "quoted user" ++ [DQUOTE]);
                    der := []; der_len := 0; address := repeat NUL 32 |}))
    by (vm_compute; reflexivity).
  split; [exact H|].
  exact (parse_mailbox_parts inet_pton_model _ _ _ _ H).
Defined.

Lemma uri_host_result_valid_witness :
  x509_constraints_uri_host inet_pton_model
    (bytes "https://user@host.example.com:443/path")
    (List.length (bytes "https://user@host.example.com:443/path"))
  = Some (bytes "host.example.com") /\
  (exists p t, bytes "https://user@host.example.com:443/path"
               = p ++ bytes "host.example.com" ++ t) /\
  0 < List.length (bytes "host.example.com") <= 255 /\
  no_nul (bytes "host.example.com") /\
  strlen (bytes "host.example.com") = List.length (bytes "host.example.com")
  /\ Forall (fun c => host_char c = true) (bytes "host.example.com") /\
  byte_at (bytes "host.example.com") 0 <> "."%char /\
  x509_constraints_valid_domain (bytes "host.example.com")
    (List.length (bytes "host.example.com")) = true.
Proof.
  assert (H : x509_constraints_uri_host inet_pton_model
                (bytes "https://user@host.example.com:443/path")
                (List.length (bytes "https://user@host.example.com:443/path"))
              = Some (bytes "host.example.com"))
    by (vm_compute; reflexivity).
  split; [exact H|].
  exact (uri_host_result_valid inet_pton_model _ _ H).
Defined.

Lemma domain_rule_witness :
  no_nul (bytes "www.Example.com") /\ no_nul (bytes ".example.COM") /\
  (x509_constraints_domain (bytes "www.Example.com")
     (List.length (bytes "www.Example.com")) (bytes ".example.COM")
     (List.length (bytes ".example.COM")) = true <->
   bytes ".example.COM" = [] \/
   (byte_at (bytes ".example.COM") 0 = "."%char /\
    exists p s, bytes "www.Example.com" = p ++ s
                /\ ci_eq s (bytes ".example.COM")) \/
   (byte_at (bytes ".example.COM") 0 <> "."%char /\
    byte_at (bytes "www.Example.com") 0 = "."%char /\
    exists p s, bytes ".example.COM" = p ++ s
                /\ ci_eq s (bytes "www.Example.com")) \/
   (byte_at (bytes ".example.COM") 0 <> "."%char /\
    byte_at (bytes "www.Example.com") 0 <> "."%char /\
    ci_eq (bytes "www.Example.com") (bytes ".example.COM"))).
Proof.
  assert (H1 : no_nul (bytes "www.Example.com")) by no_nul_dec.
  assert (H2 : no_nul (bytes ".example.COM")) by no_nul_dec.
  split; [exact H1|]. split; [exact H2|].
  exact (domain_rule _ _ H1 H2).
Defined.

Lemma match_host_rule_witness :
  (type (email_name "user" "mail.example.com") = GEN_URI \/
   (type (email_name "user" "mail.example.com") = GEN_EMAIL /\
    local (domain_constraint GEN_EMAIL ".example.com") = None)) /\
  type (domain_constraint GEN_EMAIL ".example.com")
  = type (email_name "user" "mail.example.com") /\
  name (email_name "user" "mail.example.com")
  = Some (bytes "mail.example.com") /\
  name (domain_constraint GEN_EMAIL ".example.com")
  = Some (bytes ".example.com") /\
  no_nul (bytes "mail.example.com") /\ no_nul (bytes ".example.com") /\
  byte_at (bytes "mail.example.com") 0 <> "."%char /\
  (x509_constraints_match (email_name "user" "mail.example.com")
     (domain_constraint GEN_EMAIL ".example.com") = Some true <->
   bytes ".example.com" = [] \/
   (byte_at (bytes ".example.com") 0 = "."%char /\
    exists p s, bytes "mail.example.com" = p ++ s
                /\ ci_eq s (bytes ".example.com")) \/
   (byte_at (bytes ".example.com") 0 <> "."%char /\
    ci_eq (bytes "mail.example.com") (bytes ".example.com"))).
Proof.
  assert (H1 : no_nul (bytes "mail.example.com")) by no_nul_dec.
  assert (H2 : no_nul (bytes ".example.com")) by no_nul_dec.
  assert (H3 : byte_at (bytes "mail.example.com") 0 <> "."%char)
    by (vm_compute; discriminate).
  split; [right; split; reflexivity|]. split; [reflexivity|].
  split; [reflexivity|]. split; [reflexivity|].
  split; [exact H1|]. split; [exact H2|]. split; [exact H3|].
  exact (match_host_rule (email_name "user" "mail.example.com")
           (domain_constraint GEN_EMAIL ".example.com")
           (bytes "mail.example.com") (bytes ".example.com")
           (or_intror (conj eq_refl eq_refl)) eq_refl eq_refl eq_refl
           H1 H2 H3).
Defined.

Lemma match_ipaddr_witness :
  type example_address = GEN_IPADD /\ type example_network = GEN_IPADD /\
  (x509_constraints_match example_address example_network = Some true <->
   (af example_address = AF_INET \/ af example_address = AF_INET6) /\
   af example_network = af example_address /\
   forall j, j < (if (af example_address =? AF_INET)%Z then 4 else 16) ->
     byte_and (byte_at (address example_address) j)
       (byte_at (address example_network)
          ((if (af example_address =? AF_INET)%Z then 4 else 16) + j))
     = byte_and (byte_at (address example_network) j)
         (byte_at (address example_network)
            ((if (af example_address =? AF_INET)%Z then 4 else 16) + j))).
Proof.
  split; [reflexivity|]. split; [reflexivity|].
  exact (match_ipaddr example_address example_network eq_refl eq_refl).
Defined.

Lemma match_dirname_witness :
  type (dir_name [48; 3; 49; 1; 65]) = GEN_DIRNAME /\
  type (dir_name [48; 3; 49; 1; 65]) = GEN_DIRNAME /\
  (x509_constraints_match (dir_name [48; 3; 49; 1; 65])
     (dir_name [48; 3; 49; 1; 65]) = Some true <->
   der_len (dir_name [48; 3; 49; 1; 65])
   = der_len (dir_name [48; 3; 49; 1; 65]) /\
   forall j, j < der_len (dir_name [48; 3; 49; 1; 65]) ->
     byte_at (der (dir_name [48; 3; 49; 1; 65])) j
     = byte_at (der (dir_name [48; 3; 49; 1; 65])) j).
Proof.
  split; [reflexivity|]. split; [reflexivity|].
  exact (match_dirname (dir_name [48; 3; 49; 1; 65])
           (dir_name [48; 3; 49; 1; 65]) eq_refl eq_refl).
Defined.

Lemma chain_outcome_witness :
  x509_constraints_chain 512 512 inet_pton_model
    (Some [Some example_leaf;
           Some (example_ca [] [dNSName (ia5 ".example.com")])])
    X509_V_OK 7
  = Some {| ret := false; error := X509_V_ERR_EXCLUDED_VIOLATION;
            depth := 1;
            calls := [call_extract_names 0; call_extract_constraints 1;
                      call_check 1] |} /\
  (false = true -> X509_V_ERR_EXCLUDED_VIOLATION = X509_V_OK /\ 1%Z = 7%Z) /\
  (false = false ->
   X509_V_ERR_EXCLUDED_VIOLATION <> X509_V_OK /\ (0 <= 1)%Z /\
   forall certs,
     Some [Some example_leaf;
           Some (example_ca [] [dNSName (ia5 ".example.com")])]
     = Some certs ->
     certs <> [] -> (1 < Z.of_nat (List.length certs))%Z).
Proof.
  assert (H : x509_constraints_chain 512 512 inet_pton_model
                (Some [Some example_leaf;
                       Some (example_ca [] [dNSName (ia5 ".example.com")])])
                X509_V_OK 7
              = Some {| ret := false; error := X509_V_ERR_EXCLUDED_VIOLATION;
                        depth := 1;
                        calls := [call_extract_names 0;
                                  call_extract_constraints 1;
                                  call_check 1] |})
    by (vm_compute; reflexivity).
  split; [exact H|].
  exact (chain_outcome 512 512 inet_pton_model _ _ _ _ H).
Defined.

Lemma chain_success_names_pass_witness :
  x509_constraints_chain 512 512 inet_pton_model
    (Some [Some example_leaf;
           Some (example_ca [dNSName (ia5 ".example.com")] [])])
    X509_V_OK 7
  = Some {| ret := true; error := X509_V_OK; depth := 7;
            calls := [call_extract_names 0; call_extract_constraints 1;
                      call_check 1; call_extract_names 1] |} /\
  (2 <= List.length
          [Some example_leaf;
           Some (example_ca [dNSName (ia5 ".example.com")] [])] ->
   Forall (fun c => c <> None)
     [Some example_leaf;
      Some (example_ca [dNSName (ia5 ".example.com")] [])]) /\
  forall k cert c0,
    1 <= k ->
    nth_error [Some example_leaf;
               Some (example_ca [dNSName (ia5 ".example.com")] [])] k
    = Some (Some cert) ->
    nc cert = Some c0 ->
    exists permitted excluded,
      x509_constraints_extract_constraints inet_pton_model cert [] []
        X509_V_ERR_UNSPECIFIED
      = (true, permitted, excluded, X509_V_ERR_UNSPECIFIED) /\
      forall nm,
        In nm (chain_names inet_pton_model
                 (firstn k
                    [Some example_leaf;
                     Some (example_ca [dNSName (ia5 ".example.com")] [])])
                 true []) ->
        name_passes permitted excluded nm.
Proof.
  assert (H : x509_constraints_chain 512 512 inet_pton_model
                (Some [Some example_leaf;
                       Some (example_ca [dNSName (ia5 ".example.com")] [])])
                X509_V_OK 7
              = Some {| ret := true; error := X509_V_OK; depth := 7;
                        calls := [call_extract_names 0;
                                  call_extract_constraints 1;
                                  call_check 1; call_extract_names 1] |})
    by (vm_compute; reflexivity).
  split; [exact H|].
  exact (chain_success_names_pass 512 512 inet_pton_model _ _ _ _ H eq_refl).
Defined.

End X509Extra.

(* ===================================================================== *)
(** * Part VII: properties of the security levels *)
(* ===================================================================== *)

Module SeclevelFacts.
Import Seclevel.
Local Open Scope Z_scope.

(** The level in force lies between 0 and 5, and grows with the level
    that was set. *)
Lemma clamp_level_range l : 0 <= clamp_level l <= 5.
Proof. unfold clamp_level. lia. Qed.

Lemma clamp_level_mono l1 l2 : l1 <= l2 -> clamp_level l1 <= clamp_level l2.
Proof. unfold clamp_level. lia. Qed.

Lemma level_cases c :
  0 <= c <= 5 -> c = 0 \/ c = 1 \/ c = 2 \/ c = 3 \/ c = 4 \/ c = 5.
Proof. lia. Qed.

Lemma level_bits_mono c1 c2 :
  0 <= c1 -> c1 <= c2 -> c2 <= 5 -> level_bits c1 <= level_bits c2.
Proof.
  intros H0 H1 H2.
  destruct (level_cases c1 ltac:(lia)) as [->|[->|[->|[->|[->| ->]]]]];
    destruct (level_cases c2 ltac:(lia)) as [->|[->|[->|[->|[->| ->]]]]];
    cbn; lia.
Qed.

Lemma normalize_level_value ctx ssl l :
  match ctx with Some l => Some l | None => ssl end = Some l ->
  ssl_security_normalize_level ctx ssl = Some (1, clamp_level l).
Proof.
  intros H. unfold ssl_security_normalize_level. rewrite H.
  unfold clamp_level. f_equal. f_equal.
  destruct (Z.ltb_spec l 0); destruct (Z.ltb_spec 5 l);
    try destruct (Z.ltb_spec 5 0); lia.
Qed.

Lemma minimum_bits_value c b :
  0 <= c <= 5 ->
  ssl_security_level_to_minimum_bits c b = (1, level_bits c).
Proof.
  intros H.
  destruct (level_cases c H) as [->|[->|[->|[->|[->| ->]]]]]; reflexivity.
Qed.

Lemma level_and_minimum_bits_value ctx ssl l out_level out_minimum_bits :
  match ctx with Some l => Some l | None => ssl end = Some l ->
  ssl_security_level_and_minimum_bits ctx ssl out_level out_minimum_bits
  = Some (1,
          match out_level with
          | Some _ => Some (clamp_level l)
          | None => None
          end,
          match out_minimum_bits with
          | Some _ => Some (level_bits (clamp_level l))
          | None => None
          end).
Proof.
  intros H. unfold ssl_security_level_and_minimum_bits.
  rewrite (normalize_level_value _ _ _ H).
  rewrite (minimum_bits_value _ _ (clamp_level_range l)). reflexivity.
Qed.

Lemma of_bool_one b : Some (of_bool b) = Some 1 <-> b = true.
Proof. destruct b; cbn; split; (reflexivity || discriminate). Qed.

(** X24: [ssl_security_level_and_minimum_bits] never returns 0 when the
    context or the connection is there: it returns 1, and writes, where
    the output pointer is not NULL, the level brought into 0..5 and the
    bits of that level (0, 80, 112, 128, 192, 256); the error returns of
    its callers are dead. *)
Theorem level_and_minimum_bits_never_fails (ctx ssl : option Z) (l : Z)
    (out_level out_minimum_bits : option Z) :
  match ctx with Some l => Some l | None => ssl end = Some l ->
  0 <= clamp_level l <= 5 /\
  (0 <= l <= 5 -> clamp_level l = l) /\
  ssl_security_level_and_minimum_bits ctx ssl out_level out_minimum_bits
  = Some (1,
          match out_level with
          | Some _ => Some (clamp_level l)
          | None => None
          end,
          match out_minimum_bits with
          | Some _ => Some (level_bits (clamp_level l))
          | None => None
          end).
Proof.
  intros H. split; [apply clamp_level_range|].
  split; [unfold clamp_level; lia|].
  now apply level_and_minimum_bits_value.
Qed.

Section Ssl.

Variable SSL_aNULL SSL_RC4 SSL_kDHE SSL_kECDHE SSL_TLSV1_3 : Z.
Variable TLS1_VERSION TLS1_1_VERSION TLS1_2_VERSION : Z.
Variable SSL_SECOP_CIPHER_SUPPORTED SSL_SECOP_CIPHER_SHARED
         SSL_SECOP_CIPHER_CHECK SSL_SECOP_VERSION SSL_SECOP_COMPRESSION
         SSL_SECOP_TICKET SSL_SECOP_TMP_DH : Z.
Variable ssl_tls_version : Z -> Z.

#[local] Abbreviation ssl_security_secop_cipher :=
  (ssl_security_secop_cipher SSL_aNULL SSL_RC4 SSL_kDHE SSL_kECDHE
     SSL_TLSV1_3).
#[local] Abbreviation ssl_security_secop_version :=
  (ssl_security_secop_version TLS1_VERSION TLS1_1_VERSION TLS1_2_VERSION
     ssl_tls_version).
#[local] Abbreviation ssl_security_default_cb :=
  (ssl_security_default_cb SSL_aNULL SSL_RC4 SSL_kDHE SSL_kECDHE SSL_TLSV1_3
     TLS1_VERSION TLS1_1_VERSION TLS1_2_VERSION
     SSL_SECOP_CIPHER_SUPPORTED SSL_SECOP_CIPHER_SHARED
     SSL_SECOP_CIPHER_CHECK SSL_SECOP_VERSION SSL_SECOP_COMPRESSION
     SSL_SECOP_TICKET SSL_SECOP_TMP_DH ssl_tls_version).

(** The cipher check by the level in force. *)
Lemma secop_cipher_value ctx ssl l bits cipher :
  match ctx with Some l => Some l | None => ssl end = Some l ->
  ssl_security_secop_cipher ctx ssl bits (Some cipher)
  = Some (of_bool
            ((clamp_level l =? 0)
             || ((level_bits (clamp_level l) <=? bits)
                 && (Z.land (algorithm_auth cipher) SSL_aNULL =? 0)
                 && ((clamp_level l <? 2)
                     || negb (algorithm_enc cipher =? SSL_RC4))
                 && ((clamp_level l <? 3)
                     || negb (Z.land (algorithm_mkey cipher)
                                (Z.lor SSL_kDHE SSL_kECDHE) =? 0)
                     || (algorithm_ssl cipher =? SSL_TLSV1_3))))).
Proof.
  intros H. unfold Seclevel.ssl_security_secop_cipher.
  rewrite (level_and_minimum_bits_value _ _ _ _ _ H). cbn [cell Z.eqb].
  pose proof (clamp_level_range l) as Hr.
  destruct (level_cases _ Hr) as [E|[E|[E|[E|[E|E]]]]]; rewrite E;
    cbn [Z.leb Z.ltb Z.eqb Z.compare Pos.compare Pos.compare_cont level_bits
         orb andb negb of_bool Pos.eqb];
    try reflexivity;
    match goal with
    | |- context [?a <? ?b] =>
      destruct (Z.ltb_spec a b); destruct (Z.leb_spec b a); try lia
    end;
    cbn [andb orb negb]; try reflexivity;
    destruct (Z.land (algorithm_auth cipher) SSL_aNULL =? 0);
    cbn [andb orb negb of_bool]; try reflexivity;
    destruct (algorithm_enc cipher =? SSL_RC4);
    cbn [andb orb negb of_bool]; try reflexivity;
    destruct (Z.land (algorithm_mkey cipher) (Z.lor SSL_kDHE SSL_kECDHE) =? 0);
    destruct (algorithm_ssl cipher =? SSL_TLSV1_3); reflexivity.
Qed.

(** X25: with a cipher at hand [ssl_security_secop_cipher] returns 0 or
    1, and 1 exactly when the level in force is 0, or the bits reach
    those of the level, the cipher is authenticated, from level 2 on it
    is not RC4, and from level 3 on it has a DHE or ECDHE key exchange or
    is a TLSv1.3 cipher. *)
Theorem secop_cipher_rule (ctx ssl : option Z) (l bits : Z)
    (cipher : SSL_CIPHER) :
  match ctx with Some l => Some l | None => ssl end = Some l ->
  exists b,
    ssl_security_secop_cipher ctx ssl bits (Some cipher) = Some (of_bool b)
    /\
    (b = true <->
     clamp_level l = 0 \/
     (level_bits (clamp_level l) <= bits /\
      Z.land (algorithm_auth cipher) SSL_aNULL = 0 /\
      (2 <= clamp_level l -> algorithm_enc cipher <> SSL_RC4) /\
      (3 <= clamp_level l ->
       Z.land (algorithm_mkey cipher) (Z.lor SSL_kDHE SSL_kECDHE) <> 0
       \/ algorithm_ssl cipher = SSL_TLSV1_3))).
Proof.
  clear ssl_tls_version. intros H. eexists.
  split; [exact (secop_cipher_value ctx ssl l bits cipher H)|].
  destruct (Z.eqb_spec (clamp_level l) 0) as [E0|E0];
    [cbn [orb]; tauto|].
  destruct (Z.leb_spec (level_bits (clamp_level l)) bits) as [Hb|Hb];
    [|cbn [orb andb]; split; [discriminate | lia]].
  destruct (Z.eqb_spec (Z.land (algorithm_auth cipher) SSL_aNULL) 0)
    as [Ea|Ea]; [|cbn [orb andb]; split; [discriminate | tauto]].
  destruct (Z.ltb_spec (clamp_level l) 2) as [H2|H2];
    destruct (Z.eqb_spec (algorithm_enc cipher) SSL_RC4) as [Er|Er];
    destruct (Z.ltb_spec (clamp_level l) 3) as [H3|H3];
    destruct (Z.eqb_spec (Z.land (algorithm_mkey cipher)
                            (Z.lor SSL_kDHE SSL_kECDHE)) 0) as [Ek|Ek];
    destruct (Z.eqb_spec (algorithm_ssl cipher) SSL_TLSV1_3) as [Es|Es];
    cbn [orb andb negb];
    (split;
     [ intros Hx; try discriminate Hx; right;
       (split; [exact Hb|]); (split; [exact Ea|]);
       split; intros; try lia; try assumption; tauto
     | intros [Hx|(_ & _ & Hr & Hf)]; try reflexivity; try contradiction;
       exfalso; try (specialize (Hr ltac:(lia)));
       try (specialize (Hf ltac:(lia))); try tauto; try lia ]).
Qed.

(** The other checks by the level in force. *)
Lemma secop_version_value ssl l version :
  ssl_security_secop_version (Some l) ssl version
  = Some (of_bool
            ((if clamp_level l <? 3 then TLS1_VERSION
              else if clamp_level l <? 4 then TLS1_1_VERSION
              else TLS1_2_VERSION) <=? ssl_tls_version version)).
Proof.
  unfold Seclevel.ssl_security_secop_version.
  rewrite (level_and_minimum_bits_value (Some l) ssl l _ _ eq_refl).
  cbn [cell Z.eqb].
  destruct (Z.ltb_spec (clamp_level l) 3);
    destruct (Z.ltb_spec (clamp_level l) 4); try lia; reflexivity.
Qed.

Lemma secop_cipher_null ssl l bits :
  ssl_security_secop_cipher (Some l) ssl bits None = Some 1 ->
  clamp_level l = 0.
Proof.
  unfold Seclevel.ssl_security_secop_cipher.
  rewrite (level_and_minimum_bits_value (Some l) ssl l _ _ eq_refl).
  cbn [cell Z.eqb]. pose proof (clamp_level_range l).
  destruct (Z.leb_spec (clamp_level l) 0); [lia|].
  destruct (_ <? _); discriminate.
Qed.

Lemma secop_cipher_level_zero ssl l bits cipher :
  clamp_level l = 0 ->
  ssl_security_secop_cipher (Some l) ssl bits cipher = Some 1.
Proof.
  intros E. unfold Seclevel.ssl_security_secop_cipher.
  rewrite (level_and_minimum_bits_value (Some l) ssl l _ _ eq_refl).
  cbn [cell Z.eqb]. rewrite E. reflexivity.
Qed.

(** X26: the default callback never refuses at a lower level what it
    allows at a higher one: if [ssl_security_default_cb] returns 1 for
    an operation under a context of level [l2], it returns 1 for the same
    operation under a context of any level [l1] below [l2] (the TLS
    version constants taken in their order). *)
Theorem default_cb_antitone (ssl : option Z) (op bits version : Z)
    (cipher : option SSL_CIPHER) (l1 l2 : Z) :
  TLS1_VERSION <= TLS1_1_VERSION <= TLS1_2_VERSION ->
  l1 <= l2 ->
  ssl_security_default_cb ssl (Some l2) op bits version cipher = Some 1 ->
  ssl_security_default_cb ssl (Some l1) op bits version cipher = Some 1.
Proof.
  intros Hv Hl. unfold Seclevel.ssl_security_default_cb.
  pose proof (clamp_level_mono _ _ Hl) as Hc.
  pose proof (clamp_level_range l1) as Hr1.
  pose proof (clamp_level_range l2) as Hr2.
  pose proof (level_bits_mono _ _ (proj1 Hr1) Hc (proj2 Hr2)) as Hb.
  destruct (_ || _ || _).
  { destruct cipher as [cipher|].
    - destruct (secop_cipher_rule (Some l1) ssl l1 bits cipher eq_refl)
        as (b1 & E1 & R1).
      destruct (secop_cipher_rule (Some l2) ssl l2 bits cipher eq_refl)
        as (b2 & E2 & R2).
      rewrite E1, E2, !of_bool_one, R1, R2.
      intros [H|(H1 & H2 & H3 & H4)]; [left; lia|].
      destruct (Z.eq_dec (clamp_level l1) 0) as [E|E]; [now left|].
      right. split; [lia|]. split; [exact H2|].
      split; intros Hx; [apply H3 | apply H4]; lia.
    - intros H. apply secop_cipher_null in H.
      apply secop_cipher_level_zero. lia. }
  destruct (op =? SSL_SECOP_VERSION).
  { rewrite !secop_version_value, !of_bool_one, !Z.leb_le.
    destruct (Z.ltb_spec (clamp_level l1) 3);
      destruct (Z.ltb_spec (clamp_level l1) 4);
      destruct (Z.ltb_spec (clamp_level l2) 3);
      destruct (Z.ltb_spec (clamp_level l2) 4); lia. }
  destruct (op =? SSL_SECOP_COMPRESSION); [discriminate|].
  destruct (op =? SSL_SECOP_TICKET).
  { unfold ssl_security_secop_tickets.
    rewrite !(level_and_minimum_bits_value (Some _) ssl _ _ _ eq_refl).
    cbn [cell Z.eqb]. rewrite !of_bool_one, !Z.ltb_lt. lia. }
  destruct (op =? SSL_SECOP_TMP_DH).
  { unfold ssl_security_secop_tmp_dh.
    rewrite !(level_and_minimum_bits_value (Some _) ssl _ _ _ eq_refl).
    cbn [cell Z.eqb].
    assert (H80 : 0 < clamp_level l2 -> 80 <= level_bits (clamp_level l2)).
    { intros H0.
      destruct (level_cases _ Hr2) as [E|[E|[E|[E|[E|E]]]]]; rewrite E in *;
        cbn; lia. }
    assert (H00 : clamp_level l1 <= 0 -> level_bits (clamp_level l1) = 0).
    { intros H0. replace (clamp_level l1) with 0 by lia. reflexivity. }
    destruct (Z.leb_spec (clamp_level l2) 0) as [L2|L2];
      destruct (Z.leb_spec (clamp_level l1) 0) as [L1|L1];
      destruct (Z.ltb_spec bits 80) as [B|B]; cbn [andb];
      try discriminate; try lia;
      rewrite !of_bool_one, !Z.leb_le; intros; try lia.
    all: try (specialize (H80 ltac:(lia)); lia).
    all: try (specialize (H00 ltac:(lia)); lia). }
  unfold ssl_security_secop_default.
  rewrite !(level_and_minimum_bits_value (Some _) ssl _ _ _ eq_refl).
  cbn [cell Z.eqb]. rewrite !of_bool_one, !Z.leb_le. lia.
Qed.

End Ssl.

(** ** Evaluated cases *)

Lemma level_and_minimum_bits_never_fails_witness :
  match Some 7 with Some l => Some l | None => None end = Some 7 /\
  0 <= clamp_level 7 <= 5 /\
  (0 <= 7 <= 5 -> clamp_level 7 = 7) /\
  ssl_security_level_and_minimum_bits (Some 7) None (Some 0) None
  = Some (1, Some (clamp_level 7), None).
Proof.
  split; [reflexivity|].
  exact (level_and_minimum_bits_never_fails (Some 7) None 7 (Some 0) None
           eq_refl).
Defined.

Lemma secop_cipher_rule_witness :
  match Some 3 with Some l => Some l | None => None end = Some 3 /\
  exists b,
    ssl_security_secop_cipher 4 4 8 128 8 (Some 3) None 128
      (Some example_cipher) = Some (of_bool b) /\
    (b = true <->
     clamp_level 3 = 0 \/
     (level_bits (clamp_level 3) <= 128 /\
      Z.land (algorithm_auth example_cipher) 4 = 0 /\
      (2 <= clamp_level 3 -> algorithm_enc example_cipher <> 4) /\
      (3 <= clamp_level 3 ->
       Z.land (algorithm_mkey example_cipher) (Z.lor 8 128) <> 0
       \/ algorithm_ssl example_cipher = 8))).
Proof.
  split; [reflexivity|].
  exact (secop_cipher_rule 4 4 8 128 8 (Some 3) None 3 128 example_cipher
           eq_refl).
Defined.

Lemma default_cb_antitone_witness :
  769 <= 770 <= 771 /\ 1 <= 3 /\
  ssl_security_default_cb 4 4 8 128 8 769 770 771 1 2 3 4 5 6 7 (fun v => v)
    None (Some 3) 1 128 771 (Some example_cipher) = Some 1 /\
  ssl_security_default_cb 4 4 8 128 8 769 770 771 1 2 3 4 5 6 7 (fun v => v)
    None (Some 1) 1 128 771 (Some example_cipher) = Some 1.
Proof.
  assert (H : ssl_security_default_cb 4 4 8 128 8 769 770 771 1 2 3 4 5 6 7
                (fun v => v) None (Some 3) 1 128 771 (Some example_cipher)
              = Some 1) by (vm_compute; reflexivity).
  split; [lia|]. split; [lia|]. split; [exact H|].
  exact (default_cb_antitone 4 4 8 128 8 769 770 771 1 2 3 4 5 6 7
           (fun v => v) None 1 128 771 (Some example_cipher) 1 3
           ltac:(lia) ltac:(lia) H).
Defined.

End SeclevelFacts.
